(** * Genesis Engine quantum steganography: bit-level codec, checksum header
      and codec orchestration

    A shallow embedding of [quantum_stego/modes.py], [quantum_stego/utils.py]
    and [quantum_stego/core.py].  Python integers are [Z], Python floats are
    IEEE binary64 primitive floats, a [str] payload is the list of its code
    points, a string of binary digits is a list of characters, and PIL image
    objects live in a heap addressed by references so that in-place pixel
    writes and the copies made by [convert] are kept apart.  PIL's colour
    conversions that the code's own paths do not pin down are a parameter
    (class [Pillow]); what the logger writes goes to a log kept beside the
    image files. *)

From Stdlib Require Import ZArith Floats Ascii String.
From stdpp Require Import gmap strings list.

Local Open Scope Z_scope.
Set Warnings "-inexact-float".

(** ** Exceptions, results and the state-and-exception monad *)

(** The subclasses of Python's [Exception] that the modelled code can meet.
    Signals deriving from [BaseException] only ([KeyboardInterrupt],
    [SystemExit]) are not failures of the code and are not modelled. *)
Inductive exn : Set :=
  | IndexError | ValueError | TypeError | ZeroDivisionError | OverflowError
  | OSError | NameError | RuntimeError
  | QuantumStateError | PhiModulationError | EntropyPoolError.

Inductive Result (A : Type) : Type :=
  | Ok (a : A)
  | Raise (e : exn).
Arguments Ok {A} a.
Arguments Raise {A} e.

#[global] Instance Result_ret : MRet Result := λ A a, Ok a.
#[global] Instance Result_bind : MBind Result := λ A B f r,
  match r with
  | Ok a => f a
  | Raise e => Raise e
  end.

(** ** Images *)

(** PIL's modes of 8-bit pixels without a palette, [img.mode]. The modes
    whose pixel values are not bytes ([I], [F], [I;16]) and the palette and
    bilevel modes ([P], [PA], [1]) are left out: [getpixel] gives an [int]
    or a [float] for [I], [F], [P] and [1], as it does for [L]. *)
Inductive ImageMode : Set :=
  | L | LA | La | RGB | YCbCr | LAB | HSV | RGBA | RGBa | RGBX | CMYK.

#[global] Instance ImageMode_eq_dec : EqDecision ImageMode.
Proof. solve_decision. Defined.

(** [len(img.getbands())]. *)
Definition bands (m : ImageMode) : nat :=
  match m with
  | L => 1
  | LA | La => 2
  | RGB | YCbCr | LAB | HSV => 3
  | RGBA | RGBa | RGBX | CMYK => 4
  end%nat.

(** A pixel is the list of its band values. *)
Abbreviation pixel := (list Z) (only parsing).

(** [im_size] is PIL's [img.size = (width, height)]; [im_data] holds the
    pixels in raster order, pixel [(x, y)] at index [y * width + x]. *)
Record Image : Type := mkImage {
  im_mode : ImageMode;
  im_size : Z * Z;
  im_data : list pixel
}.

(** The invariant of a PIL image in an 8-bit mode: non-negative dimensions,
    one pixel per position, one value per band ([shape_ok]), each a byte. *)
Definition shape_ok (im : Image) : bool :=
  let '(w, h) := im_size im in
  (0 <=? w) && (0 <=? h)
  && (length (im_data im) =? Z.to_nat (w * h))%nat
  && forallb (λ p, (length p =? bands (im_mode im))%nat) (im_data im).

Definition image_ok (im : Image) : bool :=
  shape_ok im
  && forallb (forallb (λ v, (0 <=? v) && (v <? 256))) (im_data im).

(** Object identity of an image: an index into the heap. *)
Definition ref : Set := nat.

(** A record emitted through the logger: the fixed text of the message and
    the exception formatted into it, if any. The time stamp, the logger's
    name and the level (always ERROR here) are left out, as is the
    exception's own text. *)
Definition LogRecord : Type := string * option exn.

(** The mutable world: the heap of live image objects, the image files on
    disk, and the records emitted so far through the logger
    ["genesis.quantum_stego"]. Every file handler installed on that logger
    (one for each [QuantumSteganography] object constructed) appends each
    record to the file [quantum_stego.log] of its workspace directory,
    which is taken not to be one of the image paths. *)
Record World : Type := mkWorld {
  images : list Image;
  files : gmap string Image;
  log : list LogRecord
}.

Definition M (A : Type) : Type := World → Result A * World.

#[global] Instance M_ret : MRet M := λ A a σ, (Ok a, σ).
#[global] Instance M_bind : MBind M := λ A B f m σ,
  match m σ with
  | (Ok a, σ') => f a σ'
  | (Raise e, σ') => (Raise e, σ')
  end.

Definition raise {A} (e : exn) : M A := λ σ, (Raise e, σ).

Definition lift {A} (r : Result A) : M A := λ σ, (r, σ).

(** [try: body except Exception: handler]; whatever the body wrote before
    raising stays written. *)
Definition try_except {A} (body : M A) (handler : exn → M A) : M A := λ σ,
  match body σ with
  | (Raise e, σ') => handler e σ'
  | r => r
  end.

(** [for a in l: body], threading the local variables [s] the body rebinds;
    the body says whether it ended in [break]. *)
Inductive ctl : Set := Continue | Break.

Fixpoint for_in {A S} (body : A → S → M (ctl * S)) (l : list A) (s : S) : M S :=
  match l with
  | [] => mret s
  | a :: l' =>
      r ← body a s;
      match r with
      | (Break, s') => mret s'
      | (Continue, s') => for_in body l' s'
      end
  end.

Fixpoint enumerate_from {A} (k : Z) (l : list A) : list (Z * A) :=
  match l with
  | [] => []
  | a :: l' => (k, a) :: enumerate_from (k + 1) l'
  end.

Definition enumerate {A} (l : list A) : list (Z * A) := enumerate_from 0 l.

Definition len {A} (l : list A) : Z := Z.of_nat (length l).

(** [range(stop)], [range(start, stop)] and [range(start, stop, step)] for a
    positive step. *)
Definition range2 (start stop : Z) : list Z := seqZ start (stop - start).
Definition range (stop : Z) : list Z := range2 0 stop.
Definition range3 (start stop step : Z) : list Z :=
  (λ k, start + step * k) <$> seqZ 0 ((stop - start + step - 1) `div` step).

(** [s[i:j]] for non-negative [i], [j]. *)
Definition slice {A} (s : list A) (i j : Z) : list A :=
  take (Z.to_nat (j - i)) (drop (Z.to_nat i) s).

(** Python's floor division and modulo, which raise on a zero divisor. *)
Definition py_mod (a b : Z) : Result Z :=
  if b =? 0 then Raise ZeroDivisionError else Ok (a `mod` b).
Definition py_floordiv (a b : Z) : Result Z :=
  if b =? 0 then Raise ZeroDivisionError else Ok (a `div` b).

(** *** PIL operations *)

Definition get_image (img : ref) : M Image := λ σ,
  match images σ !! img with
  | Some im => (Ok im, σ)
  | None => (Raise RuntimeError, σ)
  end.

Definition set_image (img : ref) (im : Image) : M unit := λ σ,
  (Ok (), mkWorld (<[img := im]> (images σ)) (files σ) (log σ)).

Definition new_image (im : Image) : M ref := λ σ,
  (Ok (length (images σ)), mkWorld (images σ ++ [im]) (files σ) (log σ)).

(** PIL's pixel access: a negative coordinate counts from the far edge, and
    anything still outside the image is an [IndexError]. *)
Definition pixel_index (size : Z * Z) (xy : Z * Z) : option nat :=
  let '(w, h) := size in
  let '(x, y) := xy in
  let x := if x <? 0 then w + x else x in
  let y := if y <? 0 then h + y else y in
  if (0 <=? x) && (x <? w) && (0 <=? y) && (y <? h)
  then Some (Z.to_nat (y * w + x)) else None.

(** [pixels[x, y]] and [img.getpixel((x, y))]. *)
Definition getpixel (img : ref) (xy : Z * Z) : M pixel :=
  im ← get_image img;
  match pixel_index (im_size im) xy with
  | Some k =>
      match im_data im !! k with
      | Some p => mret p
      | None => raise IndexError
      end
  | None => raise IndexError
  end.

(** [pixels[x, y] = v]. *)
Definition putpixel (img : ref) (xy : Z * Z) (v : pixel) : M unit :=
  im ← get_image img;
  match pixel_index (im_size im) xy with
  | Some k =>
      if (length v =? bands (im_mode im))%nat
      then set_image img (mkImage (im_mode im) (im_size im) (<[k := v]> (im_data im)))
      else raise TypeError
  | None => raise IndexError
  end.

(** PIL's pixel converters between [L], [RGB] and [RGBA]. *)
Definition convert_pixel (src dst : ImageMode) (p : pixel) : pixel :=
  match src, dst, p with
  | L, RGB, [l] => [l; l; l]
  | L, RGBA, [l] => [l; l; l; 255]
  | RGB, RGBA, [r; g; b] => [r; g; b; 255]
  | RGBA, RGB, [r; g; b; _] => [r; g; b]
  | RGB, L, [r; g; b] => [Z.shiftr (r * 19595 + g * 38470 + b * 7471 + 32768) 16]
  | RGBA, L, [r; g; b; _] => [Z.shiftr (r * 19595 + g * 38470 + b * 7471 + 32768) 16]
  | _, _, _ => p
  end.

(** PIL converts pixel by pixel with a converter chosen by the two modes,
    and has none for some pairs. The converters of the other modes (colour
    space arithmetic, lookup tables, colour management) are taken as given:
    [converter src dst] is PIL's converter, [None] when it has none; a
    converter yields pixels of the target mode. *)
Class Pillow : Type := {
  converter : ImageMode → ImageMode → option (pixel → pixel);
  converter_bands : ∀ src dst f p,
    converter src dst = Some f → length p = bands src → length (f p) = bands dst
}.

(** The converter [img.convert(mode)] uses. [La] (premultiplied alpha) has
    a converter to [LA] only, none to [RGB] or [RGBA]. *)
Definition pil_converter `{!Pillow} (src dst : ImageMode) : option (pixel → pixel) :=
  match src, dst with
  | (L | RGB | RGBA), (L | RGB | RGBA) => Some (convert_pixel src dst)
  | La, (RGB | RGBA) => None
  | _, _ => if decide (src = dst) then Some id else converter src dst
  end.

(** [img.convert(mode)]: a new image object, or [ValueError] when PIL has
    no converter. *)
Definition convert `{!Pillow} (img : ref) (mode : ImageMode) : M ref :=
  im ← get_image img;
  match pil_converter (im_mode im) mode with
  | Some f => new_image (mkImage mode (im_size im) (f <$> im_data im))
  | None => raise ValueError
  end.

(** [Image.open(path)]: a new image object read from the file, or an
    [OSError] when there is no such image file. *)
Definition Image_open (path : string) : M ref := λ σ,
  match files σ !! path with
  | Some im => new_image im σ
  | None => (Raise OSError, σ)
  end.

(** Writing an image file at [path]. *)
Definition write_file (path : string) (im : Image) : M unit := λ σ,
  (Ok (), mkWorld (images σ) (<[path := im]> (files σ)) (log σ)).

(** Tuple unpacking of a pixel value: a single-band pixel is an [int]
    ([TypeError]), a tuple of the wrong length is a [ValueError]. *)
Definition unpack3 (p : pixel) : Result (Z * Z * Z) :=
  match p with
  | [r; g; b] => Ok (r, g, b)
  | [_] => Raise TypeError
  | _ => Raise ValueError
  end.

Definition unpack4 (p : pixel) : Result (Z * Z * Z * Z) :=
  match p with
  | [r; g; b; a] => Ok (r, g, b, a)
  | [_] => Raise TypeError
  | _ => Raise ValueError
  end.

(** ** Strings of binary digits *)

(** A Python [str] as the list of its code points. *)
Abbreviation pystr := (list N) (only parsing).

Definition ord (c : N) : Z := Z.of_N c.

Definition chr (v : Z) : Result N :=
  if (0 <=? v) && (v <? 1114112) then Ok (Z.to_N v) else Raise ValueError.

Definition bitchar (b : bool) : ascii := if b then "1"%char else "0"%char.

(** Binary digits of a non-negative integer, most significant first, in
    exactly [w] places. *)
Definition bits_of (w : nat) (n : Z) : list bool :=
  (λ k, Z.testbit n (Z.of_nat k)) <$> reverse (seq 0 w).

(** [format(n, '08b')]: at least eight digits, zero padded; a negative
    value has its sign in the first place. *)
Definition format_08b (n : Z) : list ascii :=
  if n <? 0
  then "-"%char :: (bitchar <$> bits_of (Nat.max 7 (Z.to_nat (Z.log2 (- n) + 1))) (- n))
  else bitchar <$> bits_of (Nat.max 8 (Z.to_nat (Z.log2 n + 1))) n.

(** [int(c)] for a one-character string. *)
Definition int_of_char (c : ascii) : Result Z :=
  let n := Z.of_nat (nat_of_ascii c) in
  if (48 <=? n) && (n <=? 57) then Ok (n - 48) else Raise ValueError.

(** [int(s, 2)] for a string of binary digits. *)
Definition int_base2 (s : list ascii) : Result Z :=
  match s with
  | [] => Raise ValueError
  | _ =>
      foldl (λ acc c,
               match acc with
               | Ok v =>
                   if Ascii.eqb c "0" then Ok (2 * v)
                   else if Ascii.eqb c "1" then Ok (2 * v + 1)
                   else Raise ValueError
               | Raise e => Raise e
               end) (Ok 0) s
  end.

(** [str(v)] for [v] the result of [_ & 1]. *)
Definition str_bit (v : Z) : list ascii := [bitchar (negb (v =? 0))].

(** [''.join(format(ord(c), '08b') for c in data_hash)]. *)
Definition binary_of (data_hash : pystr) : list ascii :=
  mjoin ((λ c, format_08b (ord c)) <$> data_hash).

(** ** [modes.py]: the three placement strategies *)

Inductive SteganoMode : Set := PSI | PHI | TAU.

Module SteganoMode.

Section pil.

Context {pil : Pillow}.

(** Quantum superposition mode encoding. *)
Definition _encode_psi (img : ref) (data_hash : pystr) : M bool :=
  im ← get_image img;
  img ← (if decide (im_mode im ≠ RGBA) then convert img RGBA else mret img);
  let pixels := img in
  im ← get_image img;
  let '(width, height) := im_size im in
  let binary_data := binary_of data_hash in
  try_except
    (for_in (λ '((i, bit) : Z * ascii) (_ : unit),
       if i >=? width * height then mret (Break, ()) else
       x ← lift (py_mod i width);
       y ← lift (py_floordiv i width);
       p ← getpixel pixels (x, y);
       '(r, g, b, a) ← lift (unpack4 p);
       v ← lift (int_of_char bit);
       let a := Z.lor (Z.land a (Z.lnot 1)) v in
       putpixel pixels (x, y) [r; g; b; a];;
       mret (Continue, ())) (enumerate binary_data) ();;
     mret true)
    (λ _, mret false).

(** Golden ratio mode encoding. *)
Definition _encode_phi (img : ref) (data_hash : pystr)
    (positions : option (list (Z * Z))) : M bool :=
  let pixels := img in
  let binary_data := binary_of data_hash in
  try_except
    (match positions with
     | Some (pos0 :: pos') =>
         let positions := pos0 :: pos' in
         for_in (λ '((i, bit) : Z * ascii) (_ : unit),
           if i >=? len positions then mret (Break, ()) else
           '(x, y) ← lift (from_option Ok (Raise IndexError)
                             (positions !! Z.to_nat i));
           p ← getpixel pixels (x, y);
           '(r, g, b) ← lift (unpack3 p);
           v ← lift (int_of_char bit);
           let r := Z.lor (Z.land r (Z.lnot 1)) v in
           putpixel pixels (x, y) [r; g; b];;
           mret (Continue, ())) (enumerate binary_data) ()
     | _ =>
         (* Default sequential embedding if no positions provided *)
         im ← get_image img;
         let '(width, height) := im_size im in
         for_in (λ '((i, bit) : Z * ascii) (_ : unit),
           if i >=? width * height then mret (Break, ()) else
           x ← lift (py_mod i width);
           y ← lift (py_floordiv i width);
           p ← getpixel pixels (x, y);
           '(r, g, b) ← lift (unpack3 p);
           v ← lift (int_of_char bit);
           let r := Z.lor (Z.land r (Z.lnot 1)) v in
           putpixel pixels (x, y) [r; g; b];;
           mret (Continue, ())) (enumerate binary_data) ()
     end;;
     mret true)
    (λ _, mret false).

(** Technical mode encoding using multi-channel LSB. *)
Definition _encode_tau (img : ref) (data_hash : pystr) : M bool :=
  let pixels := img in
  im ← get_image img;
  let '(width, height) := im_size im in
  let binary_data := binary_of data_hash in
  try_except
    (for_in (λ '((i, bit) : Z * ascii) (_ : unit),
       if i >=? width * height then mret (Break, ()) else
       x ← lift (py_mod i width);
       y ← lift (py_floordiv i width);
       p ← getpixel pixels (x, y);
       '(r, g, b) ← lift (unpack3 p);
       v ← lift (int_of_char bit);
       let r := Z.lor (Z.land r (Z.lnot 3)) (Z.shiftl v 1) in
       v ← lift (int_of_char bit);
       let g := Z.lor (Z.land g (Z.lnot 1)) v in
       putpixel pixels (x, y) [r; g; b];;
       mret (Continue, ())) (enumerate binary_data) ();;
     mret true)
    (λ _, mret false).

(** The shared tail of the three decoders: eight digits at a time, a short
    last group dropped. *)
Definition chars_of_binary (binary_data : list ascii) : M pystr :=
  for_in (λ (i : Z) (chars : pystr),
    let byte := slice binary_data i (i + 8) in
    if len byte =? 8
    then v ← lift (int_base2 byte);
         c ← lift (chr v);
         mret (Continue, chars ++ [c])
    else mret (Continue, chars)) (range3 0 (len binary_data) 8) [].

(** Quantum superposition mode decoding. *)
Definition _decode_psi (img : ref) : M pystr :=
  im ← get_image img;
  if decide (im_mode im ≠ RGBA) then mret [] else
  let pixels := img in
  let '(width, height) := im_size im in
  try_except
    (binary_data ← for_in (λ (y : Z) (binary_data : list ascii),
       binary_data ← for_in (λ (x : Z) (binary_data : list ascii),
         if len binary_data >=? 512 then mret (Break, binary_data) else
         p ← getpixel pixels (x, y);
         '(_, _, _, a) ← lift (unpack4 p);
         mret (Continue, binary_data ++ str_bit (Z.land a 1)))
         (range width) binary_data;
       mret (Continue, binary_data)) (range height) [];
     chars_of_binary binary_data)
    (λ _, mret []).

(** Golden ratio mode decoding. *)
Definition _decode_phi (img : ref) : M pystr :=
  let pixels := img in
  im ← get_image img;
  let '(width, height) := im_size im in
  try_except
    (binary_data ← for_in (λ (y : Z) (binary_data : list ascii),
       binary_data ← for_in (λ (x : Z) (binary_data : list ascii),
         if len binary_data >=? 512 then mret (Break, binary_data) else
         p ← getpixel pixels (x, y);
         '(r, _, _) ← lift (unpack3 p);
         mret (Continue, binary_data ++ str_bit (Z.land r 1)))
         (range width) binary_data;
       mret (Continue, binary_data)) (range height) [];
     chars_of_binary binary_data)
    (λ _, mret []).

(** Technical mode decoding. *)
Definition _decode_tau (img : ref) : M pystr :=
  let pixels := img in
  im ← get_image img;
  let '(width, height) := im_size im in
  try_except
    (binary_data ← for_in (λ (y : Z) (binary_data : list ascii),
       binary_data ← for_in (λ (x : Z) (binary_data : list ascii),
         if len binary_data >=? 512 then mret (Break, binary_data) else
         p ← getpixel pixels (x, y);
         '(r, _, _) ← lift (unpack3 p);
         mret (Continue, binary_data ++ str_bit (Z.land (Z.shiftr r 1) 1)))
         (range width) binary_data;
       mret (Continue, binary_data)) (range height) [];
     chars_of_binary binary_data)
    (λ _, mret []).

Definition encode (self : SteganoMode) (img : ref) (data_hash : pystr)
    (positions : option (list (Z * Z))) : M bool :=
  match self with
  | PSI => _encode_psi img data_hash
  | PHI => _encode_phi img data_hash positions
  | TAU => _encode_tau img data_hash
  end.

Definition decode (self : SteganoMode) (img : ref) : M pystr :=
  match self with
  | PSI => _decode_psi img
  | PHI => _decode_phi img
  | TAU => _decode_tau img
  end.

End pil.

End SteganoMode.

(** ** Floats *)

(** [float(n)] for a Python [int] of magnitude below 2^63. *)
Definition float_of_Z (n : Z) : float :=
  if n <? 0 then PrimFloat.opp (PrimFloat.of_uint63 (Uint63.of_Z (- n)))
  else PrimFloat.of_uint63 (Uint63.of_Z n).

(** [int(f)]: truncation towards zero. *)
Definition int_of_float (f : float) : Result Z :=
  match Prim2SF f with
  | S754_zero _ => Ok 0
  | S754_finite s m e =>
      let v := if e <? 0 then Z.shiftr (Z.pos m) (- e) else Z.shiftl (Z.pos m) e in
      Ok (if s then - v else v)
  | S754_infinity _ => Raise OverflowError
  | S754_nan => Raise ValueError
  end.

(** [f % 1]: the remainder has the sign of the divisor. *)
Definition float_mod1 (f : float) : float :=
  match int_of_float f with
  | Ok t =>
      if 2 ^ 53 <=? Z.abs t then 0%float
      else let r := (f - float_of_Z t)%float in
           if (r <? 0)%float then (r + 1)%float else r
  | Raise _ => nan
  end.

(** [phi = (1 + 5 ** 0.5) / 2]; [5 ** 0.5] is the binary64 nearest to the
    square root of five. *)
Definition phi : float := ((1 + PrimFloat.sqrt 5) / 2)%float.

(** ** [utils.py]: the checksum and its header *)

(** One step of the fold: [int((checksum + r + g + b) * phi) % 256]. *)
Definition checksum_step (checksum r g b : Z) : Result Z :=
  match int_of_float (float_of_Z (checksum + r + g + b) * phi)%float with
  | Ok v => Ok (v `mod` 256)
  | Raise e => Raise e
  end.

(** Calculate quantum-inspired checksum for image region. *)
Definition calculate_checksum (img : ref) (region : Z * Z * Z * Z) : M Z :=
  let '(x1, y1, x2, y2) := region in
  im ← get_image img;
  let '(width, height) := im_size im in
  let x1 := Z.max 0 (Z.min x1 (width - 1)) in
  let y1 := Z.max 0 (Z.min y1 (height - 1)) in
  let x2 := Z.max x1 (Z.min x2 width) in
  let y2 := Z.max y1 (Z.min y2 height) in
  try_except
    (for_in (λ (x : Z) (checksum : Z),
       checksum ← for_in (λ (y : Z) (checksum : Z),
         p ← getpixel img (x, y);
         '(r, g, b) ← lift (unpack3 p);
         (* φ-modulated checksum calculation *)
         checksum ← lift (checksum_step checksum r g b);
         mret (Continue, checksum)) (range2 y1 y2) checksum;
       mret (Continue, checksum)) (range2 x1 x2) 0)
    (λ _, mret (-1)).

(** Embed checksum into image header. *)
Definition embed_checksum (img : ref) (checksum : Z) : M unit :=
  let binary_checksum := format_08b checksum in
  let pixels := img in
  try_except
    (for_in (λ '((i, bit) : Z * ascii) (_ : unit),
       x ← lift (py_mod i 50);
       y ← lift (py_floordiv i 50);  (* Using header region *)
       p ← getpixel pixels (x, y);
       '(r, g, b) ← lift (unpack3 p);
       v ← lift (int_of_char bit);
       let r := Z.lor (Z.land r (Z.lnot 1)) v in
       putpixel pixels (x, y) [r; g; b];;
       mret (Continue, ())) (enumerate binary_checksum) ())
    (λ _, mret ()).

(** Extract embedded checksum from image header. *)
Definition extract_checksum (img : ref) : M Z :=
  let pixels := img in
  try_except
    (binary_checksum ← for_in (λ (i : Z) (binary_checksum : list ascii),
       x ← lift (py_mod i 50);
       y ← lift (py_floordiv i 50);  (* Using header region *)
       p ← getpixel pixels (x, y);
       '(r, _, _) ← lift (unpack3 p);
       mret (Continue, binary_checksum ++ str_bit (Z.land r 1))) (range 8) [];
     lift (int_base2 binary_checksum))
    (λ _, mret (-1)).

(** ** [core.py]: the codec *)

Module QuantumSteganography.

Definition CHAOS_INTENSITY : float := 0.6%float.

(** Initialize steganography mode using φ-modulated dynamics. *)
Definition _initialize_mode (chaos_intensity : float) : SteganoMode :=
  let chaos_factor := float_mod1 (chaos_intensity * phi)%float in
  if (0.8 <? chaos_factor)%float then PSI   (* Quantum superposition mode *)
  else if (0.5 <? chaos_factor)%float then PHI   (* Golden ratio mode *)
  else TAU.   (* Technical mode *)

Definition FILE_TYPE_MAP : list string :=
  ["image/png"; "text/plain"; "audio/mpeg"; "video/mp4"]%string.

(** [-img_array] on unsigned bytes. *)
Definition np_negative (a : list pixel) : list pixel :=
  (λ p : list Z, (λ v, (- v) `mod` 256) <$> p) <$> a.

Section collaborators.

(** The collaborators of the codec: each call either returns or raises.
    [ndarray] is the type of numpy float arrays. [generate_pq_hash] is
    defined in utils.py and core.py calls it without importing it, so that
    there the call raises [NameError]: one of the behaviours this parameter
    ranges over. *)
Context {pil : Pillow}.
Context {ndarray : Type}.
Variable validate_content : string → Result bool.
Variable apply_quantum_transform : list pixel → Result ndarray.
Variable np_uint8 : ndarray → list pixel.
Variable get_superposition_state : list pixel → Result (list ndarray).
Variable record_quantum_state : ndarray → Result unit.
Variable temporal_analyzer : bool.
Variable analyze_pattern : ndarray → Result unit.
Variable validate_pattern : list pixel → Result bool.
Variable generate_pq_hash : string → Result pystr.
Variable save_check : string → Image → Result unit.

(** [self.logger.error(msg)]: one more record for the file handlers that
    [_setup_logging] installed. Logging does not raise. *)
Definition logger_error (msg : string) (e : option exn) : M unit := λ σ,
  (Ok (), mkWorld (images σ) (files σ) (log σ ++ [(msg, e)])).

(** [img.save(path)]. *)
Definition Image_save (img : ref) (path : string) : M unit :=
  im ← get_image img;
  lift (save_check path im);;
  write_file path im.

(** [Image.fromarray(np.uint8(a))] for an array of shape (height, width, 3). *)
Definition Image_fromarray (size : Z * Z) (a : list pixel) : M ref :=
  new_image (mkImage RGB size a).

(** The body of [encode]'s main [try] block. *)
Definition encode_body (self_mode : SteganoMode)
    (input_path output_path file_type : string) : M bool :=
  (* Load and validate image *)
  img ← Image_open input_path;
  img ← convert img RGB;
  im ← get_image img;
  let img_array := im_data im in
  (* Apply quantum transformation *)
  transformed_data ← lift (apply_quantum_transform img_array);
  img ← Image_fromarray (im_size im) (np_uint8 transformed_data);
  (* Generate superposition states for enhanced security *)
  states ← lift (get_superposition_state img_array);
  state0 ← lift (from_option Ok (Raise IndexError) (states !! 0%nat));
  lift (record_quantum_state state0);;
  (* Temporal pattern analysis *)
  (if temporal_analyzer then lift (analyze_pattern transformed_data) else mret ());;
  (* Original encoding logic *)
  data_hash ← lift (generate_pq_hash file_type);
  success ← SteganoMode.encode self_mode img data_hash None;
  (if (success : bool) then
     (* Record successful operation *)
     lift (record_quantum_state transformed_data);;
     Image_save img output_path
   else mret ());;
  mret success.

(** Enhanced encode with quantum features and ethical validation. *)
Definition encode (self_mode : SteganoMode)
    (input_path output_path file_type : string) (ethical_check : bool) : M bool :=
  (* Ethical validation *)
  ok ← (if ethical_check then
          try_except
            (ok ← lift (validate_content input_path);
             if negb (ok : bool) then
               logger_error "Content failed ethical validation" None;;
               mret false
             else mret true)
            (λ e,
               logger_error "Ethical validation error: " (Some e);;
               mret false)
        else mret true);
  if negb (ok : bool) then mret false else
  try_except (encode_body self_mode input_path output_path file_type)
    (λ e,
       match e with
       | QuantumStateError => logger_error "Quantum state error: " (Some e)
       | PhiModulationError => logger_error "Phi modulation error: " (Some e)
       | EntropyPoolError => logger_error "Entropy pool error: " (Some e)
       | _ => logger_error "Unexpected error: " (Some e)
       end;;
       mret false).

(** The body of [decode]'s [try] block. *)
Definition decode_body (self_mode : SteganoMode) (image_path : string)
    (validate_temporal : bool) : M string :=
  img ← Image_open image_path;
  img ← convert img RGB;
  im ← get_image img;
  let img_array := im_data im in
  (* Validate temporal patterns *)
  (if validate_temporal && temporal_analyzer then
     ok ← lift (validate_pattern img_array);
     if negb (ok : bool) then raise QuantumStateError else mret ()
   else mret ());;
  (* Apply inverse quantum transformation *)
  transformed_data ← lift (apply_quantum_transform (np_negative img_array));
  img ← Image_fromarray (im_size im) (np_uint8 transformed_data);
  (* Record quantum state *)
  lift (record_quantum_state transformed_data);;
  (* Decode using appropriate mode *)
  decoded_hash ← SteganoMode.decode self_mode img;
  (* Match hash to file type *)
  found ← for_in (λ (file_type : string) (found : option string),
    h ← lift (generate_pq_hash file_type);
    if decide ((h : pystr) = decoded_hash) then mret (Break, Some file_type)
    else mret (Continue, found)) FILE_TYPE_MAP None;
  match (found : option string) with
  | Some file_type => mret file_type
  | None => mret "unknown"%string
  end.

(** Enhanced decode with quantum features and temporal validation. *)
Definition decode (self_mode : SteganoMode) (image_path : string)
    (validate_temporal : bool) : M string :=
  try_except (decode_body self_mode image_path validate_temporal)
    (λ e,
       match e with
       | QuantumStateError =>
           logger_error "Quantum state error during decode: " (Some e)
       | _ => logger_error "Decode error: " (Some e)
       end;;
       mret "unknown"%string).

End collaborators.

End QuantumSteganography.

(** ** Further modules: [exceptions.py], the hash of [utils.py] and
       [quantum_features.py] *)

(** *** More of Python's strings, bytes and slices *)

(** [s[:j]] and [s[i:]], a negative bound counting from the end. *)
Definition slice_to {A} (s : list A) (j : Z) : list A :=
  take (Z.to_nat (if j <? 0 then Z.max 0 (len s + j) else j)) s.
Definition slice_from {A} (s : list A) (i : Z) : list A :=
  drop (Z.to_nat (if i <? 0 then Z.max 0 (len s + i) else i)) s.

(** [s[i]] for a list, a negative index counting from the end. *)
Definition index {A} (s : list A) (i : Z) : Result A :=
  let i := if i <? 0 then len s + i else i in
  if i <? 0 then Raise IndexError
  else from_option Ok (Raise IndexError) (s !! Z.to_nat i).

(** [a < b] on [str]: lexicographic on code points. *)
Fixpoint str_lt (a b : pystr) : bool :=
  match a, b with
  | _, [] => false
  | [], _ :: _ => true
  | x :: a', y :: b' =>
      if (x <? y)%N then true else if (y <? x)%N then false else str_lt a' b'
  end.

(** [c.encode()] for one character: UTF-8; a surrogate cannot be encoded
    ([UnicodeEncodeError], a [ValueError]). *)
Definition utf8_char (c : Z) : Result (list Z) :=
  if c <? 128 then Ok [c]
  else if c <? 2048 then Ok [192 + c `div` 64; 128 + c `mod` 64]
  else if (55296 <=? c) && (c <=? 57343) then Raise ValueError
  else if c <? 65536
  then Ok [224 + c `div` 4096; 128 + (c `div` 64) `mod` 64; 128 + c `mod` 64]
  else Ok [240 + c `div` 262144; 128 + (c `div` 4096) `mod` 64;
           128 + (c `div` 64) `mod` 64; 128 + c `mod` 64].

(** [s.encode()]. *)
Definition str_encode (s : pystr) : Result (list Z) :=
  chunks ← mapM (λ c, utf8_char (ord c)) s; mret (mjoin chunks).

(** [b.hex()]: two lower-case hexadecimal digits per byte. *)
Definition hex_digit (d : Z) : N :=
  if d <? 10 then Z.to_N (48 + d) else Z.to_N (87 + d).
Definition bytes_hex (b : list Z) : pystr :=
  v ← b; [hex_digit (v `div` 16); hex_digit (v `mod` 16)].

(** [int.from_bytes(b, 'big')]. *)
Definition int_from_bytes_big (b : list Z) : Z :=
  foldl (λ acc v, 256 * acc + v) 0 b.

(** [float(n)] for a Python [int] within the range of binary64 (as an
    integer of eight bytes is): the nearest binary64, ties to even. *)
Definition float_of_int (n : Z) : float :=
  SF2Prim (binary_normalize 53 1024 n 0 false).

(** *** [exceptions.py] *)

Module exceptions.

(** The exception classes of the module, [QuantumStegoError] their base. *)
Inductive ErrorClass : Set :=
  | QuantumStegoError
  | QuantumStateError
  | PhiModulationError
  | EntropyPoolError
  | QuantumChecksumError
  | TemporalPatternError
  | EthicalValidationError
  | QuantumSecurityError.

#[global] Instance ErrorClass_eq_dec : EqDecision ErrorClass.
Proof. solve_decision. Defined.

(** An exception object: its class ([type(error)]) and its attributes. *)
Record Error : Set := mkError {
  type : ErrorClass;
  timestamp : string;
  message : string
}.

(** [QuantumStegoError.__init__]. *)
Definition QuantumStegoError_init (cls : ErrorClass) (message : string) : Error :=
  let timestamp := "2025-05-09 06:16:57"%string in
  mkError cls timestamp ("[" ++ timestamp ++ "] " ++ message)%string.

(** The default message of each class and the label a subclass puts in
    front of its message. *)
Definition default_message (cls : ErrorClass) : string :=
  match cls with
  | QuantumStegoError => "Quantum steganography operation failed"
  | QuantumStateError => "Invalid quantum state"
  | PhiModulationError => "φ-modulation failed"
  | EntropyPoolError => "Entropy pool depleted"
  | QuantumChecksumError => "Checksum verification failed"
  | TemporalPatternError => "Temporal pattern analysis failed"
  | EthicalValidationError => "Ethical validation failed"
  | QuantumSecurityError => "Security operation failed"
  end%string.

Definition label (cls : ErrorClass) : string :=
  match cls with
  | QuantumStegoError => ""
  | QuantumStateError => "Quantum State Error: "
  | PhiModulationError => "φ-Modulation Error: "
  | EntropyPoolError => "Entropy Pool Error: "
  | QuantumChecksumError => "Quantum Checksum Error: "
  | TemporalPatternError => "Temporal Pattern Error: "
  | EthicalValidationError => "Ethical Validation Error: "
  | QuantumSecurityError => "Quantum Security Error: "
  end%string.

(** [cls(message)], the message optional. *)
Definition new (cls : ErrorClass) (message : option string) : Error :=
  QuantumStegoError_init cls (label cls ++ default (default_message cls) message)%string.

(** Error code mapping for system integration. *)
Definition ERROR_CODES : list (ErrorClass * Z) :=
  [(QuantumStateError, 1001);
   (PhiModulationError, 1002);
   (EntropyPoolError, 1003);
   (QuantumChecksumError, 1004);
   (TemporalPatternError, 1005);
   (EthicalValidationError, 1006);
   (QuantumSecurityError, 1007)].

(** [d.get(key, default)] on a dictionary kept as its list of items. *)
Fixpoint dict_get (d : list (ErrorClass * Z)) (key : ErrorClass) (default : Z) : Z :=
  match d with
  | [] => default
  | (k, v) :: d' => if decide (k = key) then v else dict_get d' key default
  end.

(** Get system error code for exception type. *)
Definition get_error_code (error : Error) : Z :=
  dict_get ERROR_CODES (type error) 1000.

End exceptions.

(** *** [utils.py]: the salted hash *)

Section pq_hash.

(** [hashlib.sha3_512(b).digest()] and [str(x).encode()] for a float [x]
    are taken as given. *)
Variable sha3_512 : list Z → list Z.
Variable float_str : float → list Z.

(** Generate a pseudo quantum-resistant hash. [os_urandom] is what
    [os.urandom(8)] returned; [length] defaults to 64. *)
Definition generate_pq_hash (os_urandom : list Z) (data : pystr)
    (length : option Z) : Result pystr :=
  let length := default 64 length in
  (* Quantum-inspired salt generation using golden ratio *)
  let salt := float_str (phi * float_of_int (int_from_bytes_big os_urandom))%float in
  (* Multiple rounds of hashing *)
  encoded ← str_encode data;
  let hash_value := sha3_512 (encoded ++ salt) in
  let hash_value :=
    foldl (λ hash_value _, sha3_512 (hash_value ++ salt)) hash_value (range 3) in
  mret (slice_to (bytes_hex hash_value) length).

End pq_hash.

(** *** A state-and-exception monad over any state *)

Definition ST (Σ A : Type) : Type := Σ → Result A * Σ.

Definition ST_ret {Σ A} (a : A) : ST Σ A := λ s, (Ok a, s).

Definition ST_bind {Σ A B} (f : A → ST Σ B) (m : ST Σ A) : ST Σ B := λ s,
  match m s with
  | (Ok a, s') => f a s'
  | (Raise e, s') => (Raise e, s')
  end.

Definition ST_raise {Σ A} (e : exn) : ST Σ A := λ s, (Raise e, s).

Definition ST_lift {Σ A} (r : Result A) : ST Σ A := λ s, (r, s).

Definition ST_get {Σ} : ST Σ Σ := λ s, (Ok s, s).

(** [try: body except Exception as e: handler]. *)
Definition ST_try {Σ A} (body : ST Σ A) (handler : exn → ST Σ A) : ST Σ A := λ s,
  match body s with
  | (Raise e, s') => handler e s'
  | r => r
  end.

(** [for a in l: body] where the body rebinds the local variables [acc]. *)
Fixpoint ST_for {Σ A S} (body : A → S → ST Σ S) (l : list A) (acc : S) : ST Σ S :=
  match l with
  | [] => ST_ret acc
  | a :: l' => ST_bind (ST_for body l') (body a acc)
  end.

(** *** [quantum_features.py]: QuantumFeatures *)

Module QuantumFeatures.

Section numerics.

(** numpy's float arrays of one dimension are lists of floats; the arrays of
    image data are of type [ndarray], and the two complex-phase expressions
    on them are taken as given: [np.real(np.exp(2j * np.pi * phi * data) *
    data)] and [np.real(data * np.exp(2j * np.pi * phase))]. Each returns or
    raises. *)
Context {ndarray : Type}.
Variable phase_transform : ndarray → Result ndarray.
Variable superpose : ndarray → list float → Result ndarray.

(** The object's attributes, and numpy's global generator: the stream
    [np_random] of its outputs in [0, 1) and how many were drawn. [self.phi]
    is assigned once in [__init__] and only read after: the constant [phi]. *)
Record State : Type := mkState {
  np_random : nat → float;
  np_drawn : nat;
  entropy_pool : list float;
  last_quantum_state : option ndarray
}.

#[local] Instance State_ret : MRet (ST State) := @ST_ret State.
#[local] Instance State_bind : MBind (ST State) := @ST_bind State.

(** [np.random.random(size)]. *)
Definition np_random_random (size : Z) : ST State (list float) := λ s,
  if size <? 0 then (Raise ValueError, s)
  else (Ok (np_random s <$> seq (np_drawn s) (Z.to_nat size)),
        mkState (np_random s) (np_drawn s + Z.to_nat size)
          (entropy_pool s) (last_quantum_state s)).

Definition set_entropy_pool (pool : list float) : ST State unit := λ s,
  (Ok (), mkState (np_random s) (np_drawn s) pool (last_quantum_state s)).

Definition set_last_quantum_state (a : option ndarray) : ST State unit := λ s,
  (Ok (), mkState (np_random s) (np_drawn s) (entropy_pool s) a).

(** [pool * self.phi % 1] on an array. *)
Definition phi_modulate (pool : list float) : list float :=
  (λ x, float_mod1 (x * phi)%float) <$> pool.

(** Initialize quantum-inspired entropy pool. *)
Definition _initialize_entropy_pool (size : Z) : ST State (list float) :=
  ST_try
    ((* Generate φ-modulated random values *)
     pool ← np_random_random size;
     let pool := phi_modulate pool in  (* Normalize to [0,1] *)
     mret pool)
    (λ _, ST_raise EntropyPoolError).

(** [QuantumFeatures(entropy_pool_size)], the size 1024 by default. *)
Definition __init__ (entropy_pool_size : option Z) : ST State unit :=
  let entropy_pool_size := default 1024 entropy_pool_size in
  pool ← _initialize_entropy_pool entropy_pool_size;
  set_entropy_pool pool;;
  set_last_quantum_state None.

(** Replenish entropy pool using φ-modulation. *)
Definition _replenish_entropy_pool : ST State unit :=
  ST_try
    (new_entropy ← np_random_random 1024;
     self ← ST_get;
     set_entropy_pool (entropy_pool self ++ phi_modulate new_entropy))
    (λ _, ST_raise EntropyPoolError).

(** Get quantum-inspired entropy from pool; [size] is 1 by default. *)
Definition get_quantum_entropy (size : option Z) : ST State (list float) :=
  let size := default 1 size in
  self ← ST_get;
  (if len (entropy_pool self) <? size then _replenish_entropy_pool else mret ());;
  self ← ST_get;
  let values := slice_to (entropy_pool self) size in
  set_entropy_pool (slice_from (entropy_pool self) size);;
  mret values.

(** Apply quantum-inspired transformation to data. *)
Definition apply_quantum_transform (data : ndarray) : ST State ndarray :=
  ST_try
    ((* φ-modulated phase transformation *)
     transformed ← ST_lift (phase_transform data);
     set_last_quantum_state (Some transformed);;
     mret transformed)
    (λ _, ST_raise PhiModulationError).

(** Generate quantum-inspired superposition states; [num_states] is 2 by
    default. *)
Definition get_superposition_state (data : ndarray) (num_states : option Z)
    : ST State (list ndarray) :=
  let num_states := default 2 num_states in
  let states := [] in
  ST_try
    (ST_for (λ (i : Z) (states : list ndarray),
       phase ← get_quantum_entropy None;
       state ← ST_lift (superpose data phase);
       mret (states ++ [state])) (range num_states) states)
    (λ _, ST_raise QuantumStateError).

End numerics.

End QuantumFeatures.

(** *** [quantum_features.py]: QuantumMetadata *)

Module QuantumMetadata.

(** The names the module binds at top level: what it imports and the two
    classes it defines. [hashlib] is not among them. *)
Definition module_globals : list string :=
  ["np"; "datetime"; "Optional"; "Tuple"; "List";
   "QuantumStateError"; "PhiModulationError"; "EntropyPoolError";
   "QuantumFeatures"; "QuantumMetadata"]%string.

(** Evaluating a global name that nothing binds raises [NameError]. *)
Definition global_name (name : string) : Result unit :=
  if decide (name ∈ module_globals) then Ok () else Raise NameError.

(** The entries of [quantum_states] and [state_transitions]. *)
Record StateEntry : Type := mkStateEntry {
  se_timestamp : string;
  state_hash : pystr;
  phi_correlation : float
}.

Record Transition : Type := mkTransition {
  tr_timestamp : string;
  from_state : pystr;
  to_state : pystr;
  transition_type : string
}.

(** The statistics dictionary of [get_phi_modulation_stats]. *)
Record Stats : Type := mkStats {
  mean : float;
  std : float;
  max : float;
  min : float
}.

(** The object's attributes, and the clock: [clock] counts the readings of
    [datetime.utcnow()] so far, each later than the one before. *)
Record State : Type := mkState {
  clock : nat;
  creation_time : string;
  quantum_states : list StateEntry;
  phi_modulation_history : list float;
  state_transitions : list Transition
}.

Section numerics.

(** Taken as given: the text of the n-th clock reading, the bytes of an
    array, SHA3-512 as a hexadecimal digest, [np.corrcoef(state.flatten(),
    np.full_like(state.flatten(), phi))[0, 1]], which returns or raises, and
    numpy's statistics of a non-empty array. *)
Context {ndarray : Type}.
Variable isoformat : nat → string.
Variable tobytes : ndarray → list Z.
Variable sha3_512_hexdigest : list Z → pystr.
Variable corrcoef_phi : ndarray → Result float.
Variable np_mean np_std np_max np_min : list float → float.

#[local] Instance State_ret : MRet (ST State) := @ST_ret State.
#[local] Instance State_bind : MBind (ST State) := @ST_bind State.

(** [datetime.utcnow().isoformat()]. *)
Definition utcnow_isoformat : ST State string := λ s,
  (Ok (isoformat (clock s)),
   mkState (S (clock s)) (creation_time s) (quantum_states s)
     (phi_modulation_history s) (state_transitions s)).

(** Assignments to the attributes. *)
Definition set_attributes (creation_time : string) (quantum_states : list StateEntry)
    (phi_modulation_history : list float) (state_transitions : list Transition)
    : ST State unit := λ s,
  (Ok (), mkState (clock s) creation_time quantum_states phi_modulation_history
            state_transitions).

Definition append_quantum_state (entry : StateEntry) : ST State unit := λ s,
  (Ok (), mkState (clock s) (creation_time s) (quantum_states s ++ [entry])
            (phi_modulation_history s) (state_transitions s)).

Definition append_phi_modulation (correlation : float) : ST State unit := λ s,
  (Ok (), mkState (clock s) (creation_time s) (quantum_states s)
            (phi_modulation_history s ++ [correlation]) (state_transitions s)).

Definition append_state_transition (entry : Transition) : ST State unit := λ s,
  (Ok (), mkState (clock s) (creation_time s) (quantum_states s)
            (phi_modulation_history s) (state_transitions s ++ [entry])).

(** [QuantumMetadata()]. *)
Definition __init__ : ST State unit :=
  now ← utcnow_isoformat;
  set_attributes now [] [] [].

(** Generate quantum-resistant hash of state. *)
Definition _hash_state (state : ndarray) : ST State pystr :=
  ST_lift (global_name "hashlib");;
  mret (sha3_512_hexdigest (tobytes state)).

(** Calculate correlation with φ. *)
Definition _calculate_phi_correlation (state : ndarray) : ST State float :=
  ST_try
    (correlation ← ST_lift (corrcoef_phi state);
     append_phi_modulation correlation;;
     mret correlation)
    (λ _, mret 0%float).

(** Classify the type of quantum state transition. *)
Definition _classify_transition (from_hash to_hash : pystr) : string :=
  (* Simple classification based on hash comparison *)
  if decide (from_hash = to_hash) then "stable"
  else if str_lt from_hash to_hash then "progressive"
  else "regressive".

(** Record quantum state transition. *)
Definition _record_state_transition (from_hash to_hash : pystr) : ST State unit :=
  now ← utcnow_isoformat;
  append_state_transition
    (mkTransition now
       (slice_to from_hash 16)  (* First 16 chars for brevity *)
       (slice_to to_hash 16)
       (_classify_transition from_hash to_hash)).

(** Record quantum state for analysis. The entry's values are evaluated in
    the order the dictionary display lists them, before [append] runs. *)
Definition record_quantum_state (state : ndarray) : ST State unit :=
  now ← utcnow_isoformat;
  h ← _hash_state state;
  c ← _calculate_phi_correlation state;
  append_quantum_state (mkStateEntry now h c);;
  (* Record state transition if previous state exists *)
  self ← ST_get;
  if 1 <? len (quantum_states self) then
    a ← ST_lift (index (quantum_states self) (-2));
    b ← ST_lift (index (quantum_states self) (-1));
    _record_state_transition (state_hash a) (state_hash b)
  else mret ().

(** Get quantum state history. *)
Definition get_state_history : ST State (list StateEntry) :=
  self ← ST_get; mret (quantum_states self).

(** Get state transition history. *)
Definition get_transition_history : ST State (list Transition) :=
  self ← ST_get; mret (state_transitions self).

(** Get φ-modulation statistics. *)
Definition get_phi_modulation_stats : ST State Stats :=
  self ← ST_get;
  match phi_modulation_history self with
  | [] => mret (mkStats 0 0 0 0)
  | history => mret (mkStats (np_mean history) (np_std history)
                       (np_max history) (np_min history))
  end.

End numerics.

End QuantumMetadata.

(** ** Specification-level definitions *)

(** What one loop iteration does to a pixel:
    [a = (a & ~1) | int(bit)] on the alpha band. *)
Definition psi_write (p : pixel) (bit : bool) : pixel :=
  match p with
  | [r; g; b; a] => [r; g; b; Z.lor (Z.land a (Z.lnot 1)) (Z.b2z bit)]
  | _ => p
  end.

(** [r = (r & ~1) | int(bit)] on the red band. *)
Definition phi_write (p : pixel) (bit : bool) : pixel :=
  match p with
  | [r; g; b] => [Z.lor (Z.land r (Z.lnot 1)) (Z.b2z bit); g; b]
  | _ => p
  end.

(** [r = (r & ~0b11) | (int(bit) << 1)] and [g = (g & ~0b1) | int(bit)]. *)
Definition tau_write (p : pixel) (bit : bool) : pixel :=
  match p with
  | [r; g; b] =>
      [Z.lor (Z.land r (Z.lnot 3)) (Z.shiftl (Z.b2z bit) 1);
       Z.lor (Z.land g (Z.lnot 1)) (Z.b2z bit); b]
  | _ => p
  end.

(** The pixel data after writing bit [j] at flat index [ks !! j], in order,
    for as long as both lists last. *)
Fixpoint write_all (f : pixel → bool → pixel) (data : list pixel)
    (ks : list nat) (bits : list bool) : list pixel :=
  match ks, bits with
  | k :: ks', b :: bits' => write_all f (alter (λ p, f p b) k data) ks' bits'
  | _, _ => data
  end.

(** Raster placement: bit [i] goes to pixel [i]; whichever list is longer
    keeps its tail unused. *)
Fixpoint overlay (f : pixel → bool → pixel) (data : list pixel)
    (bits : list bool) : list pixel :=
  match data, bits with
  | p :: data', b :: bits' => f p b :: overlay f data' bits'
  | _, _ => data
  end.

(** The common shape of the encoders' loop bodies. *)
Definition write_step (pixels : ref) (cap : Z) (target : Z → Result (Z * Z))
    (upd : pixel → ascii → Result pixel) : Z * ascii → unit → M (ctl * unit) :=
  λ '(i, bit) _,
    if i >=? cap then mret (Break, ()) else
    xy ← lift (target i);
    p ← getpixel pixels xy;
    v ← lift (upd p bit);
    putpixel pixels xy v;;
    mret (Continue, ()).

(** The world after the pixel data of the image behind [img] became [data]. *)
Definition with_data (σ : World) (img : ref) (im : Image) (data : list pixel) : World :=
  mkWorld (<[img := mkImage (im_mode im) (im_size im) data]> (images σ)) (files σ) (log σ).

(** [x, y = i % width, i // width]. *)
Definition raster_target (width : Z) (i : Z) : Result (Z * Z) :=
  x ← py_mod i width; y ← py_floordiv i width; mret (x, y).

Definition psi_upd (p : pixel) (bit : ascii) : Result pixel :=
  '(r, g, b, a) ← unpack4 p;
  v ← int_of_char bit;
  mret [r; g; b; Z.lor (Z.land a (Z.lnot 1)) v].

Definition phi_upd (p : pixel) (bit : ascii) : Result pixel :=
  '(r, g, b) ← unpack3 p;
  v ← int_of_char bit;
  mret [Z.lor (Z.land r (Z.lnot 1)) v; g; b].

Definition tau_upd (p : pixel) (bit : ascii) : Result pixel :=
  '(r, g, b) ← unpack3 p;
  v ← int_of_char bit;
  mret [Z.lor (Z.land r (Z.lnot 3)) (Z.shiftl v 1); Z.lor (Z.land g (Z.lnot 1)) v; b].

(** The binary digits [format(n, '08b')] prints for a non-negative [n]. *)
Definition digits (n : Z) : list bool :=
  bits_of (Nat.max 8 (Z.to_nat (Z.log2 n + 1))) n.

(** The payload as the encoders lay it out, most significant bit first. *)
Definition payload_bits (data_hash : pystr) : list bool :=
  mjoin ((λ c, digits (ord c)) <$> data_hash).

(** [x, y = positions[i]]. *)
Definition list_target (positions : list (Z * Z)) (i : Z) : Result (Z * Z) :=
  from_option Ok (Raise IndexError) (positions !! Z.to_nat i).

(** [positions] absent or empty: the default raster embedding. *)
Definition no_positions (positions : option (list (Z * Z))) : Prop :=
  positions = None ∨ positions = Some [].

(** The flat indices the explicit positions address. *)
Definition position_indices (size : Z * Z) (positions : list (Z * Z)) : option (list nat) :=
  mapM (pixel_index size) positions.

(** The common shape of the decoders' loops. *)
Definition read_step (pixels : ref) (g : pixel → Result (list ascii)) (y : Z)
    : Z → list ascii → M (ctl * list ascii) :=
  λ x binary_data,
    if len binary_data >=? 512 then mret (Break, binary_data) else
    p ← getpixel pixels (x, y);
    s ← lift (g p);
    mret (Continue, binary_data ++ s).

Definition read_rows (pixels : ref) (g : pixel → Result (list ascii)) (width : Z)
    : Z → list ascii → M (ctl * list ascii) :=
  λ y binary_data,
    binary_data ← for_in (read_step pixels g y) (range width) binary_data;
    mret (Continue, binary_data).

(** [int(byte, 2)]: the unsigned value of the digits, most significant first. *)
Definition bits_value (bs : list bool) : Z :=
  foldl (λ acc b, 2 * acc + Z.b2z b) 0 bs.

(** Eight digits per character, in order; a shorter last group is dropped. *)
Definition bytes_of (bits : list bool) : pystr :=
  (λ j, Z.to_N (bits_value (take 8 (drop (8 * j) bits)))) <$> seq 0 (length bits / 8).

(** The digits a decoder has collected once it has passed [k] pixels. *)
Definition bits_read (gb : list Z → bool) (data : list (list Z)) (k : nat) : list ascii :=
  bitchar <$> (gb <$> take (Nat.min 512 k) data).

(** The bit each decoder reads off a pixel: [a & 1], [r & 1], [(r >> 1) & 1]. *)
Definition alpha_lsb (p : pixel) : bool :=
  match p with [_; _; _; a] => Z.testbit a 0 | _ => false end.
Definition red_lsb (p : pixel) : bool :=
  match p with r :: _ => Z.testbit r 0 | _ => false end.
Definition red_bit1 (p : pixel) : bool :=
  match p with r :: _ => Z.testbit r 1 | _ => false end.

Definition psi_read (p : pixel) : Result (list ascii) :=
  '(_, _, _, a) ← unpack4 p; mret (str_bit (Z.land a 1)).
Definition phi_read (p : pixel) : Result (list ascii) :=
  '(r, _, _) ← unpack3 p; mret (str_bit (Z.land r 1)).
Definition tau_read (p : pixel) : Result (list ascii) :=
  '(r, _, _) ← unpack3 p; mret (str_bit (Z.land (Z.shiftr r 1) 1)).

(** The pixel format each mode's loops unpack: four bands for ψ, three for
    φ and τ. *)
Definition required_mode (m : SteganoMode) : ImageMode :=
  match m with PSI => RGBA | PHI | TAU => RGB end.

Definition pixel_write (m : SteganoMode) : pixel → bool → pixel :=
  match m with PSI => psi_write | PHI => phi_write | TAU => tau_write end.

Definition pixel_read (m : SteganoMode) : pixel → bool :=
  match m with PSI => alpha_lsb | PHI => red_lsb | TAU => red_bit1 end.

(** [new] is [old] with bit [k] set to [b] and every other bit kept. *)
Definition one_bit (old new : Z) (k : Z) (b : bool) : Prop :=
  ∀ j, 0 ≤ j → Z.testbit new j = if j =? k then b else Z.testbit old j.

(** Every character fits one byte. *)
Definition byte_str (s : pystr) : bool := forallb (λ c, (c <? 256)%N) s.

(** What a mode changes in a pixel when it writes the bit [b]. *)
Definition bit_written (m : SteganoMode) (p p' : pixel) (b : bool) : Prop :=
  match m with
  | PSI => ∃ r g bl a a', p = [r; g; bl; a] ∧ p' = [r; g; bl; a'] ∧ one_bit a a' 0 b
  | PHI => ∃ r g bl r', p = [r; g; bl] ∧ p' = [r'; g; bl] ∧ one_bit r r' 0 b
  | TAU => ∃ r g bl r' g', p = [r; g; bl] ∧ p' = [r'; g'; bl]
      ∧ (∀ j, 0 ≤ j → Z.testbit r' j
                       = if j =? 1 then b else if j =? 0 then false else Z.testbit r j)
      ∧ one_bit g g' 0 b
  end.

(** A Pillow with no converter beyond those spelled out, for the examples. *)
Definition plain_pillow : Pillow.
Proof. by refine {| converter _ _ := None |}. Defined.

(** Sample inputs. *)
Definition zeros512 : World :=
  mkWorld [mkImage RGB (512, 1) (replicate 512 [0; 0; 0])] ∅ [].

Definition red3 : World := mkWorld [mkImage RGB (1, 1) [[3; 0; 0]]] ∅ [].

Definition pair21 : Image := mkImage RGB (2, 1) [[0; 0; 0]; [0; 0; 0]].


(** [decode(encode(image, payload))] with the default placement. *)
Definition roundtrip `{!Pillow} (m : SteganoMode) (img : ref) (payload : pystr)
    : M pystr :=
  SteganoMode.encode m img payload None;; SteganoMode.decode m img.

(** A computation preserves a property of the world whatever its outcome. *)
Definition preserves {A} (I : World → Prop) (m : M A) : Prop :=
  ∀ σ r σ', m σ = (r, σ') → I σ → I σ'.


(** The world after one more record in the log. *)
Definition logged (σ : World) (msg : string) (e : option exn) : World :=
  mkWorld (images σ) (files σ) (log σ ++ [(msg, e)]).

(** The text [decode] logs for the exception it caught. *)
Definition decode_error_text (e : exn) : string :=
  match e with
  | QuantumStateError => "Quantum state error during decode: "
  | _ => "Decode error: "
  end.

(** ⌊n·φ⌋ mod 256 with the golden ratio as a real number. *)
Definition golden_mix (n : Z) : Z := ((n + Z.sqrt (5 * n * n)) `div` 2) `mod` 256.

(** [r + g + b] of an RGB pixel. *)
Definition px_sum (p : list Z) : Z :=
  match p with [r; g; b] => r + g + b | _ => 0 end.

(** The pixel at a coordinate (empty outside the image). *)
Definition pixel_at (im : Image) (xy : Z * Z) : list Z :=
  default [] (pixel_index (im_size im) xy ≫= λ k, im_data im !! k).

(** The four clamping assignments of [calculate_checksum]. *)
Definition clamp_region (size : Z * Z) (region : Z * Z * Z * Z) : Z * Z * Z * Z :=
  let '(width, height) := size in
  let '(x1, y1, x2, y2) := region in
  let x1 := Z.max 0 (Z.min x1 (width - 1)) in
  let y1 := Z.max 0 (Z.min y1 (height - 1)) in
  let x2 := Z.max x1 (Z.min x2 width) in
  let y2 := Z.max y1 (Z.min y2 height) in
  (x1, y1, x2, y2).

(** The order of the nested loops [for x ...: for y ...]. *)
Definition column_major (r : Z * Z * Z * Z) : list (Z * Z) :=
  let '(x1, y1, x2, y2) := r in
  x ← range2 x1 x2; y ← range2 y1 y2; [(x, y)].

(** The order the specification words: row by row, [x] varying fastest. *)
Definition row_major (r : Z * Z * Z * Z) : list (Z * Z) :=
  let '(x1, y1, x2, y2) := r in
  y ← range2 y1 y2; x ← range2 x1 x2; [(x, y)].

(** The checksum fold over a list of coordinates, from [c0]. *)
Definition fold_checksum (im : Image) (coords : list (Z * Z)) (c0 : Z) : Z :=
  foldl (λ c xy, golden_mix (c + px_sum (pixel_at im xy))) c0 coords.

(** [x, y = i % 50, i // 50]. *)
Definition header_target (i : Z) : Result (Z * Z) :=
  x ← py_mod i 50; y ← py_floordiv i 50; mret (x, y).

(** Sample images. *)
Definition grid22 : Image :=
  mkImage RGB (2, 2) [[1; 0; 0]; [2; 0; 0]; [3; 0; 0]; [4; 0; 0]].



Definition strip8 : Image := mkImage RGB (8, 1) (replicate 8 [255; 0; 0]).

(** What a mode's encoder may do to a pixel: ψ only to bit 0 of alpha, φ only
    to bit 0 of red, τ only to bits 0 and 1 of red and bit 0 of green. *)
Definition low_bits_only (m : SteganoMode) (p p' : pixel) : Prop :=
  match m, p, p' with
  | PSI, [r; g; b; a], [r'; g'; b'; a'] =>
      r' = r ∧ g' = g ∧ b' = b ∧ a' `div` 2 = a `div` 2
  | PHI, [r; g; b], [r'; g'; b'] =>
      r' `div` 2 = r `div` 2 ∧ g' = g ∧ b' = b
  | TAU, [r; g; b], [r'; g'; b'] =>
      r' `div` 4 = r `div` 4 ∧ g' `div` 2 = g `div` 2 ∧ b' = b
  | _, _, _ => p' = p
  end.

(** The image behind [img] has its mode and size, and its pixels are related
    one by one to those of [im]. *)
Definition related (R : pixel → pixel → Prop) (img : ref) (im : Image) (σ : World) : Prop :=
  ∃ data', images σ !! img = Some (mkImage (im_mode im) (im_size im) data')
           ∧ Forall2 R (im_data im) data'.

(** Everything but the image behind [img] is as in [σ0]; the heap may have
    grown. *)
Definition others_kept (img : ref) (σ0 σ : World) : Prop :=
  files σ = files σ0
  ∧ (length (images σ0) ≤ length (images σ))%nat
  ∧ (∀ j : nat, j ≠ img → (j < length (images σ0))%nat →
       images σ !! j = images σ0 !! j)
  ∧ log σ = log σ0.

(** The update each mode's loop applies to the pixel it read. *)
Definition mode_upd (m : SteganoMode) : pixel → ascii → Result pixel :=
  match m with PSI => psi_upd | PHI => phi_upd | TAU => tau_upd end.

(** The images a mode's decoder gets nothing from. ψ tests the mode's name;
    φ and τ test nothing and unpack three values from each pixel, which
    fails on every image whose pixels do not have three bands. *)
Definition cannot_read (m : SteganoMode) (mode : ImageMode) : Prop :=
  match m with
  | PSI => mode ≠ RGBA
  | PHI | TAU => bands mode ≠ 3%nat
  end.

(** A sample RGBA image: two pixels with alpha 255 and 254. *)
Definition alpha21 : Image := mkImage RGBA (2, 1) [[1; 2; 3; 255]; [4; 5; 6; 254]].

(** A character that UTF-8 can encode: no surrogate. *)
Definition encodable (c : N) : bool :=
  negb ((55296 <=? Z.of_N c) && (Z.of_N c <=? 57343)).

(** A lower-case hexadecimal digit. *)
Definition is_hex (c : N) : bool :=
  ((48 <=? c) && (c <=? 57) || (97 <=? c) && (c <=? 102))%N.

(** A stand-in digest for examples: 64 bytes that depend on the input. *)
Definition toy_digest (b : list Z) : list Z :=
  (λ i, (foldr Z.add 0 b + 37 * i) `mod` 256) <$> seqZ 0 64.

(** The values the pool will hand out, in order: what it holds, then the
    generator's coming outputs, φ-modulated. *)
Definition entropy_stream {ndarray} (s : @QuantumFeatures.State ndarray) (i : nat) : float :=
  match QuantumFeatures.entropy_pool s !! i with
  | Some v => v
  | None =>
      float_mod1 (QuantumFeatures.np_random s
                    (QuantumFeatures.np_drawn s
                     + (i - length (QuantumFeatures.entropy_pool s)))%nat * phi)%float
  end.

(** The 1024 values a replenishment adds. *)
Definition fresh_entropy {ndarray} (s : @QuantumFeatures.State ndarray) : list float :=
  QuantumFeatures.phi_modulate
    (QuantumFeatures.np_random s <$> seq (QuantumFeatures.np_drawn s) 1024).

(** A sample state: three values in the pool, a constant generator. *)
Definition pool3 : @QuantumFeatures.State unit :=
  QuantumFeatures.mkState (λ _, 0.25%float) 0 [0.125%float; 0.5%float; 0.75%float] None.


(** The world in which the image behind [img] is of mode [mode], with the
    same size and the same band values. *)
Definition retag (mode : ImageMode) (img : ref) (σ : World) : World :=
  mkWorld (alter (λ im, mkImage mode (im_size im) (im_data im)) img (images σ))
    (files σ) (log σ).

(** [mode] has as many bands as the image behind [img]. *)
Definition same_bands (mode : ImageMode) (img : ref) (σ : World) : Prop :=
  ∀ im, images σ !! img = Some im → bands (im_mode im) = bands mode.

(** A computation that does with the image of mode [mode] what it does with
    the image as it is. *)
Definition mode_blind {A} (mode : ImageMode) (img : ref) (m : M A) : Prop :=
  ∀ σ r σ', same_bands mode img σ → m σ = (r, σ') →
    m (retag mode img σ) = (r, retag mode img σ') ∧ same_bands mode img σ'.

(** An image in mode HSV. *)
Definition hsv21 : Image := mkImage HSV (2, 1) [[10; 20; 30]; [41; 50; 60]].

(** * Proofs *)

(** ** The monad and the generic write loop *)

Lemma for_in_ext {A S} (f g : A → S → M (ctl * S)) l s σ :
  (∀ a s σ, a ∈ l → f a s σ = g a s σ) → for_in f l s σ = for_in g l s σ.
Proof.
  revert s σ. induction l as [|a l IH]; intros s σ H; [done|].
  cbn. unfold mbind, M_bind. rewrite (H a s σ) by left.
  destruct (g a s σ) as [[[c s']|e] σ']; [|done].
  destruct c; [|done]. apply IH. intros; apply H. by right.
Qed.

Lemma with_data_id σ img im :
  images σ !! img = Some im → with_data σ img im (im_data im) = σ.
Proof.
  intros H. unfold with_data. destruct σ as [ims fs]; simpl in *.
  f_equal. apply list_insert_id. by destruct im.
Qed.

Lemma with_data_lookup σ img im data :
  images σ !! img = Some im →
  images (with_data σ img im data) !! img = Some (mkImage (im_mode im) (im_size im) data).
Proof.
  intros H. unfold with_data; simpl. apply list_lookup_insert_eq.
  by eapply lookup_lt_Some.
Qed.

Lemma with_data_twice σ img im im' d d' :
  im_mode im' = im_mode im → im_size im' = im_size im →
  with_data (with_data σ img im d) img im' d' = with_data σ img im d'.
Proof.
  intros Hm Hs. unfold with_data; simpl. rewrite Hm, Hs. f_equal.
  apply list_insert_insert_eq.
Qed.

Lemma run_bind {A B} (m : M A) (f : A → M B) σ :
  (m ≫= f) σ = match m σ with
               | (Ok a, σ') => f a σ'
               | (Raise e, σ') => (Raise e, σ')
               end.
Proof. reflexivity. Qed.

Lemma run_ret {A} (a : A) σ : (mret a : M A) σ = (Ok a, σ).
Proof. reflexivity. Qed.

Lemma run_lift {A} (r : Result A) σ : lift r σ = (r, σ).
Proof. reflexivity. Qed.

Lemma run_get_image σ img im :
  images σ !! img = Some im → get_image img σ = (Ok im, σ).
Proof. intros H. unfold get_image. by rewrite H. Qed.

Lemma run_getpixel σ img im xy k p :
  images σ !! img = Some im → pixel_index (im_size im) xy = Some k →
  im_data im !! k = Some p → getpixel img xy σ = (Ok p, σ).
Proof.
  intros H Hk Hp. unfold getpixel. rewrite run_bind, (run_get_image _ _ _ H).
  by rewrite Hk, Hp.
Qed.

Lemma run_putpixel σ img im xy k v :
  images σ !! img = Some im → pixel_index (im_size im) xy = Some k →
  length v = bands (im_mode im) →
  putpixel img xy v σ = (Ok (), with_data σ img im (<[k := v]> (im_data im))).
Proof.
  intros H Hk Hv. unfold putpixel. rewrite run_bind, (run_get_image _ _ _ H).
  by rewrite Hk, Hv, Nat.eqb_refl.
Qed.

Lemma geb_true a b : b ≤ a → (a >=? b) = true.
Proof. intros. rewrite Z.geb_leb. by apply Z.leb_le. Qed.

Lemma geb_false a b : a < b → (a >=? b) = false.
Proof. intros. rewrite Z.geb_leb. by apply Z.leb_gt. Qed.

Section write_loop.
Context (img : ref) (mode : ImageMode) (size : Z * Z).
Context (target : Z → Result (Z * Z)) (upd : pixel → ascii → Result pixel).
Context (f : pixel → bool → pixel).
Hypothesis upd_ok : ∀ p b, length p = bands mode →
  upd p (bitchar b) = Ok (f p b) ∧ length (f p b) = bands mode.

Lemma write_loop_spec (bits : list bool) : ∀ (ks : list nat) (i0 : Z) (data : list pixel) (σ : World),
  images σ !! img = Some (mkImage mode size data) →
  Forall (λ p, length p = bands mode) data →
  (∀ (j : nat) k, ks !! j = Some k →
     (k < length data)%nat ∧
     ∃ xy, target (i0 + Z.of_nat j) = Ok xy ∧ pixel_index size xy = Some k) →
  for_in (write_step img (i0 + len ks) target upd)
    (enumerate_from i0 (bitchar <$> bits)) () σ
  = (Ok (), with_data σ img (mkImage mode size data) (write_all f data ks bits)).
Proof.
  induction bits as [|b bits IH]; intros ks i0 data σ Hσ Hdata Hks.
  - cbn. destruct ks; cbn; pose proof (with_data_id _ _ _ Hσ) as E; cbn in E; by rewrite E.
  - destruct ks as [|k ks].
    + cbn [fmap list_fmap enumerate_from for_in write_all].
      rewrite run_bind. unfold write_step at 1.
      rewrite geb_true by (unfold len; cbn; lia).
      rewrite !run_ret. pose proof (with_data_id _ _ _ Hσ) as E; cbn in E; by rewrite E.
    + cbn [fmap list_fmap enumerate_from for_in write_all].
      destruct (Hks 0%nat k eq_refl) as [Hk (xy & Hxy & Hidx)].
      rewrite Z.add_0_r in Hxy.
      destruct (lookup_lt_is_Some_2 data k Hk) as [p Hp].
      assert (Hlen : length p = bands mode).
      { eapply Forall_lookup_1 in Hdata; eauto. }
      destruct (upd_ok p b Hlen) as [Hupd Hlen'].
      rewrite run_bind. unfold write_step at 1.
      rewrite geb_false by (unfold len; cbn [length]; lia).
      rewrite run_bind, run_lift, Hxy.
      rewrite run_bind, (run_getpixel _ _ _ _ _ _ Hσ Hidx Hp).
      rewrite run_bind, run_lift, Hupd.
      rewrite run_bind, (run_putpixel _ _ _ _ _ _ Hσ Hidx Hlen').
      rewrite run_ret. cbn [im_data im_mode im_size].
      set (data' := <[k := f p b]> data).
      set (σ' := with_data _ _ _ _).
      assert (Hσ' : images σ' !! img = Some (mkImage mode size data')).
      { subst σ'. by rewrite (with_data_lookup _ _ _ _ Hσ). }
      replace (i0 + len (k :: ks)) with ((i0 + 1) + len ks)
        by (unfold len; cbn [length]; lia).
      rewrite (IH ks (i0 + 1) data' σ' Hσ').
      * f_equal. subst σ'. rewrite with_data_twice by done. f_equal.
        subst data'. f_equal. rewrite list_insert_alter.
        apply list_eq; intros j. destruct (decide (j = k)) as [->|].
        -- rewrite !list_lookup_alter_eq, Hp. done.
        -- by rewrite !list_lookup_alter_ne.
      * subst data'. apply Forall_insert; auto.
      * intros j k' Hj. destruct (Hks (S j) k' Hj) as [Hk' (xy' & Hxy' & Hidx')].
        split; [subst data'; by rewrite length_insert|].
        exists xy'. split; [|done]. rewrite <- Hxy'. f_equal. lia.
Qed.
End write_loop.

(** ** Raster placement *)

Lemma int_of_char_bitchar b : int_of_char (bitchar b) = Ok (Z.b2z b).
Proof. by destruct b. Qed.

Lemma psi_upd_ok p b : length p = bands RGBA →
  psi_upd p (bitchar b) = Ok (psi_write p b) ∧ length (psi_write p b) = bands RGBA.
Proof.
  destruct p as [|r [|g [|bl [|a [|]]]]]; try done. intros _.
  unfold psi_upd. cbn. by rewrite int_of_char_bitchar.
Qed.

Lemma phi_upd_ok p b : length p = bands RGB →
  phi_upd p (bitchar b) = Ok (phi_write p b) ∧ length (phi_write p b) = bands RGB.
Proof.
  destruct p as [|r [|g [|bl [|]]]]; try done. intros _.
  unfold phi_upd. cbn. by rewrite int_of_char_bitchar.
Qed.

Lemma tau_upd_ok p b : length p = bands RGB →
  tau_upd p (bitchar b) = Ok (tau_write p b) ∧ length (tau_write p b) = bands RGB.
Proof.
  destruct p as [|r [|g [|bl [|]]]]; try done. intros _.
  unfold tau_upd. cbn. by rewrite int_of_char_bitchar.
Qed.

Lemma raster_target_ok w h i :
  0 ≤ i < w * h → 0 ≤ w →
  raster_target w i = Ok (i `mod` w, i `div` w)
  ∧ pixel_index (w, h) (i `mod` w, i `div` w) = Some (Z.to_nat i).
Proof.
  intros Hi Hw. assert (0 < w) by (destruct (decide (w = 0)); [subst; lia|lia]).
  unfold raster_target, py_mod, py_floordiv.
  replace (w =? 0) with false by (symmetry; apply Z.eqb_neq; lia).
  split; [done|]. unfold pixel_index.
  pose proof (Z.mod_pos_bound i w ltac:(lia)).
  pose proof (Z.div_mod i w ltac:(lia)).
  assert (0 ≤ i `div` w) by (apply Z.div_pos; lia).
  assert (i `div` w < h).
  { apply Z.div_lt_upper_bound; [lia|]. nia. }
  replace (i `mod` w <? 0) with false by (symmetry; apply Z.ltb_ge; lia).
  replace (i `div` w <? 0) with false by (symmetry; apply Z.ltb_ge; lia).
  replace (0 <=? i `mod` w) with true by (symmetry; apply Z.leb_le; lia).
  replace (0 <=? i `div` w) with true by (symmetry; apply Z.leb_le; lia).
  replace (i `mod` w <? w) with true by (symmetry; apply Z.ltb_lt; lia).
  replace (i `div` w <? h) with true by (symmetry; apply Z.ltb_lt; lia).
  cbn. f_equal. f_equal. lia.
Qed.

Lemma overlay_nil f data : overlay f data [] = data.
Proof. by destruct data. Qed.

Lemma write_all_seq f data : ∀ pre bits (n : nat),
  (n ≤ length data)%nat →
  write_all f (pre ++ data) (seq (length pre) n) bits
  = pre ++ overlay f data (take n bits).
Proof.
  induction data as [|p data IH]; intros pre bits n Hn.
  - cbn in Hn. replace n with 0%nat by lia. by destruct bits.
  - destruct n as [|n]; [by rewrite take_0, overlay_nil|].
    destruct bits as [|b bits]; [done|].
    cbn [length seq write_all overlay take]. cbn [length] in Hn.
    rewrite alter_app_r_alt by lia. rewrite Nat.sub_diag.
    replace (pre ++ alter (λ p0, f p0 b) 0%nat (p :: data)) with ((pre ++ [f p b]) ++ data)
      by (by rewrite <- app_assoc).
    replace (S (length pre)) with (length (pre ++ [f p b])) by (rewrite length_app; cbn; lia).
    rewrite IH by lia. by rewrite <- app_assoc.
Qed.

Lemma overlay_take f data : ∀ bits,
  overlay f data (take (length data) bits) = overlay f data bits.
Proof.
  induction data as [|p data IH]; intros bits; [done|].
  destruct bits as [|b bits]; [done|]. cbn. by rewrite IH.
Qed.

Lemma length_overlay f data : ∀ bits, length (overlay f data bits) = length data.
Proof.
  induction data as [|p data IH]; intros bits; [done|].
  destruct bits as [|b bits]; [done|]. cbn. by rewrite IH.
Qed.

Lemma overlay_lookup f data : ∀ bits (i : nat) p,
  data !! i = Some p →
  overlay f data bits !! i
  = Some (match bits !! i with Some b => f p b | None => p end).
Proof.
  induction data as [|q data IH]; intros bits i p Hp; [done|].
  destruct bits as [|b bits]; [by rewrite overlay_nil, lookup_nil|].
  destruct i as [|i]; cbn in *; [by simplify_eq|]. by apply IH.
Qed.

Lemma psi_body_ext (pixels : ref) (width height : Z) (a : Z * ascii) (s : unit) σ :
  (λ '((i, bit) : Z * ascii) (_ : unit),
       if i >=? width * height then mret (Break, ()) else
       x ← lift (py_mod i width);
       y ← lift (py_floordiv i width);
       p ← getpixel pixels (x, y);
       '(r, g, b, a) ← lift (unpack4 p);
       v ← lift (int_of_char bit);
       let a := Z.lor (Z.land a (Z.lnot 1)) v in
       putpixel pixels (x, y) [r; g; b; a];;
       mret (Continue, ())) a s σ
  = write_step pixels (width * height) (raster_target width) psi_upd a s σ.
Proof.
  destruct a as [i bit]. unfold write_step, raster_target, psi_upd.
  destruct (i >=? width * height); [done|].
  rewrite !run_bind, !run_lift.
  destruct (py_mod i width) as [x|]; [|done]. cbn.
  rewrite !run_bind, !run_lift.
  destruct (py_floordiv i width) as [y|]; [|done]. cbn.
  rewrite !run_bind.
  destruct (getpixel pixels (x, y) σ) as [[p|] σ']; [|done].
  rewrite !run_bind, !run_lift.
  destruct (unpack4 p) as [[[[r g] b] al]|]; [|done]. cbn.
  rewrite !run_bind, !run_lift.
  destruct (int_of_char bit); done.
Qed.

(** ** Payload bits and the ψ encoder *)

Section psi_encoder.

(** PIL's remaining converters are arbitrary. *)
Context {pil : Pillow}.

Lemma binary_of_bits s : binary_of s = bitchar <$> payload_bits s.
Proof.
  unfold binary_of, payload_bits. induction s as [|c s IH]; [done|].
  cbn. rewrite fmap_app. f_equal; [|done].
  unfold format_08b, digits, ord. by rewrite (proj2 (Z.ltb_ge (Z.of_N c) 0)) by lia.
Qed.

Lemma shape_ok_inv im :
  shape_ok im = true →
  0 ≤ (im_size im).1 ∧ 0 ≤ (im_size im).2
  ∧ length (im_data im) = Z.to_nat ((im_size im).1 * (im_size im).2)
  ∧ Forall (λ p, length p = bands (im_mode im)) (im_data im).
Proof.
  unfold shape_ok. destruct (im_size im) as [w h]. cbn.
  rewrite !andb_true_iff, !Z.leb_le, Nat.eqb_eq, forallb_forall.
  intros [[[Hw Hh] Hl] Hp]. repeat split; try done.
  apply Forall_forall. intros p Hin.
  specialize (Hp p (proj1 (list_elem_of_In _ _) Hin)). by apply Nat.eqb_eq.
Qed.

Lemma image_ok_shape im : image_ok im = true → shape_ok im = true.
Proof. unfold image_ok. by intros [? _]%andb_true_iff. Qed.

Lemma image_ok_bytes im :
  image_ok im = true → Forall (Forall (λ v, 0 ≤ v < 256)) (im_data im).
Proof.
  unfold image_ok. intros [_ Hp]%andb_true_iff. rewrite forallb_forall in Hp.
  apply Forall_forall. intros p Hin.
  specialize (Hp p (proj1 (list_elem_of_In _ _) Hin)). rewrite forallb_forall in Hp.
  apply Forall_forall. intros v Hv.
  specialize (Hp v (proj1 (list_elem_of_In _ _) Hv)).
  apply andb_true_iff in Hp as [H1 H2].
  apply Z.leb_le in H1. apply Z.ltb_lt in H2. lia.
Qed.

Section raster_loop.
Context (img : ref) (mode : ImageMode) (w h : Z) (data : list pixel).
Context (upd : pixel → ascii → Result pixel) (f : pixel → bool → pixel).
Hypothesis upd_ok : ∀ p b, length p = bands mode →
  upd p (bitchar b) = Ok (f p b) ∧ length (f p b) = bands mode.
Hypothesis Hw : 0 ≤ w.
Hypothesis Hh : 0 ≤ h.
Hypothesis Hlen : length data = Z.to_nat (w * h).
Hypothesis Hshape : Forall (λ p, length p = bands mode) data.

Lemma raster_loop_spec σ bits :
  images σ !! img = Some (mkImage mode (w, h) data) →
  for_in (write_step img (w * h) (raster_target w) upd)
    (enumerate (bitchar <$> bits)) () σ
  = (Ok (), with_data σ img (mkImage mode (w, h) data) (overlay f data bits)).
Proof.
  intros Hσ. unfold enumerate.
  replace (w * h) with (0 + len (seq 0 (length data)))
    by (unfold len; rewrite length_seq, Hlen; nia).
  rewrite (write_loop_spec img mode (w, h) (raster_target w) upd f upd_ok
             bits (seq 0 (length data)) 0 data σ Hσ Hshape).
  - f_equal. f_equal. rewrite (write_all_seq f data [] bits) by done.
    apply overlay_take.
  - intros j k Hj. apply lookup_seq in Hj as [-> Hj].
    rewrite Nat.add_0_l, Z.add_0_l. split; [done|].
    destruct (raster_target_ok w h (Z.of_nat j)) as [H1 H2]; [nia|done|].
    eexists. split; [exact H1|]. rewrite H2. by rewrite Nat2Z.id.
Qed.
End raster_loop.

Lemma run_try_ok {A} (body : M A) handler σ a σ' :
  body σ = (Ok a, σ') → try_except body handler σ = (Ok a, σ').
Proof. intros H. unfold try_except. by rewrite H. Qed.

Lemma run_try_raise {A} (body : M A) handler σ e σ' :
  body σ = (Raise e, σ') → try_except body handler σ = handler e σ'.
Proof. intros H. unfold try_except. by rewrite H. Qed.

Lemma encode_psi_spec σ img w h data s :
  images σ !! img = Some (mkImage RGBA (w, h) data) →
  shape_ok (mkImage RGBA (w, h) data) = true →
  SteganoMode._encode_psi img s σ
  = (Ok true, with_data σ img (mkImage RGBA (w, h) data)
                (overlay psi_write data (payload_bits s))).
Proof.
  intros Hσ Hok. apply shape_ok_inv in Hok as (Hw & Hh & Hlen & Hshape).
  cbn in Hw, Hh, Hlen, Hshape.
  unfold SteganoMode._encode_psi.
  rewrite run_bind, (run_get_image _ _ _ Hσ). cbn [im_mode].
  rewrite decide_False by (intros H; by apply H).
  rewrite run_bind, run_ret, run_bind, (run_get_image _ _ _ Hσ). cbn [im_size].
  rewrite binary_of_bits.
  apply run_try_ok. rewrite run_bind.
  erewrite for_in_ext by (intros; apply psi_body_ext).
  by rewrite (raster_loop_spec img RGBA w h data psi_upd psi_write psi_upd_ok).
Qed.

End psi_encoder.

(** ** The φ and τ encoders *)

Lemma phi_body_ext (pixels : ref) (width height : Z) (a : Z * ascii) (s : unit) σ :
  (λ '((i, bit) : Z * ascii) (_ : unit),
       if i >=? width * height then mret (Break, ()) else
       x ← lift (py_mod i width);
       y ← lift (py_floordiv i width);
       p ← getpixel pixels (x, y);
       '(r, g, b) ← lift (unpack3 p);
       v ← lift (int_of_char bit);
       let r := Z.lor (Z.land r (Z.lnot 1)) v in
       putpixel pixels (x, y) [r; g; b];;
       mret (Continue, ())) a s σ
  = write_step pixels (width * height) (raster_target width) phi_upd a s σ.
Proof.
  destruct a as [i bit]. unfold write_step, raster_target, phi_upd.
  destruct (i >=? width * height); [done|].
  rewrite !run_bind, !run_lift.
  destruct (py_mod i width) as [x|]; [|done]. cbn.
  rewrite !run_bind, !run_lift.
  destruct (py_floordiv i width) as [y|]; [|done]. cbn.
  rewrite !run_bind.
  destruct (getpixel pixels (x, y) σ) as [[p|] σ']; [|done].
  rewrite !run_bind, !run_lift.
  destruct (unpack3 p) as [[[r g] b]|]; [|done]. cbn.
  rewrite !run_bind, !run_lift.
  destruct (int_of_char bit); done.
Qed.

Lemma tau_body_ext (pixels : ref) (width height : Z) (a : Z * ascii) (s : unit) σ :
  (λ '((i, bit) : Z * ascii) (_ : unit),
       if i >=? width * height then mret (Break, ()) else
       x ← lift (py_mod i width);
       y ← lift (py_floordiv i width);
       p ← getpixel pixels (x, y);
       '(r, g, b) ← lift (unpack3 p);
       v ← lift (int_of_char bit);
       let r := Z.lor (Z.land r (Z.lnot 3)) (Z.shiftl v 1) in
       v ← lift (int_of_char bit);
       let g := Z.lor (Z.land g (Z.lnot 1)) v in
       putpixel pixels (x, y) [r; g; b];;
       mret (Continue, ())) a s σ
  = write_step pixels (width * height) (raster_target width) tau_upd a s σ.
Proof.
  destruct a as [i bit]. unfold write_step, raster_target, tau_upd.
  destruct (i >=? width * height); [done|].
  rewrite !run_bind, !run_lift.
  destruct (py_mod i width) as [x|]; [|done]. cbn.
  rewrite !run_bind, !run_lift.
  destruct (py_floordiv i width) as [y|]; [|done]. cbn.
  rewrite !run_bind.
  destruct (getpixel pixels (x, y) σ) as [[p|] σ']; [|done].
  rewrite !run_bind, !run_lift.
  destruct (unpack3 p) as [[[r g] b]|]; [|done]. cbn.
  rewrite !run_bind, !run_lift.
  destruct (int_of_char bit); [|done]. cbn.
  by rewrite !run_bind, !run_lift.
Qed.

Lemma phi_list_body_ext (pixels : ref) (positions : list (Z * Z)) (a : Z * ascii) (s : unit) σ :
  (λ '((i, bit) : Z * ascii) (_ : unit),
           if i >=? len positions then mret (Break, ()) else
           '(x, y) ← lift (from_option Ok (Raise IndexError)
                             (positions !! Z.to_nat i));
           p ← getpixel pixels (x, y);
           '(r, g, b) ← lift (unpack3 p);
           v ← lift (int_of_char bit);
           let r := Z.lor (Z.land r (Z.lnot 1)) v in
           putpixel pixels (x, y) [r; g; b];;
           mret (Continue, ())) a s σ
  = write_step pixels (len positions) (list_target positions) phi_upd a s σ.
Proof.
  destruct a as [i bit]. unfold write_step, list_target, phi_upd.
  destruct (i >=? len positions); [done|].
  rewrite !run_bind, !run_lift.
  destruct (positions !! Z.to_nat i) as [[x y]|]; [|done]. cbn.
  rewrite !run_bind.
  destruct (getpixel pixels (x, y) σ) as [[p|] σ']; [|done].
  rewrite !run_bind, !run_lift.
  destruct (unpack3 p) as [[[r g] b]|]; [|done]. cbn.
  rewrite !run_bind, !run_lift.
  destruct (int_of_char bit); done.
Qed.

Lemma encode_tau_spec σ img w h data s :
  images σ !! img = Some (mkImage RGB (w, h) data) →
  shape_ok (mkImage RGB (w, h) data) = true →
  SteganoMode._encode_tau img s σ
  = (Ok true, with_data σ img (mkImage RGB (w, h) data)
                (overlay tau_write data (payload_bits s))).
Proof.
  intros Hσ Hok. apply shape_ok_inv in Hok as (Hw & Hh & Hlen & Hshape).
  cbn in Hw, Hh, Hlen, Hshape.
  unfold SteganoMode._encode_tau.
  rewrite run_bind, (run_get_image _ _ _ Hσ). cbn [im_size].
  rewrite binary_of_bits.
  apply run_try_ok. rewrite run_bind.
  erewrite for_in_ext by (intros; apply tau_body_ext).
  by rewrite (raster_loop_spec img RGB w h data tau_upd tau_write tau_upd_ok).
Qed.

Lemma encode_phi_spec σ img w h data s positions :
  images σ !! img = Some (mkImage RGB (w, h) data) →
  shape_ok (mkImage RGB (w, h) data) = true →
  no_positions positions →
  SteganoMode._encode_phi img s positions σ
  = (Ok true, with_data σ img (mkImage RGB (w, h) data)
                (overlay phi_write data (payload_bits s))).
Proof.
  intros Hσ Hok Hpos. apply shape_ok_inv in Hok as (Hw & Hh & Hlen & Hshape).
  cbn in Hw, Hh, Hlen, Hshape.
  unfold SteganoMode._encode_phi.
  rewrite binary_of_bits.
  apply run_try_ok. rewrite run_bind.
  assert (∀ X (a : X) (g : Z * Z → list (Z * Z) → X),
            match positions with Some (p :: ps) => g p ps | _ => a end = a) as ->.
  { intros. by destruct Hpos as [-> | ->]. }
  rewrite run_bind, (run_get_image _ _ _ Hσ). cbn [im_size].
  erewrite for_in_ext by (intros; apply phi_body_ext).
  by rewrite (raster_loop_spec img RGB w h data phi_upd phi_write phi_upd_ok).
Qed.

Lemma pixel_index_lt w h xy k :
  pixel_index (w, h) xy = Some k → (k < Z.to_nat (w * h))%nat.
Proof.
  unfold pixel_index. destruct xy as [x y].
  set (x' := if x <? 0 then w + x else x).
  set (y' := if y <? 0 then h + y else y).
  destruct ((0 <=? x') && (x' <? w) && (0 <=? y') && (y' <? h)) eqn:E; [|done].
  intros [= <-]. rewrite !andb_true_iff, !Z.leb_le, !Z.ltb_lt in E. nia.
Qed.

Lemma encode_phi_positions_spec σ img w h data s positions ks :
  images σ !! img = Some (mkImage RGB (w, h) data) →
  shape_ok (mkImage RGB (w, h) data) = true →
  positions ≠ [] →
  position_indices (w, h) positions = Some ks →
  SteganoMode._encode_phi img s (Some positions) σ
  = (Ok true, with_data σ img (mkImage RGB (w, h) data)
                (write_all phi_write data ks (payload_bits s))).
Proof.
  intros Hσ Hok Hne Hks. apply shape_ok_inv in Hok as (Hw & Hh & Hlen & Hshape).
  cbn in Hw, Hh, Hlen, Hshape.
  unfold SteganoMode._encode_phi.
  rewrite binary_of_bits.
  apply run_try_ok. rewrite run_bind.
  destruct positions as [|pos0 pos']; [done|].
  erewrite for_in_ext by (intros; apply phi_list_body_ext).
  unfold position_indices in Hks. apply mapM_Some in Hks.
  unfold enumerate.
  replace (len (pos0 :: pos')) with (0 + len ks)
    by (unfold len; erewrite (Forall2_length _ (pos0 :: pos') ks) by done; lia).
  rewrite (write_loop_spec img RGB (w, h) (list_target (pos0 :: pos')) phi_upd
             phi_write phi_upd_ok _ ks 0 data σ Hσ Hshape); [done|].
  intros j k Hj. rewrite Z.add_0_l.
  destruct (Forall2_lookup_r _ _ _ _ _ Hks Hj) as (xy & Hxy & Hidx).
  split.
  - rewrite Hlen. by eapply pixel_index_lt.
  - exists xy. split; [|done]. unfold list_target. by rewrite Nat2Z.id, Hxy.
Qed.

(** ** The decoders' loops *)

Lemma bits_value_bound bs : 0 ≤ bits_value bs < 2 ^ len bs.
Proof.
  unfold bits_value, len.
  assert (∀ acc, 0 ≤ acc →
    0 ≤ foldl (λ acc b, 2 * acc + Z.b2z b) acc bs
    ∧ foldl (λ acc b, 2 * acc + Z.b2z b) acc bs - acc * 2 ^ Z.of_nat (length bs)
      < 2 ^ Z.of_nat (length bs)) as H.
  { induction bs as [|b bs IH]; intros acc Hacc; cbn [foldl length].
    - change (2 ^ Z.of_nat 0) with 1. lia.
    - destruct (IH (2 * acc + Z.b2z b)) as [H1 H2]; [destruct b; cbn; lia|].
      split; [done|]. rewrite Nat2Z.inj_succ, Z.pow_succ_r by lia.
      assert (0 < 2 ^ Z.of_nat (length bs)) by (apply Z.pow_pos_nonneg; lia).
      destruct b; cbn [Z.b2z] in *; nia. }
  destruct (H 0) as [H1 H2]; lia.
Qed.

Lemma chr_byte bs : length bs = 8%nat → chr (bits_value bs) = Ok (Z.to_N (bits_value bs)).
Proof.
  intros Hl. pose proof (bits_value_bound bs) as Hb. unfold len in Hb. rewrite Hl in Hb.
  change (2 ^ Z.of_nat 8) with 256 in Hb. unfold chr.
  by rewrite (proj2 (Z.leb_le _ _)), (proj2 (Z.ltb_lt _ _)) by lia.
Qed.

Section read_loop.
Context (img : ref) (mode : ImageMode) (w h : Z) (data : list pixel).
Context (g : pixel → Result (list ascii)) (gb : pixel → bool).
Hypothesis g_ok : ∀ p, length p = bands mode → g p = Ok [bitchar (gb p)].
Hypothesis Hw : 0 ≤ w.
Hypothesis Hh : 0 ≤ h.
Hypothesis Hlen : length data = Z.to_nat (w * h).
Hypothesis Hshape : Forall (λ p, length p = bands mode) data.
Context (σ : World).
Hypothesis Hσ : images σ !! img = Some (mkImage mode (w, h) data).

Local Abbreviation seen := (bits_read gb data).

Lemma length_bits_read k : (k ≤ length data)%nat → length (seen k) = Nat.min 512 k.
Proof. intros. unfold bits_read. rewrite !length_fmap, length_take. lia. Qed.

Lemma read_row_spec y (n : nat) : ∀ (x0 : Z),
  0 ≤ y < h → 0 ≤ x0 → x0 + Z.of_nat n ≤ w →
  for_in (read_step img g y) (seqZ x0 (Z.of_nat n)) (seen (Z.to_nat (y * w + x0))) σ
  = (Ok (seen (Z.to_nat (y * w + x0) + n)), σ).
Proof.
  induction n as [|n IH]; intros x0 Hy Hx0 Hn.
  - cbn. by rewrite Nat.add_0_r.
  - rewrite seqZ_cons by lia. cbn [for_in].
    assert (0 ≤ y * w) by (apply Z.mul_nonneg_nonneg; lia).
    assert (0 ≤ (h - y - 1) * w) by (apply Z.mul_nonneg_nonneg; lia).
    assert (y * w + x0 < w * h) by lia.
    assert (Hk : (Z.to_nat (y * w + x0) < length data)%nat) by (rewrite Hlen; lia).
    rewrite run_bind. unfold read_step at 1. unfold len.
    rewrite length_bits_read by lia.
    destruct (decide (512 ≤ Z.to_nat (y * w + x0))%nat) as [Hge|Hlt].
    + rewrite geb_true by lia. rewrite !run_ret.
      unfold bits_read. by rewrite !Nat.min_l by lia.
    + rewrite geb_false by lia.
      destruct (lookup_lt_is_Some_2 data _ Hk) as [p Hp].
      assert (Hidx : pixel_index (w, h) (x0, y) = Some (Z.to_nat (y * w + x0))).
      { unfold pixel_index.
        rewrite (proj2 (Z.ltb_ge x0 0)), (proj2 (Z.ltb_ge y 0)) by lia.
        rewrite (proj2 (Z.leb_le 0 x0)), (proj2 (Z.leb_le 0 y)) by lia.
        by rewrite (proj2 (Z.ltb_lt x0 w)), (proj2 (Z.ltb_lt y h)) by lia. }
      rewrite run_bind, (run_getpixel _ _ _ _ _ _ Hσ Hidx Hp).
      rewrite run_bind, run_lift, g_ok by (eapply Forall_lookup_1 in Hshape; eauto).
      rewrite run_ret.
      replace (seen (Z.to_nat (y * w + x0)) ++ [bitchar (gb p)])
        with (seen (Z.to_nat (y * w + (Z.succ x0)))).
      * replace (Z.pred (Z.of_nat (S n))) with (Z.of_nat n) by lia.
        rewrite IH by lia. do 3 f_equal. lia.
      * unfold bits_read.
        replace (Nat.min 512 (Z.to_nat (y * w + Z.succ x0)))
          with (S (Z.to_nat (y * w + x0))) by lia.
        replace (Nat.min 512 (Z.to_nat (y * w + x0)))
          with (Z.to_nat (y * w + x0)) by lia.
        rewrite (take_S_r _ _ _ Hp). by rewrite !fmap_app.
Qed.

Lemma read_rows_spec (m : nat) : ∀ (y0 : Z),
  0 ≤ y0 → y0 + Z.of_nat m ≤ h →
  for_in (read_rows img g w) (seqZ y0 (Z.of_nat m)) (seen (Z.to_nat (y0 * w))) σ
  = (Ok (seen (Z.to_nat ((y0 + Z.of_nat m) * w))), σ).
Proof.
  induction m as [|m IH]; intros y0 Hy0 Hm.
  - cbn. by rewrite Z.add_0_r.
  - rewrite seqZ_cons by lia. cbn [for_in].
    rewrite run_bind. unfold read_rows at 1. rewrite run_bind.
    unfold range, range2. rewrite Z.sub_0_r.
    pose proof (read_row_spec y0 (Z.to_nat w) 0) as Hrow.
    rewrite Z2Nat.id, Z.add_0_r in Hrow by lia.
    rewrite Hrow by lia. rewrite run_ret.
    replace (Z.to_nat (y0 * w) + Z.to_nat w)%nat with (Z.to_nat (Z.succ y0 * w)) by nia.
    replace (Z.pred (Z.of_nat (S m))) with (Z.of_nat m) by lia.
    rewrite IH by lia. do 3 f_equal. lia.
Qed.

Lemma read_image_spec :
  for_in (read_rows img g w) (range h) [] σ
  = (Ok (bitchar <$> (gb <$> take 512 data)), σ).
Proof.
  unfold range, range2. rewrite Z.sub_0_r.
  pose proof (read_rows_spec (Z.to_nat h) 0) as H.
  rewrite Z2Nat.id in H by lia.
  replace (Z.to_nat (0 * w)) with 0%nat in H by lia.
  change (seen 0) with (@nil ascii) in H.
  rewrite H by lia. unfold bits_read. do 3 f_equal.
  rewrite Z.add_0_l, Z.mul_comm, <- Hlen.
  destruct (decide (512 ≤ length data)%nat).
  - by rewrite Nat.min_l by lia.
  - rewrite Nat.min_r by lia. rewrite !take_ge; [done|lia..].
Qed.
End read_loop.

Lemma int_base2_bits bs :
  bs ≠ [] → int_base2 (bitchar <$> bs) = Ok (bits_value bs).
Proof.
  intros Hne. unfold int_base2, bits_value.
  destruct bs as [|b0 bs0]; [done|]. clear Hne.
  change (bitchar <$> b0 :: bs0) with (bitchar b0 :: (bitchar <$> bs0)).
  cbv beta iota. change (bitchar b0 :: (bitchar <$> bs0)) with (bitchar <$> b0 :: bs0).
  generalize (b0 :: bs0). clear. intros bs.
  generalize 0. induction bs as [|b bs IH]; intros acc; [done|].
  cbn [fmap list_fmap foldl]. destruct b; cbn [bitchar Z.b2z]; cbn [Ascii.eqb Bool.eqb];
    rewrite IH; do 2 f_equal; lia.
Qed.

Lemma slice_bits bits (j : nat) :
  slice (bitchar <$> bits) (0 + 8 * Z.of_nat j) (0 + 8 * Z.of_nat j + 8)
  = bitchar <$> take 8 (drop (8 * j) bits).
Proof.
  unfold slice. rewrite fmap_take, fmap_drop. f_equal; [lia|]. f_equal. lia.
Qed.

Lemma chars_loop_spec bits σ (m : nat) : ∀ (j0 : nat) (chars : pystr),
  (length bits / 8 ≤ j0 + m ≤ length bits / 8 + 1)%nat →
  (8 * (j0 + m) < length bits + 8)%nat →
  for_in (λ (i : Z) (chars : pystr),
    let byte := slice (bitchar <$> bits) i (i + 8) in
    if len byte =? 8
    then v ← lift (int_base2 byte);
         c ← lift (chr v);
         mret (Continue, chars ++ [c])
    else mret (Continue, chars))
    ((λ k, 0 + 8 * k) <$> seqZ (Z.of_nat j0) (Z.of_nat m)) chars σ
  = (Ok (chars ++ ((λ j, Z.to_N (bits_value (take 8 (drop (8 * j) bits))))
                     <$> seq j0 (length bits / 8 - j0))), σ).
Proof.
  pose proof (Nat.div_mod_eq (length bits) 8) as Hdm.
  pose proof (Nat.mod_upper_bound (length bits) 8 ltac:(lia)) as Hmod.
  induction m as [|m IH]; intros j0 chars Hq Hc.
  - replace (length bits / 8 - j0)%nat with 0%nat by lia.
    cbn [seq fmap list_fmap]. rewrite app_nil_r. done.
  - rewrite seqZ_cons by lia. cbn [fmap list_fmap for_in].
    rewrite run_bind. cbv zeta. rewrite slice_bits.
    unfold len. rewrite length_fmap, length_take, length_drop.
    replace (Z.pred (Z.of_nat (S m))) with (Z.of_nat m) by lia.
    replace (Z.succ (Z.of_nat j0)) with (Z.of_nat (S j0)) by lia.
    destruct (decide (j0 < length bits / 8)%nat) as [Hlt|Hge].
    + rewrite (proj2 (Z.eqb_eq _ 8)) by lia.
      rewrite run_bind, run_lift, int_base2_bits.
      2:{ intros E. apply (f_equal length) in E. rewrite length_take, length_drop in E.
          change (length (@nil bool)) with 0%nat in E. lia. }
      rewrite run_bind, run_lift, chr_byte by (rewrite length_take, length_drop; lia).
      rewrite run_ret. rewrite IH by lia.
      replace (length bits / 8 - j0)%nat with (S (length bits / 8 - S j0)) by lia.
      cbn [seq fmap list_fmap]. by rewrite <- app_assoc.
    + rewrite (proj2 (Z.eqb_neq _ 8)) by lia.
      rewrite run_ret. rewrite IH by lia.
      replace (length bits / 8 - j0)%nat with 0%nat by lia.
      by replace (length bits / 8 - S j0)%nat with 0%nat by lia.
Qed.

Lemma chars_of_binary_spec bits σ :
  SteganoMode.chars_of_binary (bitchar <$> bits) σ = (Ok (bytes_of bits), σ).
Proof.
  unfold SteganoMode.chars_of_binary, range3, len. rewrite length_fmap.
  pose proof (Nat.div_mod_eq (length bits) 8) as Hdm.
  pose proof (Nat.mod_upper_bound (length bits) 8 ltac:(lia)) as Hmod.
  set (c := (Z.of_nat (length bits) - 0 + 8 - 1) `div` 8).
  assert (Hc : 0 ≤ c ∧ 8 * c ≤ Z.of_nat (length bits) + 7 < 8 * c + 8).
  { subst c. pose proof (Z.div_mod (Z.of_nat (length bits) - 0 + 8 - 1) 8 ltac:(lia)).
    pose proof (Z.mod_pos_bound (Z.of_nat (length bits) - 0 + 8 - 1) 8 ltac:(lia)).
    split; [apply Z.div_pos; lia|lia]. }
  pose proof (chars_loop_spec bits σ (Z.to_nat c) 0 [] ltac:(lia) ltac:(lia)) as H.
  rewrite Z2Nat.id in H by lia. change (Z.of_nat 0) with 0 in H.
  rewrite Nat.sub_0_r in H. exact H.
Qed.

(** ** The three decoders *)

Lemma land_1 a : Z.land a 1 = Z.b2z (Z.testbit a 0).
Proof.
  change 1 with (Z.ones 1). rewrite Z.land_ones by lia.
  change (2 ^ 1) with 2. symmetry. apply Z.bit0_mod.
Qed.

Lemma str_bit_land a : str_bit (Z.land a 1) = [bitchar (Z.testbit a 0)].
Proof. rewrite land_1. unfold str_bit. by destruct (Z.testbit a 0). Qed.

Lemma psi_read_ok p : length p = bands RGBA → psi_read p = Ok [bitchar (alpha_lsb p)].
Proof.
  destruct p as [|r [|g [|bl [|a [|]]]]]; try done. intros _.
  unfold psi_read. cbn. by rewrite str_bit_land.
Qed.

Lemma phi_read_ok p : length p = bands RGB → phi_read p = Ok [bitchar (red_lsb p)].
Proof.
  destruct p as [|r [|g [|bl [|]]]]; try done. intros _.
  unfold phi_read. cbn. by rewrite str_bit_land.
Qed.

Lemma tau_read_ok p : length p = bands RGB → tau_read p = Ok [bitchar (red_bit1 p)].
Proof.
  destruct p as [|r [|g [|bl [|]]]]; try done. intros _.
  unfold tau_read. cbn - [Z.shiftr]. rewrite str_bit_land.
  by rewrite Z.shiftr_spec by lia.
Qed.

Lemma psi_rows_ext (pixels : ref) (width : Z) (y : Z) (s : list ascii) σ :
  (λ (y : Z) (binary_data : list ascii),
       binary_data ← for_in (λ (x : Z) (binary_data : list ascii),
         if len binary_data >=? 512 then mret (Break, binary_data) else
         p ← getpixel pixels (x, y);
         '(_, _, _, a) ← lift (unpack4 p);
         mret (Continue, binary_data ++ str_bit (Z.land a 1)))
         (range width) binary_data;
       mret (Continue, binary_data)) y s σ
  = read_rows pixels psi_read width y s σ.
Proof.
  unfold read_rows. cbv beta. rewrite !run_bind.
  erewrite for_in_ext; [done|]. intros x bd σ0 _.
  unfold read_step, psi_read. destruct (len bd >=? 512); [done|].
  rewrite !run_bind. destruct (getpixel pixels (x, y) σ0) as [[p|] σ']; [|done].
  rewrite !run_bind, !run_lift.
  destruct (unpack4 p) as [[[[r g] b] al]|]; done.
Qed.

Lemma phi_rows_ext (pixels : ref) (width : Z) (y : Z) (s : list ascii) σ :
  (λ (y : Z) (binary_data : list ascii),
       binary_data ← for_in (λ (x : Z) (binary_data : list ascii),
         if len binary_data >=? 512 then mret (Break, binary_data) else
         p ← getpixel pixels (x, y);
         '(r, _, _) ← lift (unpack3 p);
         mret (Continue, binary_data ++ str_bit (Z.land r 1)))
         (range width) binary_data;
       mret (Continue, binary_data)) y s σ
  = read_rows pixels phi_read width y s σ.
Proof.
  unfold read_rows. cbv beta. rewrite !run_bind.
  erewrite for_in_ext; [done|]. intros x bd σ0 _.
  unfold read_step, phi_read. destruct (len bd >=? 512); [done|].
  rewrite !run_bind. destruct (getpixel pixels (x, y) σ0) as [[p|] σ']; [|done].
  rewrite !run_bind, !run_lift.
  destruct (unpack3 p) as [[[r g] b]|]; done.
Qed.

Lemma tau_rows_ext (pixels : ref) (width : Z) (y : Z) (s : list ascii) σ :
  (λ (y : Z) (binary_data : list ascii),
       binary_data ← for_in (λ (x : Z) (binary_data : list ascii),
         if len binary_data >=? 512 then mret (Break, binary_data) else
         p ← getpixel pixels (x, y);
         '(r, _, _) ← lift (unpack3 p);
         mret (Continue, binary_data ++ str_bit (Z.land (Z.shiftr r 1) 1)))
         (range width) binary_data;
       mret (Continue, binary_data)) y s σ
  = read_rows pixels tau_read width y s σ.
Proof.
  unfold read_rows. cbv beta. rewrite !run_bind.
  erewrite for_in_ext; [done|]. intros x bd σ0 _.
  unfold read_step, tau_read. destruct (len bd >=? 512); [done|].
  rewrite !run_bind. destruct (getpixel pixels (x, y) σ0) as [[p|] σ']; [|done].
  rewrite !run_bind, !run_lift.
  destruct (unpack3 p) as [[[r g] b]|]; done.
Qed.

Lemma decode_psi_spec σ img w h data :
  images σ !! img = Some (mkImage RGBA (w, h) data) →
  shape_ok (mkImage RGBA (w, h) data) = true →
  SteganoMode._decode_psi img σ = (Ok (bytes_of (alpha_lsb <$> take 512 data)), σ).
Proof.
  intros Hσ Hok. apply shape_ok_inv in Hok as (Hw & Hh & Hlen & Hshape).
  cbn in Hw, Hh, Hlen, Hshape.
  unfold SteganoMode._decode_psi.
  rewrite run_bind, (run_get_image _ _ _ Hσ). cbn [im_mode im_size].
  rewrite decide_False by (intros H; by apply H).
  apply run_try_ok. rewrite run_bind.
  erewrite for_in_ext by (intros; apply psi_rows_ext).
  rewrite (read_image_spec img RGBA w h data psi_read alpha_lsb psi_read_ok) by done.
  apply chars_of_binary_spec.
Qed.

Lemma decode_phi_spec σ img w h data :
  images σ !! img = Some (mkImage RGB (w, h) data) →
  shape_ok (mkImage RGB (w, h) data) = true →
  SteganoMode._decode_phi img σ = (Ok (bytes_of (red_lsb <$> take 512 data)), σ).
Proof.
  intros Hσ Hok. apply shape_ok_inv in Hok as (Hw & Hh & Hlen & Hshape).
  cbn in Hw, Hh, Hlen, Hshape.
  unfold SteganoMode._decode_phi.
  rewrite run_bind, (run_get_image _ _ _ Hσ). cbn [im_mode im_size].
  apply run_try_ok. rewrite run_bind.
  erewrite for_in_ext by (intros; apply phi_rows_ext).
  rewrite (read_image_spec img RGB w h data phi_read red_lsb phi_read_ok) by done.
  apply chars_of_binary_spec.
Qed.

Lemma decode_tau_spec σ img w h data :
  images σ !! img = Some (mkImage RGB (w, h) data) →
  shape_ok (mkImage RGB (w, h) data) = true →
  SteganoMode._decode_tau img σ = (Ok (bytes_of (red_bit1 <$> take 512 data)), σ).
Proof.
  intros Hσ Hok. apply shape_ok_inv in Hok as (Hw & Hh & Hlen & Hshape).
  cbn in Hw, Hh, Hlen, Hshape.
  unfold SteganoMode._decode_tau.
  rewrite run_bind, (run_get_image _ _ _ Hσ). cbn [im_mode im_size].
  apply run_try_ok. rewrite run_bind.
  erewrite for_in_ext by (intros; apply tau_rows_ext).
  rewrite (read_image_spec img RGB w h data tau_read red_bit1 tau_read_ok) by done.
  apply chars_of_binary_spec.
Qed.

(** ** Bits written and read back *)

Section bits.

(** PIL's remaining converters are arbitrary. *)
Context {pil : Pillow}.

Lemma testbit_b2z b k : 0 ≤ k → Z.testbit (Z.b2z b) k = b && (k =? 0).
Proof.
  intros Hk. destruct b; cbn [Z.b2z andb]; [|apply Z.bits_0].
  destruct k as [|k|k]; [done| |lia]. by destruct k.
Qed.

Lemma testbit_lnot_1 k : 0 ≤ k → Z.testbit (Z.lnot 1) k = negb (k =? 0).
Proof.
  intros Hk. rewrite Z.lnot_spec by done.
  change 1 with (Z.b2z true). by rewrite testbit_b2z.
Qed.

Lemma testbit_lnot_3 k : 0 ≤ k → Z.testbit (Z.lnot 3) k = negb (k <? 2).
Proof.
  intros Hk. rewrite Z.lnot_spec by done. f_equal.
  change 3 with (Z.ones 2). destruct (Z.ltb_spec k 2).
  - apply Z.ones_spec_low. lia.
  - apply Z.ones_spec_high. lia.
Qed.

Lemma write_lsb_spec a b : one_bit a (Z.lor (Z.land a (Z.lnot 1)) (Z.b2z b)) 0 b.
Proof.
  intros j Hj. rewrite Z.lor_spec, Z.land_spec, testbit_lnot_1, testbit_b2z by done.
  destruct (j =? 0); cbn; [by rewrite andb_false_r, andb_true_r|].
  by rewrite andb_true_r, andb_false_r, orb_false_r.
Qed.

Lemma write_bit1_spec r b j :
  0 ≤ j →
  Z.testbit (Z.lor (Z.land r (Z.lnot 3)) (Z.shiftl (Z.b2z b) 1)) j
  = if j =? 1 then b else if j =? 0 then false else Z.testbit r j.
Proof.
  intros Hj. rewrite Z.lor_spec, Z.land_spec, testbit_lnot_3, Z.shiftl_spec by done.
  destruct (Z.eqb_spec j 1) as [->|H1].
  { change (1 - 1) with 0. rewrite Z.b2z_bit0. change (1 <? 2) with true.
    cbn [negb]. by rewrite andb_false_r. }
  destruct (Z.eqb_spec j 0) as [->|H0].
  { rewrite (Z.testbit_neg_r (Z.b2z b) (0 - 1)) by lia. change (0 <? 2) with true.
    cbn [negb]. by rewrite andb_false_r. }
  rewrite (proj2 (Z.ltb_ge j 2)) by lia. rewrite testbit_b2z by lia.
  rewrite (proj2 (Z.eqb_neq (j - 1) 0)) by lia.
  by rewrite andb_true_r, andb_false_r, orb_false_r.
Qed.

Lemma pixel_write_length m p b :
  length p = bands (required_mode m) →
  length (pixel_write m p b) = bands (required_mode m).
Proof.
  destruct m; cbn.
  - destruct p as [|r [|g [|bl [|a [|]]]]]; done.
  - destruct p as [|r [|g [|bl [|]]]]; done.
  - destruct p as [|r [|g [|bl [|]]]]; done.
Qed.

Lemma pixel_read_write m p b :
  length p = bands (required_mode m) → pixel_read m (pixel_write m p b) = b.
Proof.
  destruct m; cbn.
  - destruct p as [|r [|g [|bl [|a [|]]]]]; try done. intros _.
    exact (write_lsb_spec a b 0 ltac:(lia)).
  - destruct p as [|r [|g [|bl [|]]]]; try done. intros _.
    exact (write_lsb_spec r b 0 ltac:(lia)).
  - destruct p as [|r [|g [|bl [|]]]]; try done. intros _.
    exact (write_bit1_spec r b 1 ltac:(lia)).
Qed.

Lemma encode_spec m σ img im s positions :
  images σ !! img = Some im →
  shape_ok im = true →
  im_mode im = required_mode m →
  no_positions positions →
  SteganoMode.encode m img s positions σ
  = (Ok true, with_data σ img im (overlay (pixel_write m) (im_data im) (payload_bits s))).
Proof.
  destruct im as [mode [w h] data]. cbn [im_mode im_data]. intros Hσ Hok -> Hpos.
  destruct m; cbn [SteganoMode.encode required_mode pixel_write] in *.
  - by apply encode_psi_spec.
  - by apply encode_phi_spec.
  - by apply encode_tau_spec.
Qed.

Lemma decode_spec m σ img im :
  images σ !! img = Some im →
  shape_ok im = true →
  im_mode im = required_mode m →
  SteganoMode.decode m img σ
  = (Ok (bytes_of (pixel_read m <$> take 512 (im_data im))), σ).
Proof.
  destruct im as [mode [w h] data]. cbn [im_mode im_data]. intros Hσ Hok ->.
  destruct m; cbn [SteganoMode.decode required_mode pixel_read] in *.
  - by apply (decode_psi_spec _ _ w h).
  - by apply (decode_phi_spec _ _ w h).
  - by apply (decode_tau_spec _ _ w h).
Qed.

Lemma shape_ok_overlay m mode size data bits :
  mode = required_mode m →
  shape_ok (mkImage mode size data) = true →
  shape_ok (mkImage mode size (overlay (pixel_write m) data bits)) = true.
Proof.
  intros ->. unfold shape_ok. cbn [im_mode im_size im_data]. destruct size as [w h].
  rewrite !andb_true_iff, !forallb_forall, length_overlay.
  intros [H Hp]. split; [done|]. clear H.
  revert bits. induction data as [|p data IH]; intros bits q Hq; [done|].
  destruct bits as [|b bits]; [by apply Hp|].
  cbn [overlay] in Hq. destruct Hq as [<-|Hq].
  - apply Nat.eqb_eq, pixel_write_length, Nat.eqb_eq, Hp. by left.
  - eapply IH; [|done]. intros x Hx. apply Hp. by right.
Qed.

Lemma read_overlay m : ∀ bits (n : nat) data,
  Forall (λ p, length p = bands (required_mode m)) data →
  (length bits ≤ n)%nat → (length bits ≤ length data)%nat →
  pixel_read m <$> take n (overlay (pixel_write m) data bits)
  = bits ++ (pixel_read m <$> take (n - length bits) (drop (length bits) data)).
Proof.
  induction bits as [|b bits IH]; intros n data Hd Hn Hl.
  - rewrite overlay_nil. cbn. by rewrite Nat.sub_0_r.
  - destruct data as [|p data]; [cbn in Hl; lia|].
    destruct n as [|n]; [cbn in Hn; lia|].
    apply Forall_cons in Hd as [Hp Hd]. cbn in Hn, Hl.
    cbn [overlay take fmap list_fmap length drop app Nat.sub].
    rewrite pixel_read_write by done. f_equal.
    apply IH; [done|lia..].
Qed.

Lemma bytes_of_app8 chunk tl :
  length chunk = 8%nat →
  bytes_of (chunk ++ tl) = Z.to_N (bits_value chunk) :: bytes_of tl.
Proof.
  intros Hl. unfold bytes_of. rewrite length_app, Hl.
  replace ((8 + length tl) / 8)%nat with (S (length tl / 8)).
  2:{ pose proof (Nat.div_mod_eq (length tl) 8).
      pose proof (Nat.mod_upper_bound (length tl) 8 ltac:(lia)).
      apply (Nat.div_unique _ 8 _ (length tl `mod` 8)); lia. }
  cbn [seq fmap list_fmap]. f_equal.
  - rewrite Nat.mul_0_r, drop_0, take_app_length'; done.
  - rewrite <- fmap_S_seq, <- list_fmap_compose. apply list_fmap_ext.
    intros _ j _. unfold compose.
    replace (8 * S j)%nat with (length chunk + 8 * j)%nat by lia.
    by rewrite drop_app_add.
Qed.

Lemma byte_digits_all :
  forallb (λ c : N, bool_decide (digits (ord c) = bits_of 8 (ord c)
                                 ∧ length (bits_of 8 (ord c)) = 8%nat
                                 ∧ Z.to_N (bits_value (bits_of 8 (ord c))) = c))
    (N.of_nat <$> seq 0 256) = true.
Proof. vm_compute. reflexivity. Qed.

Lemma byte_digits c :
  (c < 256)%N →
  digits (ord c) = bits_of 8 (ord c)
  ∧ length (bits_of 8 (ord c)) = 8%nat
  ∧ Z.to_N (bits_value (bits_of 8 (ord c))) = c.
Proof.
  intros Hc. pose proof byte_digits_all as H. rewrite forallb_forall in H.
  specialize (H c). rewrite bool_decide_eq_true in H. apply H.
  apply list_elem_of_In, list_elem_of_fmap. exists (N.to_nat c).
  split; [lia|]. apply elem_of_seq. lia.
Qed.

Lemma payload_bits_cons c s :
  payload_bits (c :: s) = digits (ord c) ++ payload_bits s.
Proof. done. Qed.

Lemma length_payload_bits s :
  byte_str s = true → length (payload_bits s) = (8 * length s)%nat.
Proof.
  intros H. induction s as [|c s IH]; [done|].
  unfold byte_str in *. cbn [forallb] in H. apply andb_true_iff in H as [Hc Hs].
  apply N.ltb_lt in Hc. destruct (byte_digits c Hc) as (Hd & Hl & _).
  rewrite payload_bits_cons, length_app, Hd, Hl, (IH Hs). cbn [length]. lia.
Qed.

Lemma bytes_of_payload s rest :
  byte_str s = true → bytes_of (payload_bits s ++ rest) = s ++ bytes_of rest.
Proof.
  intros H. induction s as [|c s IH]; [done|].
  unfold byte_str in *. cbn [forallb] in H. apply andb_true_iff in H as [Hc Hs].
  apply N.ltb_lt in Hc. destruct (byte_digits c Hc) as (Hd & Hl & Hv).
  rewrite payload_bits_cons, Hd, <- app_assoc, bytes_of_app8, Hv, (IH Hs) by done.
  done.
Qed.

Lemma length_bytes_of bits : length (bytes_of bits) = (length bits / 8)%nat.
Proof. unfold bytes_of. by rewrite length_fmap, length_seq. Qed.

End bits.

(** ** Explicit positions *)

Lemma pixel_write_bit m p b :
  length p = bands (required_mode m) → bit_written m p (pixel_write m p b) b.
Proof.
  destruct m; cbn.
  - destruct p as [|r [|g [|bl [|a [|]]]]]; try done. intros _.
    eexists _, _, _, _, _. split; [done|]. split; [done|]. apply write_lsb_spec.
  - destruct p as [|r [|g [|bl [|]]]]; try done. intros _.
    eexists _, _, _, _. split; [done|]. split; [done|]. apply write_lsb_spec.
  - destruct p as [|r [|g [|bl [|]]]]; try done. intros _.
    eexists _, _, _, _, _. split; [done|]. split; [done|].
    split; [apply write_bit1_spec|apply write_lsb_spec].
Qed.



Lemma write_all_untouched f : ∀ ks data bits (k : nat),
  k ∉ take (length bits) ks → write_all f data ks bits !! k = data !! k.
Proof.
  induction ks as [|k0 ks IH]; intros data bits k Hk; [done|].
  destruct bits as [|b bits]; [done|]. cbn in *.
  apply not_elem_of_cons in Hk as [Hne Hk].
  rewrite IH by done. by apply list_lookup_alter_ne.
Qed.

Lemma write_all_written f : ∀ ks data bits (j k : nat) b p,
  NoDup ks → ks !! j = Some k → bits !! j = Some b → data !! k = Some p →
  write_all f data ks bits !! k = Some (f p b).
Proof.
  induction ks as [|k0 ks IH]; intros data bits j k b p Hnd Hj Hb Hp; [done|].
  destruct bits as [|b0 bits]; [done|]. apply NoDup_cons in Hnd as [Hk0 Hnd].
  destruct j as [|j]; cbn in *.
  - simplify_eq. rewrite write_all_untouched.
    + by rewrite list_lookup_alter_eq, Hp.
    + intros Hin. apply Hk0. apply elem_of_take in Hin as (i & Hi & _).
      by eapply list_elem_of_lookup_2.
  - eapply IH; eauto. rewrite list_lookup_alter_ne; [done|].
    intros ->. apply Hk0. by eapply list_elem_of_lookup_2.
Qed.

(** ** Claims about the modes *)

Section modes.

(** PIL's remaining converters are arbitrary. *)
Context {pil : Pillow}.

(** C1 (amended): for every image stored in the pixel format its mode works on
    (RGBA for ψ, RGB for φ and τ) with at least 512 pixels, and every payload
    of at most 64 characters, each a single byte, decoding what encode wrote
    returns 64 characters that begin with the payload; when the payload has
    exactly 64 characters the result is the payload itself. *)
Theorem roundtrip_recovers_payload m σ img im s :
  images σ !! img = Some im →
  image_ok im = true →
  im_mode im = required_mode m →
  512 ≤ (im_size im).1 * (im_size im).2 →
  (length s ≤ 64)%nat →
  byte_str s = true →
  ∃ t σ', roundtrip m img s σ = (Ok t, σ')
    ∧ length t = 64%nat
    ∧ take (length s) t = s
    ∧ (length s = 64%nat → t = s).
Proof.
  intros Hσ Hok Hm Hcap Hlen Hs.
  pose proof (image_ok_shape _ Hok) as Hsh.
  pose proof (shape_ok_inv _ Hsh) as (Hw & Hh & Hl & Hshape).
  unfold roundtrip. rewrite run_bind, (encode_spec m σ img im s None Hσ Hsh Hm) by by left.
  set (data' := overlay _ _ _). set (σ' := with_data _ _ _ _).
  assert (Hσ' : images σ' !! img = Some (mkImage (im_mode im) (im_size im) data'))
    by by apply with_data_lookup.
  rewrite (decode_spec m σ' img _ Hσ'); [|by apply shape_ok_overlay; destruct im|done].
  cbn [im_data]. subst data'.
  pose proof (length_payload_bits s Hs) as Hbits.
  rewrite Hm in Hshape.
  assert (Hdata : (512 ≤ length (im_data im))%nat) by (rewrite Hl; lia).
  rewrite (read_overlay m _ 512 _ Hshape) by (rewrite Hbits; first [lia | etrans; [|exact Hdata]; lia]).
  rewrite bytes_of_payload by done.
  set (rest := pixel_read m <$> _).
  assert (Hrest : length (bytes_of rest) = (64 - length s)%nat).
  { rewrite length_bytes_of. subst rest.
    rewrite length_fmap, length_take, length_drop, Hbits.
    replace ((512 - 8 * length s) `min` (length (im_data im) - 8 * length s))%nat
      with (8 * (64 - length s))%nat by lia.
    rewrite Nat.mul_comm. apply Nat.div_mul. lia. }
  eexists _, _. split; [done|]. split; [rewrite length_app; lia|].
  split; [by rewrite take_app_length|].
  intros E. rewrite E in Hrest. destruct (bytes_of rest); [|done].
  by rewrite app_nil_r.
Qed.

(** C3 (amended): on an image in the mode's pixel format, encode turns the
    pixel that receives payload bit [b] into one that differs only as
    follows: ψ sets bit 0 of alpha to [b]; φ sets bit 0 of red to [b]; τ sets
    bit 1 of red to [b] and clears bit 0 of red, and sets bit 0 of green to
    [b]. Every other bit of those bands and every other band is unchanged.
    This holds for raster placement in all three modes and for φ with an
    explicit list of distinct in-range positions. *)
Theorem encode_bit_placement m σ img im s :
  images σ !! img = Some im →
  image_ok im = true →
  im_mode im = required_mode m →
  (∀ positions (i : nat) p b,
     no_positions positions →
     im_data im !! i = Some p →
     payload_bits s !! i = Some b →
     ∃ σ' im' p', SteganoMode.encode m img s positions σ = (Ok true, σ')
       ∧ images σ' !! img = Some im'
       ∧ im_data im' !! i = Some p'
       ∧ bit_written m p p' b)
  ∧ (∀ positions ks (j k : nat) p b,
       m = PHI →
       position_indices (im_size im) positions = Some ks →
       NoDup ks →
       ks !! j = Some k →
       im_data im !! k = Some p →
       payload_bits s !! j = Some b →
       ∃ σ' im' p', SteganoMode.encode m img s (Some positions) σ = (Ok true, σ')
         ∧ images σ' !! img = Some im'
         ∧ im_data im' !! k = Some p'
         ∧ bit_written m p p' b).
Proof.
  intros Hσ Hok Hm.
  pose proof (image_ok_shape _ Hok) as Hsh.
  pose proof (shape_ok_inv _ Hsh) as (Hw & Hh & Hl & Hshape).
  split.
  - intros positions i p b Hpos Hp Hb.
    rewrite (encode_spec m σ img im s positions Hσ Hsh Hm Hpos).
    eexists _, _, _. split; [done|]. split; [by apply with_data_lookup|].
    cbn [im_data]. split.
    + rewrite (overlay_lookup _ _ _ _ _ Hp). by rewrite Hb.
    + apply pixel_write_bit. rewrite <- Hm. by eapply Forall_lookup_1 in Hshape.
  - intros positions ks j k p b -> Hks Hnd Hj Hp Hb.
    destruct im as [mode [w h] data].
    cbn [im_mode im_size im_data required_mode] in *. subst mode.
    assert (Hne : positions ≠ []).
    { intros ->. unfold position_indices in Hks. cbn in Hks.
      injection Hks as <-. by rewrite lookup_nil in Hj. }
    cbn [SteganoMode.encode].
    rewrite (encode_phi_positions_spec σ img w h data s positions ks Hσ Hsh Hne Hks).
    eexists _, _, _. split; [done|]. split; [by apply with_data_lookup|].
    cbn [im_data]. split; [by eapply write_all_written|].
    apply (pixel_write_bit PHI). by eapply Forall_lookup_1 in Hshape.
Qed.


(** C5: on an RGB image, φ and τ decoding reads one bit from each of the first
    [min 512 (width × height)] pixels in raster order (bit 0 of red for φ, bit
    1 of red for τ) and returns one character per complete group of eight
    bits, character [j] being the value of bits [8j .. 8j+7] most significant
    first; a shorter last group gives no character, and 512 or more pixels
    give exactly 64 characters. The image is not changed. *)
Theorem decode_reads_raster_bytes m σ img im :
  m ≠ PSI →
  images σ !! img = Some im →
  image_ok im = true →
  im_mode im = RGB →
  let bits := pixel_read m <$> take 512 (im_data im) in
  ∃ t, SteganoMode.decode m img σ = (Ok t, σ)
    ∧ length bits = Nat.min 512 (length (im_data im))
    ∧ length t = (length bits / 8)%nat
    ∧ (∀ j : nat, (j < length bits / 8)%nat →
         t !! j = Some (Z.to_N (bits_value (take 8 (drop (8 * j) bits)))))
    ∧ (512 ≤ (im_size im).1 * (im_size im).2 → length t = 64%nat).
Proof.
  intros Hm Hσ Hok Hmode bits.
  pose proof (image_ok_shape _ Hok) as Hsh.
  pose proof (shape_ok_inv _ Hsh) as (Hw & Hh & Hl & Hshape).
  assert (Hreq : im_mode im = required_mode m) by (by destruct m).
  rewrite (decode_spec m σ img im Hσ Hsh Hreq). fold bits.
  assert (Hbits : length bits = Nat.min 512 (length (im_data im)))
    by (subst bits; by rewrite length_fmap, length_take).
  exists (bytes_of bits). split; [done|]. split; [done|].
  split; [apply length_bytes_of|]. split.
  - intros j Hj. unfold bytes_of at 1. rewrite list_lookup_fmap.
    by rewrite lookup_seq_lt by done.
  - intros Hcap. rewrite length_bytes_of, Hbits, Nat.min_l by lia. done.
Qed.

(** How [bits_value] weighs eight bits. *)
Example bits_value_msb_first (b0 b1 b2 b3 b4 b5 b6 b7 : bool) :
  bits_value [b0; b1; b2; b3; b4; b5; b6; b7]
  = 128 * Z.b2z b0 + 64 * Z.b2z b1 + 32 * Z.b2z b2 + 16 * Z.b2z b3
    + 8 * Z.b2z b4 + 4 * Z.b2z b5 + 2 * Z.b2z b6 + Z.b2z b7.
Proof. unfold bits_value. cbn [foldl]. lia. Qed.

End modes.

Section modes_examples.

(** Examples run with the converters spelled out in [pil_converter]. *)
#[local] Existing Instance plain_pillow.

Lemma roundtrip_recovers_payload_witness :
  ∃ t σ', roundtrip PHI 0%nat [65%N; 66%N] zeros512 = (Ok t, σ')
    ∧ length t = 64%nat
    ∧ take 2 t = [65%N; 66%N]
    ∧ (2%nat = 64%nat → t = [65%N; 66%N]).
Proof.
  apply (roundtrip_recovers_payload PHI zeros512 0%nat
           (mkImage RGB (512, 1) (replicate 512 [0; 0; 0])) [65%N; 66%N]).
  - reflexivity.
  - vm_compute; reflexivity.
  - reflexivity.
  - cbn; lia.
  - cbn; lia.
  - reflexivity.
Defined.

(** C1 as stated fails: on a 512-pixel RGB image the one-character payload
    "A" under φ comes back as "A" followed by 63 NUL characters. *)
Lemma roundtrip_short_payload_differs :
  fst (roundtrip PHI 0%nat [65%N] zeros512) = Ok (65%N :: replicate 63 0%N)
  ∧ fst (roundtrip PHI 0%nat [65%N] zeros512) ≠ Ok [65%N].
Proof. split; [vm_compute; reflexivity|vm_compute; discriminate]. Qed.

Lemma encode_bit_placement_witness :
  ∃ σ' im' p', SteganoMode.encode TAU 0%nat [128%N] None red3 = (Ok true, σ')
    ∧ images σ' !! 0%nat = Some im'
    ∧ im_data im' !! 0%nat = Some p'
    ∧ bit_written TAU [3; 0; 0] p' true.
Proof.
  apply (proj1 (encode_bit_placement TAU red3 0%nat (mkImage RGB (1, 1) [[3; 0; 0]])
                  [128%N] eq_refl eq_refl eq_refl) None 0%nat [3; 0; 0] true);
    first [reflexivity | by left].
Defined.

(** C3 as stated fails for τ: writing the bit 1 into a pixel whose red value
    is 3 leaves red at 2, so bit 0 of red, which is not the targeted bit 1,
    has changed. *)
Lemma tau_clears_red_bit0 :
  ∃ σ', SteganoMode.encode TAU 0%nat [128%N] None red3 = (Ok true, σ')
    ∧ images σ' !! 0%nat = Some (mkImage RGB (1, 1) [[2; 1; 0]])
    ∧ ¬ one_bit 3 2 1 true.
Proof.
  eexists. split; [vm_compute; reflexivity|]. split; [reflexivity|].
  intros H. specialize (H 0 ltac:(lia)). discriminate H.
Qed.


Lemma decode_reads_raster_bytes_witness :
  ∃ t, SteganoMode.decode PHI 0%nat zeros512 = (Ok t, zeros512)
    ∧ length t = 64%nat.
Proof.
  destruct (decode_reads_raster_bytes PHI zeros512 0%nat
              (mkImage RGB (512, 1) (replicate 512 [0; 0; 0]))
              ltac:(discriminate) eq_refl eq_refl eq_refl)
    as (t & H1 & _ & _ & _ & H2).
  exists t. split; [exact H1|]. apply H2. cbn. lia.
Defined.

End modes_examples.

(** ** Frames: what ψ encoding leaves alone *)

Section psi_frame.

(** PIL's remaining converters are arbitrary. *)
Context {pil : Pillow}.

Section frame.
Context (I : World → Prop).

Lemma preserves_ret {A} (a : A) : preserves I (mret a).
Proof. intros σ r σ' [= _ <-]. done. Qed.

Lemma preserves_raise {A} e : preserves I (raise e : M A).
Proof. intros σ r σ' [= _ <-]. done. Qed.

Lemma preserves_lift {A} (x : Result A) : preserves I (lift x).
Proof. intros σ r σ' [= _ <-]. done. Qed.

Lemma preserves_bind {A B} (m : M A) (f : A → M B) :
  preserves I m → (∀ a, preserves I (f a)) → preserves I (m ≫= f).
Proof.
  intros Hm Hf σ r σ' Hrun HI. rewrite run_bind in Hrun.
  destruct (m σ) as [[a|e] σ1] eqn:E.
  - eapply Hf; [done|]. by eapply Hm.
  - injection Hrun as _ <-. by eapply Hm.
Qed.

Lemma preserves_try {A} (body : M A) handler :
  preserves I body → (∀ e, preserves I (handler e)) →
  preserves I (try_except body handler).
Proof.
  intros Hm Hf σ r σ' Hrun HI. unfold try_except in Hrun.
  destruct (body σ) as [[a|e] σ1] eqn:E.
  - injection Hrun as _ <-. by eapply Hm.
  - eapply Hf; [done|]. by eapply Hm.
Qed.

Lemma preserves_for_in {A S} (body : A → S → M (ctl * S)) l :
  (∀ a s, preserves I (body a s)) → ∀ s, preserves I (for_in body l s).
Proof.
  intros Hb. induction l as [|a l IH]; intros s; [apply preserves_ret|].
  cbn [for_in]. apply preserves_bind; [apply Hb|].
  intros [[] s']; [apply IH|apply preserves_ret].
Qed.

Lemma preserves_get_image img : preserves I (get_image img).
Proof.
  intros σ r σ' Hrun. unfold get_image in Hrun.
  destruct (images σ !! img); by injection Hrun as _ <-.
Qed.

Lemma preserves_getpixel img xy : preserves I (getpixel img xy).
Proof.
  apply preserves_bind; [apply preserves_get_image|]. intros im.
  destruct (pixel_index _ _); [|apply preserves_raise].
  destruct (_ !! _); [apply preserves_ret|apply preserves_raise].
Qed.
End frame.



Lemma preserves_bind_post {A B} (I : World → Prop) (Q : A → Prop)
    (m : M A) (f : A → M B) :
  preserves I m →
  (∀ σ a σ', m σ = (Ok a, σ') → I σ → Q a) →
  (∀ a, Q a → preserves I (f a)) →
  preserves I (m ≫= f).
Proof.
  intros Hm HQ Hf σ r σ' Hrun HI. rewrite run_bind in Hrun.
  destruct (m σ) as [[a|e] σ1] eqn:E.
  - eapply Hf; [by eapply HQ|done|]. by eapply Hm.
  - injection Hrun as _ <-. by eapply Hm.
Qed.




(** Every converter yields pixels of the target mode. *)
Lemma pil_converter_bands src dst f p :
  pil_converter src dst = Some f → length p = bands src → length (f p) = bands dst.
Proof.
  intros Hf Hp.
  assert (Hid : ∀ g, (if decide (src = dst) then Some id else converter src dst) = Some g →
                     length (g p) = bands dst).
  { intros g Hg. destruct (decide (src = dst)) as [<-|].
    - by injection Hg as <-.
    - by eapply converter_bands. }
  destruct src, dst; cbn in Hf; try discriminate Hf; try (by apply Hid);
    injection Hf as <-; cbn in *;
    repeat (destruct p as [|? p]; try done).
Qed.

Lemma convert_rgba_shape mode f data :
  pil_converter mode RGBA = Some f →
  Forall (λ p, length p = bands mode) data →
  Forall (λ p, length p = bands RGBA) (f <$> data).
Proof.
  intros Hf Hd. apply Forall_fmap. eapply Forall_impl; [exact Hd|].
  intros p Hp. by eapply pil_converter_bands.
Qed.

Lemma encode_psi_on_copy σ img im f s :
  images σ !! img = Some im →
  shape_ok im = true →
  im_mode im ≠ RGBA →
  pil_converter (im_mode im) RGBA = Some f →
  SteganoMode._encode_psi img s σ
  = (Ok true,
     mkWorld (images σ ++
              [mkImage RGBA (im_size im)
                 (overlay psi_write (f <$> im_data im) (payload_bits s))])
       (files σ) (log σ)).
Proof.
  intros Hσ Hok Hmode Hf. apply shape_ok_inv in Hok as (Hw & Hh & Hlen & Hshape).
  destruct im as [mode [w h] data]. cbn [im_mode im_size im_data fst snd] in *.
  unfold SteganoMode._encode_psi.
  rewrite run_bind, (run_get_image _ _ _ Hσ). cbn [im_mode].
  rewrite decide_True by done.
  rewrite run_bind. unfold convert at 1.
  rewrite run_bind, (run_get_image _ _ _ Hσ). cbn [im_mode im_size im_data].
  rewrite Hf. unfold new_image at 1.
  set (conv := f <$> data).
  set (σ1 := mkWorld _ _ _).
  assert (Hσ1 : images σ1 !! length (images σ) = Some (mkImage RGBA (w, h) conv)).
  { subst σ1. cbn. by rewrite lookup_app_r, Nat.sub_diag by lia. }
  rewrite run_bind, (run_get_image _ _ _ Hσ1). cbn [im_size].
  rewrite binary_of_bits.
  apply run_try_ok. rewrite run_bind.
  erewrite for_in_ext by (intros; apply psi_body_ext).
  rewrite (raster_loop_spec _ RGBA w h conv psi_upd psi_write psi_upd_ok);
    [|done|done|by subst conv; rewrite length_fmap|by eapply convert_rgba_shape|done].
  rewrite run_ret. f_equal. subst σ1. unfold with_data. cbn. f_equal.
  rewrite insert_app_r_alt, Nat.sub_diag by lia. done.
Qed.

(** Without a converter the call raises, outside the [try], before anything
    is written. *)
Lemma encode_psi_no_converter σ img im s :
  images σ !! img = Some im →
  im_mode im ≠ RGBA →
  pil_converter (im_mode im) RGBA = None →
  SteganoMode._encode_psi img s σ = (Raise ValueError, σ).
Proof.
  intros Hσ Hmode Hf. unfold SteganoMode._encode_psi.
  rewrite run_bind, (run_get_image _ _ _ Hσ).
  rewrite decide_True by done.
  rewrite run_bind. unfold convert at 1.
  by rewrite run_bind, (run_get_image _ _ _ Hσ), Hf.
Qed.

End psi_frame.

(** ** The codec *)

Section codec_proofs.

(** PIL's remaining converters are arbitrary. *)
Context {pil : Pillow}.

Lemma try_except_total {A} (body : M A) (handler : exn → M A) σ :
  (∀ e σ1, ∃ a σ', handler e σ1 = (Ok a, σ')) →
  ∃ a σ', try_except body handler σ = (Ok a, σ').
Proof.
  intros Hh. unfold try_except. destruct (body σ) as [[a|e] σ1]; [by eexists _, _|].
  apply Hh.
Qed.

Section codec.
Context {ndarray : Type}.
Context (validate_content : string → Result bool)
        (apply_quantum_transform : list (list Z) → Result ndarray)
        (np_uint8 : ndarray → list (list Z))
        (get_superposition_state : list (list Z) → Result (list ndarray))
        (record_quantum_state : ndarray → Result unit)
        (temporal_analyzer : bool)
        (analyze_pattern : ndarray → Result unit)
        (validate_pattern : list (list Z) → Result bool)
        (generate_pq_hash : string → Result (list N))
        (save_check : string → Image → Result unit).

Local Abbreviation encode_body :=
  (QuantumSteganography.encode_body apply_quantum_transform np_uint8
     get_superposition_state record_quantum_state temporal_analyzer
     analyze_pattern generate_pq_hash save_check).
Local Abbreviation encode :=
  (QuantumSteganography.encode validate_content apply_quantum_transform np_uint8
     get_superposition_state record_quantum_state temporal_analyzer
     analyze_pattern generate_pq_hash save_check).
Local Abbreviation decode_body :=
  (QuantumSteganography.decode_body apply_quantum_transform np_uint8
     record_quantum_state temporal_analyzer validate_pattern generate_pq_hash).
Local Abbreviation decode :=
  (QuantumSteganography.decode apply_quantum_transform np_uint8
     record_quantum_state temporal_analyzer validate_pattern generate_pq_hash).

(** What the handlers of [encode] and [decode] do with the exception
    they caught: one record in the log, then the failure value. *)
Lemma encode_handler_run self_mode input_path output_path file_type σ e σ1 :
  encode_body self_mode input_path output_path file_type σ = (Raise e, σ1) →
  ∃ msg,
    encode self_mode input_path output_path file_type false σ
    = (Ok false, logged σ1 msg (Some e)).
Proof.
  intros Hb. unfold QuantumSteganography.encode. rewrite run_bind, run_ret.
  cbv iota beta. cbn [negb]. cbv iota. unfold try_except. rewrite Hb.
  destruct e; by eexists.
Qed.

Lemma encode_unchecked_ok self_mode input_path output_path file_type σ b σ1 :
  encode_body self_mode input_path output_path file_type σ = (Ok b, σ1) →
  encode self_mode input_path output_path file_type false σ = (Ok b, σ1).
Proof.
  intros Hb. unfold QuantumSteganography.encode. rewrite run_bind, run_ret.
  cbv iota beta. cbn [negb]. cbv iota. unfold try_except. by rewrite Hb.
Qed.

Lemma encode_checked self_mode input_path output_path file_type σ :
  encode self_mode input_path output_path file_type true σ
  = match validate_content input_path with
    | Ok true => encode self_mode input_path output_path file_type false σ
    | Ok false => (Ok false, logged σ "Content failed ethical validation" None)
    | Raise e => (Ok false, logged σ "Ethical validation error: " (Some e))
    end.
Proof.
  unfold QuantumSteganography.encode. rewrite !run_bind.
  unfold try_except at 1. rewrite run_bind, run_lift.
  by destruct (validate_content input_path) as [[]|e].
Qed.

Lemma encode_unchecked_total self_mode input_path output_path file_type σ :
  ∃ b σ', encode self_mode input_path output_path file_type false σ = (Ok b, σ').
Proof.
  destruct (encode_body self_mode input_path output_path file_type σ)
    as [[b|e] σ1] eqn:Hb.
  - rewrite (encode_unchecked_ok _ _ _ _ _ _ _ Hb). by eexists _, _.
  - destruct (encode_handler_run _ _ _ _ _ _ _ Hb) as [msg ->]. by eexists _, _.
Qed.

Lemma decode_handler_run self_mode image_path validate_temporal σ e σ1 :
  decode_body self_mode image_path validate_temporal σ = (Raise e, σ1) →
  decode self_mode image_path validate_temporal σ
  = (Ok "unknown"%string, logged σ1 (decode_error_text e) (Some e)).
Proof.
  intros Hb. unfold QuantumSteganography.decode, try_except. rewrite Hb.
  by destruct e.
Qed.

Lemma decode_ok self_mode image_path validate_temporal σ t σ1 :
  decode_body self_mode image_path validate_temporal σ = (Ok t, σ1) →
  decode self_mode image_path validate_temporal σ = (Ok t, σ1).
Proof. intros Hb. unfold QuantumSteganography.decode, try_except. by rewrite Hb. Qed.

(** C9: QuantumSteganography.encode always returns a boolean, False when
    its body or the ethical validation raised; decode always returns a
    string, "unknown" when its body raised. No exception reaches the
    caller: the handler that caught it leaves one record in the log. *)
Theorem codec_never_raises self_mode σ :
  (∀ input_path output_path file_type ethical_check,
     (∃ b σ', encode self_mode input_path output_path file_type ethical_check σ
              = (Ok b, σ'))
     ∧ (∀ e σ1,
          encode_body self_mode input_path output_path file_type σ = (Raise e, σ1) →
          ∃ σ', encode self_mode input_path output_path file_type ethical_check σ
                = (Ok false, σ'))
     ∧ (∀ e, validate_content input_path = Raise e →
          encode self_mode input_path output_path file_type true σ
          = (Ok false, logged σ "Ethical validation error: " (Some e))))
  ∧ (∀ image_path validate_temporal,
       (∃ s σ', decode self_mode image_path validate_temporal σ = (Ok s, σ'))
       ∧ (∀ e σ1,
            decode_body self_mode image_path validate_temporal σ = (Raise e, σ1) →
            decode self_mode image_path validate_temporal σ
            = (Ok "unknown"%string, logged σ1 (decode_error_text e) (Some e)))).
Proof.
  split.
  - intros input_path output_path file_type ethical_check.
    split; [|split].
    + destruct ethical_check; [rewrite encode_checked|apply encode_unchecked_total].
      destruct (validate_content input_path) as [[]|e]; [|by eexists _, _..].
      apply encode_unchecked_total.
    + intros e σ1 Hb.
      destruct (encode_handler_run _ _ _ _ _ _ _ Hb) as [msg Hrun].
      destruct ethical_check; [rewrite encode_checked|by rewrite Hrun; eexists].
      destruct (validate_content input_path) as [[]|e']; [|by eexists..].
      rewrite Hrun. by eexists.
    + intros e He. by rewrite encode_checked, He.
  - intros image_path validate_temporal. split.
    + destruct (decode_body self_mode image_path validate_temporal σ)
        as [[t|e] σ1] eqn:Hb.
      * rewrite (decode_ok _ _ _ _ _ _ Hb). by eexists _, _.
      * rewrite (decode_handler_run _ _ _ _ _ _ Hb). by eexists _, _.
    + intros e σ1 Hb. by apply decode_handler_run.
Qed.


(** As core.py stands: a run of [encode] that gets to return True has
    obtained a hash, so where the call of [generate_pq_hash] raises (the
    name is not imported there) [encode] returns False. *)
Lemma encode_body_needs_hash self_mode input_path output_path file_type σ b σ' :
  encode_body self_mode input_path output_path file_type σ = (Ok b, σ') →
  ∃ data_hash, generate_pq_hash file_type = Ok data_hash.
Proof.
  unfold QuantumSteganography.encode_body. intros Hrun.
  rewrite run_bind in Hrun.
  destruct (Image_open input_path σ) as [[img0|] σ1]; [|discriminate Hrun].
  rewrite run_bind in Hrun.
  destruct (convert img0 RGB σ1) as [[img1|] σ2]; [|discriminate Hrun].
  rewrite run_bind in Hrun.
  destruct (get_image img1 σ2) as [[im|] σ3]; [|discriminate Hrun].
  rewrite run_bind, run_lift in Hrun.
  destruct (apply_quantum_transform _) as [t|]; [|discriminate Hrun].
  rewrite run_bind in Hrun.
  destruct (QuantumSteganography.Image_fromarray _ _ σ3) as [[img2|] σ4];
    [|discriminate Hrun].
  rewrite run_bind, run_lift in Hrun.
  destruct (get_superposition_state _) as [states|]; [|discriminate Hrun].
  rewrite run_bind, run_lift in Hrun.
  destruct (from_option _ _ _) as [state0|]; [|discriminate Hrun].
  rewrite run_bind, run_lift in Hrun.
  destruct (record_quantum_state state0) as [[]|]; [|discriminate Hrun].
  rewrite run_bind in Hrun.
  destruct ((if temporal_analyzer then lift (analyze_pattern t) else mret ()) σ4)
    as [[[]|] σ5]; [|discriminate Hrun].
  rewrite run_bind, run_lift in Hrun.
  destruct (generate_pq_hash file_type) as [data_hash|]; [|discriminate Hrun].
  by exists data_hash.
Qed.

Lemma encode_without_hash self_mode input_path output_path file_type ethical_check σ e :
  generate_pq_hash file_type = Raise e →
  ∃ σ', encode self_mode input_path output_path file_type ethical_check σ
        = (Ok false, σ').
Proof.
  intros Hhash.
  assert (∃ σ', encode self_mode input_path output_path file_type false σ
                = (Ok false, σ')) as Htry.
  { destruct (encode_body self_mode input_path output_path file_type σ)
      as [[b|e'] σ1] eqn:Hbody.
    - destruct (encode_body_needs_hash _ _ _ _ _ _ _ Hbody) as [h Hh]. congruence.
    - destruct (encode_handler_run _ _ _ _ _ _ _ Hbody) as [msg ->]. by eexists. }
  destruct ethical_check; [rewrite encode_checked|done].
  destruct (validate_content input_path) as [[]|]; [done|by eexists..].
Qed.
End codec.

End codec_proofs.

(** ** The checksum fold *)

Lemma float_mix_all :
  forallb (λ n, match int_of_float (float_of_Z n * phi)%float with
                | Ok v => v =? (n + Z.sqrt (5 * n * n)) `div` 2
                | Raise _ => false
                end) (seqZ 0 1021) = true.
Proof. vm_compute. reflexivity. Qed.

Lemma float_mix n :
  0 ≤ n ≤ 1020 →
  int_of_float (float_of_Z n * phi)%float = Ok ((n + Z.sqrt (5 * n * n)) `div` 2).
Proof.
  intros Hn. pose proof float_mix_all as H. rewrite forallb_forall in H.
  specialize (H n). destruct (int_of_float _) as [v|].
  - f_equal. apply Z.eqb_eq, H, list_elem_of_In, elem_of_seqZ. lia.
  - exfalso. enough (false = true) by done. apply H, list_elem_of_In, elem_of_seqZ. lia.
Qed.

Lemma checksum_step_spec c r g b :
  0 ≤ c + r + g + b ≤ 1020 →
  checksum_step c r g b = Ok (golden_mix (c + r + g + b)).
Proof. intros H. unfold checksum_step. by rewrite float_mix. Qed.

Lemma golden_mix_bound n : 0 ≤ golden_mix n < 256.
Proof. unfold golden_mix. apply Z.mod_pos_bound. lia. Qed.

Example phi_value : phi = 0x1.9e3779b97f4a8p+0%float.
Proof. vm_compute. reflexivity. Qed.

Section checksum_loops.
Context (img : ref) (w h : Z) (data : list (list Z)) (σ : World).
Local Abbreviation im := (mkImage RGB (w, h) data).
Hypothesis Hσ : images σ !! img = Some im.
Hypothesis Hok : image_ok im = true.

Lemma pixel_in_bounds x y :
  0 ≤ x < w → 0 ≤ y < h →
  ∃ k r g b,
    pixel_index (w, h) (x, y) = Some k ∧ data !! k = Some [r; g; b]
    ∧ 0 ≤ r + g + b ≤ 765.
Proof.
  intros Hx Hy.
  pose proof (shape_ok_inv _ (image_ok_shape _ Hok)) as (Hw & Hh & Hl & Hshape).
  pose proof (image_ok_bytes _ Hok) as Hbytes.
  cbn [im_size im_data im_mode fst snd] in *.
  assert (Hidx : pixel_index (w, h) (x, y) = Some (Z.to_nat (y * w + x))).
  { unfold pixel_index.
    rewrite (proj2 (Z.ltb_ge x 0)), (proj2 (Z.ltb_ge y 0)) by lia.
    rewrite (proj2 (Z.leb_le 0 x)), (proj2 (Z.leb_le 0 y)) by lia.
    by rewrite (proj2 (Z.ltb_lt x w)), (proj2 (Z.ltb_lt y h)) by lia. }
  assert (0 ≤ y * w) by (apply Z.mul_nonneg_nonneg; lia).
  assert (0 ≤ (h - y - 1) * w) by (apply Z.mul_nonneg_nonneg; lia).
  assert (Hk : (Z.to_nat (y * w + x) < length data)%nat) by (rewrite Hl; lia).
  destruct (lookup_lt_is_Some_2 data _ Hk) as [p Hp].
  pose proof (Forall_lookup_1 _ _ _ _ Hshape Hp) as Hlen.
  pose proof (Forall_lookup_1 _ _ _ _ Hbytes Hp) as Hb.
  destruct p as [|r [|g [|b [|]]]]; try done.
  apply Forall_cons in Hb as [Hr Hb]. apply Forall_cons in Hb as [Hg Hb].
  apply Forall_cons in Hb as [Hbl _].
  exists (Z.to_nat (y * w + x)), r, g, b. repeat split; try done; lia.
Qed.

Lemma pixel_at_in_bounds x y k p :
  pixel_index (w, h) (x, y) = Some k → data !! k = Some p →
  pixel_at im (x, y) = p.
Proof. intros Hk Hp. unfold pixel_at. cbn [im_size im_data]. by rewrite Hk; cbn; rewrite Hp. Qed.

Lemma checksum_column x (n : nat) : ∀ (y0 c : Z),
  0 ≤ x < w → 0 ≤ y0 → y0 + Z.of_nat n ≤ h → 0 ≤ c < 256 →
  for_in (λ (y : Z) (checksum : Z),
       p ← getpixel img (x, y);
       '(r, g, b) ← lift (unpack3 p);
       checksum ← lift (checksum_step checksum r g b);
       mret (Continue, checksum)) (seqZ y0 (Z.of_nat n)) c σ
  = (Ok (fold_checksum im ((λ y, (x, y)) <$> seqZ y0 (Z.of_nat n)) c), σ).
Proof.
  induction n as [|n IH]; intros y0 c Hx Hy0 Hn Hc; [done|].
  rewrite seqZ_cons by lia. cbn [for_in fmap list_fmap].
  destruct (pixel_in_bounds x y0) as (k & r & g & b & Hk & Hp & Hsum); [lia..|].
  rewrite run_bind, run_bind, (run_getpixel _ _ _ _ _ _ Hσ Hk Hp).
  rewrite run_bind, run_lift. cbn [unpack3].
  rewrite run_bind, run_lift, checksum_step_spec by lia. rewrite run_ret.
  replace (Z.pred (Z.of_nat (S n))) with (Z.of_nat n) by lia.
  rewrite IH; [|done|lia|lia|apply golden_mix_bound].
  unfold fold_checksum. cbn [foldl].
  rewrite (pixel_at_in_bounds _ _ _ _ Hk Hp). cbn [px_sum].
  by replace (c + r + g + b) with (c + (r + g + b)) by lia.
Qed.

Lemma fold_checksum_bound coords c :
  0 ≤ c < 256 → 0 ≤ fold_checksum im coords c < 256.
Proof.
  revert c. induction coords as [|xy coords IH]; intros c Hc; [done|].
  apply IH, golden_mix_bound.
Qed.

Lemma checksum_columns y1 y2 (m : nat) : ∀ (x0 c : Z),
  0 ≤ y1 ≤ y2 → y2 ≤ h → 0 ≤ x0 → x0 + Z.of_nat m ≤ w → 0 ≤ c < 256 →
  for_in (λ (x : Z) (checksum : Z),
     checksum ← for_in (λ (y : Z) (checksum : Z),
       p ← getpixel img (x, y);
       '(r, g, b) ← lift (unpack3 p);
       checksum ← lift (checksum_step checksum r g b);
       mret (Continue, checksum)) (range2 y1 y2) checksum;
     mret (Continue, checksum)) (seqZ x0 (Z.of_nat m)) c σ
  = (Ok (fold_checksum im
           (x ← seqZ x0 (Z.of_nat m); y ← range2 y1 y2; [(x, y)]) c), σ).
Proof.
  induction m as [|m IH]; intros x0 c Hy1 Hy2 Hx0 Hm Hc; [done|].
  rewrite seqZ_cons by lia. cbn [for_in]. rewrite bind_cons.
  rewrite run_bind, run_bind. unfold range2 at 1.
  pose proof (checksum_column x0 (Z.to_nat (y2 - y1)) y1 c) as Hcol.
  rewrite Z2Nat.id in Hcol by lia. rewrite Hcol by lia. rewrite run_ret.
  replace (Z.pred (Z.of_nat (S m))) with (Z.of_nat m) by lia.
  rewrite IH; [|done|done|lia|lia|by apply fold_checksum_bound].
  unfold fold_checksum. by rewrite foldl_app.
Qed.
End checksum_loops.

Lemma clamp_region_bounds w h region x1 y1 x2 y2 :
  0 ≤ w → 0 ≤ h →
  clamp_region (w, h) region = (x1, y1, x2, y2) →
  0 ≤ x1 ≤ x2 ∧ x2 ≤ w ∧ 0 ≤ y1 ≤ y2 ∧ y2 ≤ h.
Proof.
  destruct region as [[[a b] c] d]. unfold clamp_region. intros Hw Hh [= <- <- <- <-].
  lia.
Qed.


Lemma calculate_checksum_spec σ img im region :
  images σ !! img = Some im →
  image_ok im = true →
  im_mode im = RGB →
  calculate_checksum img region σ
  = (Ok (fold_checksum im (column_major (clamp_region (im_size im) region)) 0), σ).
Proof.
  destruct im as [mode [w h] data]. cbn [im_mode im_size]. intros Hσ Hok ->.
  pose proof (shape_ok_inv _ (image_ok_shape _ Hok)) as (Hw & Hh & _).
  cbn [im_size fst snd] in Hw, Hh.
  destruct (clamp_region (w, h) region) as [[[x1 y1] x2] y2] eqn:Hclamp.
  pose proof (clamp_region_bounds _ _ _ _ _ _ _ Hw Hh Hclamp) as (Hx1 & Hx2 & Hy1 & Hy2).
  destruct region as [[[a b] c] d]. unfold clamp_region in Hclamp.
  injection Hclamp as <- <- <- <-.
  unfold calculate_checksum. rewrite run_bind, (run_get_image _ _ _ Hσ).
  cbn [im_size]. apply run_try_ok. unfold range2 at 2.
  set (x1 := Z.max 0 (Z.min a (w - 1))) in *. set (x2 := Z.max x1 (Z.min c w)) in *.
  set (y1 := Z.max 0 (Z.min b (h - 1))) in *. set (y2 := Z.max y1 (Z.min d h)) in *.
  pose proof (checksum_columns img w h data σ Hσ Hok y1 y2 (Z.to_nat (x2 - x1)) x1 0)
    as Hcols.
  rewrite Z2Nat.id in Hcols by lia. by rewrite Hcols by lia.
Qed.

(** ** The checksum header *)

Lemma enumerate_from_bound {A} (l : list A) : ∀ k i a,
  (i, a) ∈ enumerate_from k l → k ≤ i < k + len l.
Proof.
  induction l as [|x l IH]; intros k i a Hin; [by apply elem_of_nil in Hin|].
  unfold len in *. cbn [enumerate_from length] in *.
  apply elem_of_cons in Hin as [[= -> ->]|Hin]; [lia|].
  apply IH in Hin. lia.
Qed.

Lemma header_body_ext (pixels : ref) (a : Z * ascii) (s : unit) σ :
  a.1 < 8 →
  (λ '((i, bit) : Z * ascii) (_ : unit),
       x ← lift (py_mod i 50);
       y ← lift (py_floordiv i 50);
       p ← getpixel pixels (x, y);
       '(r, g, b) ← lift (unpack3 p);
       v ← lift (int_of_char bit);
       let r := Z.lor (Z.land r (Z.lnot 1)) v in
       putpixel pixels (x, y) [r; g; b];;
       mret (Continue, ())) a s σ
  = write_step pixels 8 header_target phi_upd a s σ.
Proof.
  destruct a as [i bit]. cbn [fst]. intros Hi. unfold write_step, header_target, phi_upd.
  rewrite geb_false by done. cbv iota.
  change (py_mod i 50) with (Ok (i `mod` 50)).
  change (py_floordiv i 50) with (Ok (i `div` 50)).
  set (x := i `mod` 50). set (y := i `div` 50).
  rewrite !run_bind, !run_lift. cbn [mbind Result_bind mret Result_ret].
  rewrite !run_bind, !run_lift. cbv iota. rewrite !run_bind.
  destruct (getpixel pixels (x, y) σ) as [[p|] σ']; [|done].
  rewrite !run_bind, !run_lift.
  destruct (unpack3 p) as [[[r g] b]|]; [|done]. cbn.
  rewrite !run_bind, !run_lift.
  destruct (int_of_char bit); done.
Qed.

Lemma header_target_ok w h i :
  0 ≤ i < 8 → 8 ≤ w → 1 ≤ h →
  header_target i = Ok (i `mod` 50, i `div` 50)
  ∧ pixel_index (w, h) (i `mod` 50, i `div` 50) = Some (Z.to_nat i).
Proof.
  intros Hi Hw Hh. split; [done|].
  rewrite Z.mod_small, Z.div_small by lia. unfold pixel_index.
  rewrite (proj2 (Z.ltb_ge i 0)) by lia. cbn [Z.ltb Z.compare].
  rewrite (proj2 (Z.leb_le 0 i)), (proj2 (Z.ltb_lt i w)), (proj2 (Z.ltb_lt 0 h)) by lia.
  cbn. f_equal; lia.
Qed.

Lemma format_08b_byte c :
  0 ≤ c ≤ 255 →
  format_08b c = bitchar <$> bits_of 8 c
  ∧ length (bits_of 8 c) = 8%nat ∧ bits_value (bits_of 8 c) = c.
Proof.
  intros Hc. destruct (byte_digits (Z.to_N c)) as (Hd & Hl & Hv); [lia|].
  unfold ord in *. rewrite Z2N.id in * by lia.
  split; [|split; [done|]].
  - unfold format_08b. rewrite (proj2 (Z.ltb_ge c 0)) by lia. by rewrite <- Hd.
  - pose proof (bits_value_bound (bits_of 8 c)). lia.
Qed.

Lemma embed_checksum_spec σ img w h data c :
  images σ !! img = Some (mkImage RGB (w, h) data) →
  shape_ok (mkImage RGB (w, h) data) = true →
  8 ≤ w → 1 ≤ h → 0 ≤ c ≤ 255 →
  embed_checksum img c σ
  = (Ok (), with_data σ img (mkImage RGB (w, h) data)
              (overlay phi_write data (bits_of 8 c))).
Proof.
  intros Hσ Hok Hw Hh Hc. apply shape_ok_inv in Hok as (_ & _ & Hlen & Hshape).
  cbn [im_size im_data im_mode fst snd] in *.
  destruct (format_08b_byte c Hc) as (Hfmt & Hl & _).
  unfold embed_checksum. rewrite Hfmt. apply run_try_ok.
  rewrite (for_in_ext _ (write_step img 8 header_target phi_upd)).
  2:{ intros a s σ0 Hin. apply header_body_ext. destruct a as [i bit].
      apply enumerate_from_bound in Hin. unfold len in Hin.
      rewrite length_fmap, Hl in Hin. cbn [fst]. lia. }
  assert (8 ≤ w * h) by nia.
  assert (Hdata : (8 ≤ length data)%nat) by (rewrite Hlen; lia).
  unfold enumerate.
  change 8 with (0 + len (seq 0 8)) at 1.
  rewrite (write_loop_spec img RGB (w, h) header_target phi_upd phi_write phi_upd_ok
             (bits_of 8 c) (seq 0 8) 0 data σ Hσ Hshape).
  - f_equal. f_equal. rewrite (write_all_seq phi_write data [] _ 8) by done.
    by rewrite take_ge by lia.
  - intros j k Hj. apply lookup_seq in Hj as [-> Hj].
    rewrite Nat.add_0_l, Z.add_0_l. split; [lia|].
    destruct (header_target_ok w h (Z.of_nat j)) as [H1 H2]; [lia..|].
    eexists. split; [exact H1|]. rewrite H2. by rewrite Nat2Z.id.
Qed.

Lemma extract_loop_spec σ img w h data :
  images σ !! img = Some (mkImage RGB (w, h) data) →
  shape_ok (mkImage RGB (w, h) data) = true →
  8 ≤ w → 1 ≤ h → ∀ (n i0 : nat), (i0 + n ≤ 8)%nat →
  for_in (λ (i : Z) (binary_checksum : list ascii),
       x ← lift (py_mod i 50);
       y ← lift (py_floordiv i 50);
       p ← getpixel img (x, y);
       '(r, _, _) ← lift (unpack3 p);
       mret (Continue, binary_checksum ++ str_bit (Z.land r 1)))
    (seqZ (Z.of_nat i0) (Z.of_nat n)) (bitchar <$> (red_lsb <$> take i0 data)) σ
  = (Ok (bitchar <$> (red_lsb <$> take (i0 + n) data)), σ).
Proof.
  intros Hσ Hok Hw Hh. pose proof (shape_ok_inv _ Hok) as (_ & _ & Hlen & Hshape).
  cbn [im_size im_data im_mode fst snd] in *.
  assert (8 ≤ w * h) by nia.
  assert (Hdata : (8 ≤ length data)%nat) by (rewrite Hlen; lia).
  induction n as [|n IH]; intros i0 Hn.
  - cbn. by rewrite Nat.add_0_r.
  - rewrite seqZ_cons by lia. cbn [for_in].
    destruct (header_target_ok w h (Z.of_nat i0)) as [H1 H2]; [lia..|].
    clear H1. rewrite Nat2Z.id in H2.
    change (py_mod (Z.of_nat i0) 50) with (Ok (Z.of_nat i0 `mod` 50)).
    change (py_floordiv (Z.of_nat i0) 50) with (Ok (Z.of_nat i0 `div` 50)).
    rewrite run_bind, run_bind, run_lift. rewrite run_bind, run_lift.
    destruct (lookup_lt_is_Some_2 data i0 ltac:(lia)) as [p Hp].
    rewrite run_bind, (run_getpixel _ _ _ _ _ _ Hσ H2 Hp).
    pose proof (Forall_lookup_1 _ _ _ _ Hshape Hp) as Hlp.
    destruct p as [|r [|g [|b [|]]]]; try done.
    rewrite run_bind, run_lift. cbn [unpack3]. rewrite run_ret, str_bit_land.
    replace (Z.succ (Z.of_nat i0)) with (Z.of_nat (S i0)) by lia.
    replace (Z.pred (Z.of_nat (S n))) with (Z.of_nat n) by lia.
    replace ((bitchar <$> (red_lsb <$> take i0 data)) ++ [bitchar (Z.testbit r 0)])
      with (bitchar <$> (red_lsb <$> take (S i0) data))
      by (by rewrite (take_S_r _ _ _ Hp), !fmap_app).
    rewrite IH by lia. by replace (S i0 + n)%nat with (i0 + S n)%nat by lia.
Qed.

Lemma extract_checksum_spec σ img w h data :
  images σ !! img = Some (mkImage RGB (w, h) data) →
  shape_ok (mkImage RGB (w, h) data) = true →
  8 ≤ w → 1 ≤ h →
  extract_checksum img σ = (Ok (bits_value (red_lsb <$> take 8 data)), σ).
Proof.
  intros Hσ Hok Hw Hh. unfold extract_checksum. apply run_try_ok.
  rewrite run_bind. unfold range, range2.
  pose proof (extract_loop_spec σ img w h data Hσ Hok Hw Hh 8 0 ltac:(lia)) as H.
  change (Z.of_nat 0) with 0 in H. change (Z.of_nat 8) with 8 in H.
  change (bitchar <$> (red_lsb <$> take 0 data)) with (@nil ascii) in H.
  change (0 + 8)%nat with 8%nat in H. change (8 - 0) with 8.
  rewrite H. rewrite run_lift.
  rewrite int_base2_bits; [done|].
  pose proof (shape_ok_inv _ Hok) as (_ & _ & Hlen & _).
  cbn [im_size im_data fst snd] in Hlen.
  assert (8 ≤ w * h) by nia.
  intros E. apply (f_equal length) in E. rewrite length_fmap, length_take in E.
  change (length (@nil bool)) with 0%nat in E. lia.
Qed.

(** ** Claims about the checksum and the mode selection *)

(** C6 (amended): on an RGB image calculate_checksum starts from 0 and folds
    checksum ← ⌊(checksum + r + g + b) · φ⌋ mod 256 over every pixel of the
    clamped region in column-major order (columns in increasing x, y varying
    fastest within a column), and returns the final value. *)
Theorem calculate_checksum_column_major σ img im region :
  images σ !! img = Some im →
  image_ok im = true →
  im_mode im = RGB →
  calculate_checksum img region σ
  = (Ok (fold_checksum im (column_major (clamp_region (im_size im) region)) 0), σ).
Proof. apply calculate_checksum_spec. Qed.

Example column_major_order :
  column_major (0, 0, 2, 2) = [(0, 0); (0, 1); (1, 0); (1, 1)]
  ∧ row_major (0, 0, 2, 2) = [(0, 0); (1, 0); (0, 1); (1, 1)].
Proof. split; reflexivity. Qed.




(** C8: on an RGB image at least 8 wide and 1 high, for a checksum between 0
    and 255, extract_checksum after embed_checksum returns that checksum;
    embed_checksum stores bit [i] of its eight binary digits (most
    significant first) in bit 0 of red of pixel (i mod 50, i div 50), for
    i = 0..7, and changes nothing else. *)
Theorem checksum_header_roundtrip σ img im c :
  images σ !! img = Some im →
  image_ok im = true →
  im_mode im = RGB →
  8 ≤ (im_size im).1 → 1 ≤ (im_size im).2 →
  0 ≤ c ≤ 255 →
  ∃ data',
    embed_checksum img c σ = (Ok (), with_data σ img im data')
    ∧ extract_checksum img (with_data σ img im data')
      = (Ok c, with_data σ img im data')
    ∧ length data' = length (im_data im)
    ∧ (∀ i : nat, (i < 8)%nat →
         ∃ p p', pixel_index (im_size im) (Z.of_nat i `mod` 50, Z.of_nat i `div` 50) = Some i
           ∧ im_data im !! i = Some p ∧ data' !! i = Some p'
           ∧ bit_written PHI p p' (Z.testbit c (7 - Z.of_nat i)))
    ∧ (∀ i : nat, (8 ≤ i)%nat → data' !! i = im_data im !! i).
Proof.
  destruct im as [mode [w h] data]. cbn [im_mode im_size im_data fst snd].
  intros Hσ Hok -> Hw Hh Hc.
  pose proof (image_ok_shape _ Hok) as Hsh.
  pose proof (shape_ok_inv _ Hsh) as (_ & _ & Hlen & Hshape).
  cbn [im_size im_data im_mode fst snd] in *.
  assert (8 ≤ w * h) by nia.
  destruct (format_08b_byte c Hc) as (_ & Hl & Hv).
  exists (overlay phi_write data (bits_of 8 c)).
  split; [by apply embed_checksum_spec|]. split; [|split; [apply length_overlay|split]].
  - rewrite (extract_checksum_spec _ img w h (overlay phi_write data (bits_of 8 c)));
      [|by apply with_data_lookup|by apply (shape_ok_overlay PHI)|done..].
    rewrite (read_overlay PHI _ 8 _ Hshape) by lia.
    rewrite Hl, Nat.sub_diag, take_0, app_nil_r. by rewrite Hv.
  - intros i Hi.
    destruct (lookup_lt_is_Some_2 data i ltac:(lia)) as [p Hp].
    assert (Hb : bits_of 8 c !! i = Some (Z.testbit c (7 - Z.of_nat i))).
    { unfold bits_of. rewrite list_lookup_fmap.
      do 8 (destruct i as [|i]; [done|]). lia. }
    exists p, (phi_write p (Z.testbit c (7 - Z.of_nat i))).
    split; [|split; [done|split]].
    + destruct (header_target_ok w h (Z.of_nat i)) as [_ H2]; [lia..|].
      by rewrite H2, Nat2Z.id.
    + rewrite (overlay_lookup _ _ _ _ _ Hp). by rewrite Hb.
    + apply (pixel_write_bit PHI). by eapply Forall_lookup_1 in Hshape.
  - intros i Hi. destruct (data !! i) as [p|] eqn:Hp.
    + rewrite (overlay_lookup _ _ _ _ _ Hp).
      by rewrite (lookup_ge_None_2 (bits_of 8 c) i) by lia.
    + apply lookup_ge_None. rewrite length_overlay. by apply lookup_ge_None.
Qed.

(** C10: _initialize_mode depends on the constant alone: with CHAOS_INTENSITY
    = 0.6 the chaos factor 0.6 · φ mod 1 is 0.97082039324993685, above 0.8,
    and the mode is ψ; the three ranges are > 0.8 for ψ, > 0.5 for φ, and τ
    otherwise. *)
Theorem initialize_mode_always_psi :
  QuantumSteganography._initialize_mode QuantumSteganography.CHAOS_INTENSITY = PSI
  ∧ float_mod1 (QuantumSteganography.CHAOS_INTENSITY * phi)%float
    = 0.97082039324993685%float
  ∧ (0.8 <? float_mod1 (QuantumSteganography.CHAOS_INTENSITY * phi))%float = true
  ∧ (∀ chaos_intensity,
       QuantumSteganography._initialize_mode chaos_intensity
       = let chaos_factor := float_mod1 (chaos_intensity * phi)%float in
         if (0.8 <? chaos_factor)%float then PSI
         else if (0.5 <? chaos_factor)%float then PHI else TAU).
Proof. repeat split; vm_compute; reflexivity. Qed.

Example initialize_mode_other_ranges :
  QuantumSteganography._initialize_mode 0.4%float = PHI
  ∧ QuantumSteganography._initialize_mode 0.1%float = TAU.
Proof. split; vm_compute; reflexivity. Qed.

Lemma calculate_checksum_column_major_witness :
  calculate_checksum 0%nat (0, 0, 2, 2) (mkWorld [grid22] ∅ [])
  = (Ok (fold_checksum grid22 (column_major (clamp_region (2, 2) (0, 0, 2, 2))) 0),
     mkWorld [grid22] ∅ []).
Proof.
  apply (calculate_checksum_column_major (mkWorld [grid22] ∅ []) 0%nat grid22 (0, 0, 2, 2));
    reflexivity.
Defined.

(** C6 as stated fails: on a 2 × 2 image the code returns 25, the row-major
    fold of the same pixels is 24. *)
Lemma calculate_checksum_not_row_major :
  fst (calculate_checksum 0%nat (0, 0, 2, 2) (mkWorld [grid22] ∅ [])) = Ok 25
  ∧ fold_checksum grid22 (row_major (clamp_region (2, 2) (0, 0, 2, 2))) 0 = 24
  ∧ fst (calculate_checksum 0%nat (0, 0, 2, 2) (mkWorld [grid22] ∅ []))
    ≠ Ok (fold_checksum grid22 (row_major (clamp_region (2, 2) (0, 0, 2, 2))) 0).
Proof. repeat split; vm_compute; first [reflexivity | discriminate]. Qed.



Lemma checksum_header_roundtrip_witness :
  ∃ data',
    embed_checksum 0%nat 165 (mkWorld [strip8] ∅ [])
    = (Ok (), with_data (mkWorld [strip8] ∅ []) 0%nat strip8 data')
    ∧ extract_checksum 0%nat (with_data (mkWorld [strip8] ∅ []) 0%nat strip8 data')
      = (Ok 165, with_data (mkWorld [strip8] ∅ []) 0%nat strip8 data')
    ∧ length data' = 8%nat
    ∧ (∀ i : nat, (i < 8)%nat →
         ∃ p p', pixel_index (8, 1) (Z.of_nat i `mod` 50, Z.of_nat i `div` 50) = Some i
           ∧ im_data strip8 !! i = Some p ∧ data' !! i = Some p'
           ∧ bit_written PHI p p' (Z.testbit 165 (7 - Z.of_nat i)))
    ∧ (∀ i : nat, (8 ≤ i)%nat → data' !! i = im_data strip8 !! i).
Proof.
  apply (checksum_header_roundtrip (mkWorld [strip8] ∅ []) 0%nat strip8 165);
    first [reflexivity | cbn; lia].
Defined.

(** ** What encoding changes *)

Section encode_effects.

(** PIL's remaining converters are arbitrary. *)
Context {pil : Pillow}.

Lemma preserves_ext {A} (I : World → Prop) (m m' : M A) :
  (∀ σ, m σ = m' σ) → preserves I m' → preserves I m.
Proof. intros E H σ r σ' Hrun. rewrite E in Hrun. exact (H _ _ _ Hrun). Qed.

Lemma preserves_for_in_elem {A S} (I : World → Prop) (body : A → S → M (ctl * S)) l :
  (∀ a s, a ∈ l → preserves I (body a s)) → ∀ s, preserves I (for_in body l s).
Proof.
  induction l as [|a l IH]; intros Hb s; [apply preserves_ret|].
  cbn [for_in]. apply preserves_bind; [apply Hb; by left|].
  intros [[] s']; [|apply preserves_ret].
  apply IH. intros; apply Hb. by right.
Qed.

Lemma enumerate_from_bitchar bits : ∀ k i c,
  (i, c) ∈ enumerate_from k (bitchar <$> bits) → ∃ b, c = bitchar b.
Proof.
  induction bits as [|b bits IH]; intros k i c Hin; [by apply elem_of_nil in Hin|].
  cbn in Hin. apply elem_of_cons in Hin as [[= _ ->]|Hin]; [by exists b|].
  by eapply IH.
Qed.

Lemma lsb_div2 a b : Z.lor (Z.land a (Z.lnot 1)) (Z.b2z b) `div` 2 = a `div` 2.
Proof.
  change 2 with (2 ^ 1). rewrite <- !Z.shiftr_div_pow2 by lia.
  apply Z.bits_inj'. intros j Hj. rewrite !Z.shiftr_spec by done.
  rewrite (write_lsb_spec a b (j + 1)) by lia.
  by rewrite (proj2 (Z.eqb_neq (j + 1) 0)) by lia.
Qed.

Lemma bit1_div4 r b :
  Z.lor (Z.land r (Z.lnot 3)) (Z.shiftl (Z.b2z b) 1) `div` 4 = r `div` 4.
Proof.
  change 4 with (2 ^ 2). rewrite <- !Z.shiftr_div_pow2 by lia.
  apply Z.bits_inj'. intros j Hj. rewrite !Z.shiftr_spec by done.
  rewrite (write_bit1_spec r b (j + 2)) by lia.
  by rewrite (proj2 (Z.eqb_neq (j + 2) 1)), (proj2 (Z.eqb_neq (j + 2) 0)) by lia.
Qed.

Lemma low_bits_only_refl m p : low_bits_only m p p.
Proof.
  destruct m; cbn.
  - destruct p as [|r [|g [|b [|a [|]]]]]; done.
  - destruct p as [|r [|g [|b [|]]]]; done.
  - destruct p as [|r [|g [|b [|]]]]; done.
Qed.

Lemma low_bits_only_upd m p cur b v :
  low_bits_only m p cur → mode_upd m cur (bitchar b) = Ok v → low_bits_only m p v.
Proof.
  destruct m; cbn [mode_upd].
  - unfold psi_upd. destruct cur as [|r [|g [|bl [|a [|]]]]]; try done.
    cbn. rewrite int_of_char_bitchar. cbn. intros H [= <-].
    destruct p as [|r0 [|g0 [|b0 [|a0 [|]]]]]; try done.
    cbn in *. destruct H as (-> & -> & -> & H). by rewrite lsb_div2.
  - unfold phi_upd. destruct cur as [|r [|g [|bl [|]]]]; try done.
    cbn. rewrite int_of_char_bitchar. cbn. intros H [= <-].
    destruct p as [|r0 [|g0 [|b0 [|]]]]; try done.
    cbn in *. destruct H as (H & -> & ->). by rewrite lsb_div2.
  - unfold tau_upd. destruct cur as [|r [|g [|bl [|]]]]; try done.
    cbn - [Z.shiftl]. rewrite int_of_char_bitchar. cbn - [Z.shiftl]. intros H [= <-].
    destruct p as [|r0 [|g0 [|b0 [|]]]]; try done.
    cbn - [Z.shiftl] in *. destruct H as (H1 & H2 & ->).
    by rewrite bit1_div4, lsb_div2.
Qed.

Lemma getpixel_inv img xy σ p σ' :
  getpixel img xy σ = (Ok p, σ') →
  σ' = σ ∧ ∃ im k, images σ !! img = Some im
                   ∧ pixel_index (im_size im) xy = Some k ∧ im_data im !! k = Some p.
Proof.
  unfold getpixel. rewrite run_bind. unfold get_image.
  destruct (images σ !! img) as [im|] eqn:E; [|done].
  destruct (pixel_index (im_size im) xy) as [k|] eqn:Ek; [|done].
  destruct (im_data im !! k) as [q|] eqn:Eq; [|done].
  intros [= <- <-]. split; [done|]. by exists im, k.
Qed.

Section write_related.
Context (R : pixel → pixel → Prop) (img : ref) (im : Image).
Context (upd : pixel → ascii → Result pixel).

Lemma putpixel_related xy k p v :
  pixel_index (im_size im) xy = Some k → im_data im !! k = Some p → R p v →
  preserves (related R img im) (putpixel img xy v).
Proof.
  intros Hk Hp HR σ r σ' Hrun (data' & Hσ & Hall).
  unfold putpixel in Hrun. rewrite run_bind, (run_get_image _ _ _ Hσ) in Hrun.
  cbn [im_size im_mode im_data] in Hrun. rewrite Hk in Hrun.
  destruct (_ =? _)%nat; [|injection Hrun as _ <-; by exists data'].
  injection Hrun as _ <-. exists (<[k := v]> data'). split.
  - cbn. apply list_lookup_insert_eq. by eapply lookup_lt_Some.
  - rewrite <- (list_insert_id (im_data im) k p) by done. by apply Forall2_insert.
Qed.

Lemma write_step_related cap target i bit s :
  (∀ p cur v, R p cur → upd cur bit = Ok v → R p v) →
  preserves (related R img im) (write_step img cap target upd (i, bit) s).
Proof.
  intros Hupd. unfold write_step. destruct (i >=? cap); [apply preserves_ret|].
  apply preserves_bind; [apply preserves_lift|]. intros xy.
  apply (preserves_bind_post _
           (λ cur, ∃ k p, pixel_index (im_size im) xy = Some k
                          ∧ im_data im !! k = Some p ∧ R p cur));
    [apply preserves_getpixel|..].
  - intros σ cur σ' Hrun (data' & Hσ & Hall).
    apply getpixel_inv in Hrun as (_ & im' & k & Him & Hk & Hcur).
    rewrite Hσ in Him. injection Him as <-. cbn [im_size im_data] in *.
    destruct (Forall2_lookup_r _ _ _ _ _ Hall Hcur) as (p & Hp & HR).
    by exists k, p.
  - intros cur (k & p & Hk & Hp & HR).
    apply (preserves_bind_post _ (λ v, upd cur bit = Ok v)); [apply preserves_lift|..].
    + intros σ a σ'. rewrite run_lift. by intros [= -> _] _.
    + intros v Ev. apply preserves_bind; [|intros; apply preserves_ret].
      eapply putpixel_related; eauto.
Qed.
End write_related.

Lemma related_init R img im σ :
  (∀ p, R p p) → images σ !! img = Some im → related R img im σ.
Proof.
  intros HR Hσ. exists (im_data im). split; [by destruct im|].
  by apply Forall_Forall2_diag, Forall_forall.
Qed.

Lemma write_loop_related m img im cap target s :
  preserves (related (low_bits_only m) img im)
    (for_in (write_step img cap target (mode_upd m)) (enumerate (binary_of s)) ()).
Proof.
  rewrite binary_of_bits. apply preserves_for_in_elem. intros [i c] [] Hin.
  apply enumerate_from_bitchar in Hin as [b ->].
  apply write_step_related. intros; by eapply low_bits_only_upd.
Qed.

Lemma encode_phi_related img im s positions :
  preserves (related (low_bits_only PHI) img im) (SteganoMode._encode_phi img s positions).
Proof.
  unfold SteganoMode._encode_phi.
  apply preserves_try; [|intros; apply preserves_ret].
  apply preserves_bind; [|intros; apply preserves_ret].
  destruct positions as [[|pos0 pos']|].
  - apply preserves_bind; [apply preserves_get_image|]. intros [m0 [w h] d0].
    cbn [im_size].
    eapply preserves_ext; [intros; apply for_in_ext; intros; apply phi_body_ext|].
    apply (write_loop_related PHI).
  - eapply preserves_ext; [intros; apply for_in_ext; intros; apply phi_list_body_ext|].
    apply (write_loop_related PHI).
  - apply preserves_bind; [apply preserves_get_image|]. intros [m0 [w h] d0].
    cbn [im_size].
    eapply preserves_ext; [intros; apply for_in_ext; intros; apply phi_body_ext|].
    apply (write_loop_related PHI).
Qed.

Lemma encode_tau_related img im s :
  preserves (related (low_bits_only TAU) img im) (SteganoMode._encode_tau img s).
Proof.
  unfold SteganoMode._encode_tau.
  apply preserves_bind; [apply preserves_get_image|]. intros [m0 [w h] d0].
  cbn [im_size].
  apply preserves_try; [|intros; apply preserves_ret].
  apply preserves_bind; [|intros; apply preserves_ret].
  eapply preserves_ext; [intros; apply for_in_ext; intros; apply tau_body_ext|].
  apply (write_loop_related TAU).
Qed.

Lemma encode_related m σ img im s positions r σ' :
  images σ !! img = Some im → shape_ok im = true →
  SteganoMode.encode m img s positions σ = (r, σ') →
  related (low_bits_only m) img im σ'.
Proof.
  intros Hσ Hok Hrun.
  pose proof (related_init _ img im σ (low_bits_only_refl m) Hσ) as Hinit.
  destruct m; cbn [SteganoMode.encode] in Hrun.
  - destruct (decide (im_mode im = RGBA)) as [Hm|Hm].
    + unfold SteganoMode._encode_psi in Hrun.
      rewrite run_bind, (run_get_image _ _ _ Hσ) in Hrun.
      rewrite decide_False in Hrun by (intros H; by apply H).
      rewrite run_bind, run_ret, run_bind, (run_get_image _ _ _ Hσ) in Hrun.
      destruct (im_size im) as [w h] eqn:Hsz.
      revert Hrun Hinit. generalize σ r σ'. change (preserves (related (low_bits_only PSI) img im)
        (try_except
           (for_in (λ '((i, bit) : Z * ascii) (_ : unit),
              if i >=? w * h then mret (Break, ()) else
              x ← lift (py_mod i w);
              y ← lift (py_floordiv i w);
              p ← getpixel img (x, y);
              '(r, g, b, a) ← lift (unpack4 p);
              v ← lift (int_of_char bit);
              let a := Z.lor (Z.land a (Z.lnot 1)) v in
              putpixel img (x, y) [r; g; b; a];;
              mret (Continue, ())) (enumerate (binary_of s)) ();;
            mret true)
           (λ _, mret false))).
      apply preserves_try; [|intros; apply preserves_ret].
      apply preserves_bind; [|intros; apply preserves_ret].
      eapply preserves_ext; [intros; apply for_in_ext; intros; apply psi_body_ext|].
      apply (write_loop_related PSI).
    + destruct (pil_converter (im_mode im) RGBA) as [f|] eqn:Hf.
      * rewrite (encode_psi_on_copy σ img im f s Hσ Hok Hm Hf) in Hrun.
        injection Hrun as _ <-. destruct Hinit as (d & Hd & Hall).
        exists d. split; [|done]. cbn. by apply lookup_app_l_Some.
      * rewrite (encode_psi_no_converter σ img im s Hσ Hm Hf) in Hrun.
        by injection Hrun as _ <-.
  - exact (encode_phi_related img im s positions _ _ _ Hrun Hinit).
  - exact (encode_tau_related img im s _ _ _ Hrun Hinit).
Qed.

Lemma image_ok_intro mode w h data :
  0 ≤ w → 0 ≤ h → length data = Z.to_nat (w * h) →
  Forall (λ p, length p = bands mode) data →
  Forall (Forall (λ v, 0 ≤ v < 256)) data →
  image_ok (mkImage mode (w, h) data) = true.
Proof.
  intros Hw Hh Hl Hs Hb. unfold image_ok, shape_ok. cbn [im_size im_data im_mode].
  rewrite !andb_true_iff, !Z.leb_le, Nat.eqb_eq, !forallb_forall.
  split; [split; [done|]|].
  - intros p Hp. apply Nat.eqb_eq. rewrite Forall_forall in Hs.
    by apply Hs, list_elem_of_In.
  - intros p Hp. apply forallb_forall. intros v Hv.
    rewrite Forall_forall in Hb. specialize (Hb p (proj2 (list_elem_of_In _ _) Hp)).
    rewrite Forall_forall in Hb. specialize (Hb v (proj2 (list_elem_of_In _ _) Hv)).
    apply andb_true_iff. rewrite Z.leb_le, Z.ltb_lt. lia.
Qed.

Lemma div2_byte v v' : v' `div` 2 = v `div` 2 → 0 ≤ v < 256 → 0 ≤ v' < 256.
Proof.
  intros E Hv. pose proof (Z.div_mod v 2 ltac:(lia)). pose proof (Z.div_mod v' 2 ltac:(lia)).
  pose proof (Z.mod_pos_bound v 2 ltac:(lia)). pose proof (Z.mod_pos_bound v' 2 ltac:(lia)).
  lia.
Qed.

Lemma div4_byte v v' : v' `div` 4 = v `div` 4 → 0 ≤ v < 256 → 0 ≤ v' < 256.
Proof.
  intros E Hv. pose proof (Z.div_mod v 4 ltac:(lia)). pose proof (Z.div_mod v' 4 ltac:(lia)).
  pose proof (Z.mod_pos_bound v 4 ltac:(lia)). pose proof (Z.mod_pos_bound v' 4 ltac:(lia)).
  lia.
Qed.

Lemma low_bits_only_byte m p p' :
  low_bits_only m p p' → Forall (λ v, 0 ≤ v < 256) p →
  length p' = length p ∧ Forall (λ v, 0 ≤ v < 256) p'.
Proof.
  intros H Hp.
  assert (p' = p → length p' = length p ∧ Forall (λ v, 0 ≤ v < 256) p') as Hsame
    by (by intros ->).
  destruct m; cbn in H.
  - destruct p as [|r [|g [|b [|a [|]]]]]; try by apply Hsame.
    destruct p' as [|r' [|g' [|b' [|a' [|]]]]]; try by apply Hsame.
    destruct H as (-> & -> & -> & H). split; [done|].
    repeat (apply Forall_cons in Hp as [? Hp]).
    repeat (apply Forall_cons; split; [by eauto using div2_byte|]). done.
  - destruct p as [|r [|g [|b [|]]]]; try by apply Hsame.
    destruct p' as [|r' [|g' [|b' [|]]]]; try by apply Hsame.
    destruct H as (H & -> & ->). split; [done|].
    repeat (apply Forall_cons in Hp as [? Hp]).
    repeat (apply Forall_cons; split; [by eauto using div2_byte|]). done.
  - destruct p as [|r [|g [|b [|]]]]; try by apply Hsame.
    destruct p' as [|r' [|g' [|b' [|]]]]; try by apply Hsame.
    destruct H as (H1 & H2 & ->). split; [done|].
    repeat (apply Forall_cons in Hp as [? Hp]).
    repeat (apply Forall_cons; split; [by eauto using div2_byte, div4_byte|]). done.
Qed.

Lemma low_bits_image_ok m im data' :
  image_ok im = true → Forall2 (low_bits_only m) (im_data im) data' →
  image_ok (mkImage (im_mode im) (im_size im) data') = true.
Proof.
  intros Hok Hall.
  pose proof (shape_ok_inv _ (image_ok_shape _ Hok)) as (Hw & Hh & Hl & Hs).
  pose proof (image_ok_bytes _ Hok) as Hb.
  destruct im as [mode [w h] data]. cbn [im_mode im_size im_data fst snd] in *.
  apply image_ok_intro; [done|done|by rewrite <- (Forall2_length _ _ _ Hall)|..].
  - apply Forall_lookup. intros i p' Hp'.
    destruct (Forall2_lookup_r _ _ _ _ _ Hall Hp') as (p & Hp & HR).
    destruct (low_bits_only_byte m p p' HR (Forall_lookup_1 _ _ _ _ Hb Hp)) as [-> _].
    by eapply (Forall_lookup_1 _ _ _ _ Hs).
  - apply Forall_lookup. intros i p' Hp'.
    destruct (Forall2_lookup_r _ _ _ _ _ Hall Hp') as (p & Hp & HR).
    by destruct (low_bits_only_byte m p p' HR (Forall_lookup_1 _ _ _ _ Hb Hp)).
Qed.

(** X1: whatever its outcome, payload and positions, encode leaves behind
    the caller's reference an image of the same mode and size whose band
    values are bytes, and it only ever changes low bits: ψ bit 0 of alpha, φ
    bit 0 of red, τ bits 0 and 1 of red and bit 0 of green. Every other band
    (blue always) and every higher bit is as before. *)
Theorem encode_changes_low_bits_only m σ img im s positions r σ' :
  images σ !! img = Some im →
  image_ok im = true →
  SteganoMode.encode m img s positions σ = (r, σ') →
  ∃ data',
    images σ' !! img = Some (mkImage (im_mode im) (im_size im) data')
    ∧ image_ok (mkImage (im_mode im) (im_size im) data') = true
    ∧ Forall2 (low_bits_only m) (im_data im) data'.
Proof.
  intros Hσ Hok Hrun.
  destruct (encode_related m σ img im s positions r σ' Hσ (image_ok_shape _ Hok) Hrun)
    as (data' & Hσ' & Hall).
  exists data'. split; [done|]. split; [|done]. by eapply low_bits_image_ok.
Qed.

Section frame_others.
Context (img : ref) (σ0 : World).
Local Abbreviation kept := (others_kept img σ0).

Lemma others_kept_refl : kept σ0.
Proof. by split; [|split; [|split]]. Qed.

Lemma putpixel_others pixels xy v :
  pixels = img ∨ (length (images σ0) ≤ pixels)%nat →
  preserves kept (putpixel pixels xy v).
Proof.
  intros Hp. apply preserves_bind; [apply preserves_get_image|]. intros im'.
  destruct (pixel_index _ _); [|apply preserves_raise].
  destruct (_ =? _)%nat; [|apply preserves_raise].
  intros σ r σ' [= _ <-] (Hf & Hl & Hk & Hlog). split; [done|]. cbn.
  rewrite length_insert. split; [done|]. split; [|done]. intros j Hj Hlt.
  rewrite list_lookup_insert_ne by (destruct Hp; [congruence|lia]). by apply Hk.
Qed.

Lemma new_image_others im' : preserves kept (new_image im').
Proof.
  intros σ r σ' [= _ <-] (Hf & Hl & Hk & Hlog). split; [done|]. cbn.
  rewrite length_app. split; [lia|]. split; [|done]. intros j Hj Hlt.
  rewrite lookup_app_l by lia. by apply Hk.
Qed.

Lemma convert_others src mode : preserves kept (convert src mode).
Proof.
  apply preserves_bind; [apply preserves_get_image|]. intros im'.
  destruct (pil_converter _ _); [apply new_image_others|apply preserves_raise].
Qed.

Lemma convert_others_fresh src mode σ a σ' :
  convert src mode σ = (Ok a, σ') → kept σ → (length (images σ0) ≤ a)%nat.
Proof.
  unfold convert. rewrite run_bind. unfold get_image.
  destruct (images σ !! src); [|done]. destruct (pil_converter _ _); [|done].
  by intros [= <- _] (_ & Hl & _).
Qed.

Lemma write_step_others pixels cap target upd a s :
  pixels = img ∨ (length (images σ0) ≤ pixels)%nat →
  preserves kept (write_step pixels cap target upd a s).
Proof.
  intros Hp. destruct a as [i bit]. unfold write_step.
  destruct (i >=? cap); [apply preserves_ret|].
  apply preserves_bind; [apply preserves_lift|]. intros xy.
  apply preserves_bind; [apply preserves_getpixel|]. intros p.
  apply preserves_bind; [apply preserves_lift|]. intros v.
  apply preserves_bind; [by apply putpixel_others|]. intros _.
  apply preserves_ret.
Qed.

Lemma encode_others m s positions :
  preserves kept (SteganoMode.encode m img s positions).
Proof.
  destruct m; cbn [SteganoMode.encode].
  - unfold SteganoMode._encode_psi.
    apply preserves_bind; [apply preserves_get_image|]. intros im0.
    apply (preserves_bind_post _
             (λ a : ref, a = img ∨ (length (images σ0) ≤ a)%nat)).
    + destruct (decide _); [apply convert_others|apply preserves_ret].
    + intros σ a σ'. destruct (decide _).
      * intros Hc Hk. right. by eapply convert_others_fresh.
      * intros [= <- _] _. by left.
    + intros pixels Hp.
      apply preserves_bind; [apply preserves_get_image|]. intros [m0 [w h] d0].
      cbn [im_size].
      apply preserves_try; [|intros; apply preserves_ret].
      apply preserves_bind; [|intros; apply preserves_ret].
      eapply preserves_ext; [intros; apply for_in_ext; intros; apply psi_body_ext|].
      apply preserves_for_in. intros. by apply write_step_others.
  - unfold SteganoMode._encode_phi.
    apply preserves_try; [|intros; apply preserves_ret].
    apply preserves_bind; [|intros; apply preserves_ret].
    destruct positions as [[|pos0 pos']|].
    + apply preserves_bind; [apply preserves_get_image|]. intros [m0 [w h] d0].
      cbn [im_size].
      eapply preserves_ext; [intros; apply for_in_ext; intros; apply phi_body_ext|].
      apply preserves_for_in. intros. apply write_step_others. by left.
    + eapply preserves_ext;
        [intros; apply for_in_ext; intros; apply phi_list_body_ext|].
      apply preserves_for_in. intros. apply write_step_others. by left.
    + apply preserves_bind; [apply preserves_get_image|]. intros [m0 [w h] d0].
      cbn [im_size].
      eapply preserves_ext; [intros; apply for_in_ext; intros; apply phi_body_ext|].
      apply preserves_for_in. intros. apply write_step_others. by left.
  - unfold SteganoMode._encode_tau.
    apply preserves_bind; [apply preserves_get_image|]. intros [m0 [w h] d0].
    cbn [im_size].
    apply preserves_try; [|intros; apply preserves_ret].
    apply preserves_bind; [|intros; apply preserves_ret].
    eapply preserves_ext; [intros; apply for_in_ext; intros; apply tau_body_ext|].
    apply preserves_for_in. intros. apply write_step_others. by left.
Qed.
End frame_others.

(** X2: encode touches nothing but the image it is given: whatever its
    mode, payload, positions and outcome, every file and every other image
    object is as before, and no image object disappears (ψ may add the RGBA
    copy it works on). *)
Theorem encode_touches_only_its_image m σ img s positions r σ' :
  SteganoMode.encode m img s positions σ = (r, σ') →
  files σ' = files σ
  ∧ (length (images σ) ≤ length (images σ'))%nat
  ∧ ∀ j : nat, j ≠ img → (j < length (images σ))%nat →
      images σ' !! j = images σ !! j.
Proof.
  intros Hrun.
  by destruct (encode_others img σ m s positions _ _ _ Hrun (others_kept_refl img σ))
    as (? & ? & ? & _).
Qed.

End encode_effects.

Section encode_effects_examples.

(** Examples run with the converters spelled out in [pil_converter]. *)
#[local] Existing Instance plain_pillow.

Lemma encode_changes_low_bits_only_witness :
  ∃ data',
    images (SteganoMode.encode TAU 0%nat [255%N] (Some [(5, 5)]) red3).2 !! 0%nat
    = Some (mkImage RGB (1, 1) data')
    ∧ image_ok (mkImage RGB (1, 1) data') = true
    ∧ Forall2 (low_bits_only TAU) [[3; 0; 0]] data'.
Proof.
  apply (encode_changes_low_bits_only TAU red3 0%nat (mkImage RGB (1, 1) [[3; 0; 0]])
           [255%N] (Some [(5, 5)])
           (SteganoMode.encode TAU 0%nat [255%N] (Some [(5, 5)]) red3).1).
  - reflexivity.
  - reflexivity.
  - vm_compute. reflexivity.
Defined.

Lemma encode_touches_only_its_image_witness :
  let σ := mkWorld [pair21; pair21] {["in.png"%string := pair21]} [] in
  let σ' := (SteganoMode.encode PSI 0%nat [255%N] None σ).2 in
  files σ' = files σ
  ∧ (length (images σ) ≤ length (images σ'))%nat
  ∧ ∀ j : nat, j ≠ 0%nat → (j < length (images σ))%nat →
      images σ' !! j = images σ !! j.
Proof.
  intros σ σ'.
  apply (encode_touches_only_its_image PSI σ 0%nat [255%N] None
           (SteganoMode.encode PSI 0%nat [255%N] None σ).1).
  vm_compute. reflexivity.
Defined.

End encode_effects_examples.

(** ** Wrong formats and partial writes *)

Section wrong_formats.

(** PIL's remaining converters are arbitrary. *)
Context {pil : Pillow}.

Lemma getpixel_state img xy σ : (getpixel img xy σ).2 = σ.
Proof.
  unfold getpixel. rewrite run_bind. unfold get_image.
  destruct (images σ !! img) as [im|]; [|done].
  destruct (pixel_index (im_size im) xy) as [k|]; [|done].
  by destruct (im_data im !! k).
Qed.

Lemma getpixel_elem img xy σ im :
  images σ !! img = Some im →
  (∃ p, getpixel img xy σ = (Ok p, σ) ∧ p ∈ im_data im)
  ∨ ∃ e, getpixel img xy σ = (Raise e, σ).
Proof.
  intros Hσ. pose proof (getpixel_state img xy σ) as Hst.
  destruct (getpixel img xy σ) as [[p|e] σ1] eqn:E; cbn in Hst; subst σ1.
  - left. exists p. split; [done|].
    apply getpixel_inv in E as (_ & im' & k & Him & _ & Hp).
    rewrite Hσ in Him. injection Him as <-. by eapply list_elem_of_lookup_2.
  - right. by exists e.
Qed.

Lemma unpack3_wrong p : length p ≠ 3%nat → ∃ e, unpack3 p = Raise e.
Proof. destruct p as [|r [|g [|b [|]]]]; intros H; try done; by eexists. Qed.

Lemma wrong_bands im p :
  shape_ok im = true → bands (im_mode im) ≠ 3%nat → p ∈ im_data im → length p ≠ 3%nat.
Proof.
  intros Hok Hm Hp. apply shape_ok_inv in Hok as (_ & _ & _ & Hs).
  rewrite Forall_forall in Hs. by rewrite (Hs p Hp).
Qed.

Section read_fails.
Context (img : ref) (im : Image) (g : pixel → Result (list ascii)) (σ : World).
Hypothesis Hσ : images σ !! img = Some im.
Hypothesis Hg : ∀ p, p ∈ im_data im → ∃ e, g p = Raise e.

Lemma read_row_empty_or_fails y xs :
  for_in (read_step img g y) xs [] σ = (Ok [], σ)
  ∨ ∃ e, for_in (read_step img g y) xs [] σ = (Raise e, σ).
Proof.
  destruct xs as [|x xs]; [by left|]. right.
  cbn [for_in]. rewrite run_bind. unfold read_step at 1.
  change (len [] >=? 512) with false. cbv iota. rewrite run_bind.
  destruct (getpixel_elem img (x, y) σ im Hσ) as [(p & -> & Hp)|(e & ->)];
    [|by eexists].
  destruct (Hg p Hp) as [e He]. rewrite run_bind, run_lift, He. by exists e.
Qed.

Lemma read_rows_empty_or_fails w ys :
  for_in (read_rows img g w) ys [] σ = (Ok [], σ)
  ∨ ∃ e, for_in (read_rows img g w) ys [] σ = (Raise e, σ).
Proof.
  induction ys as [|y ys IH]; [by left|].
  assert (for_in (read_rows img g w) (y :: ys) [] σ
          = match for_in (read_step img g y) (range w) [] σ with
            | (Ok bd, σ') => for_in (read_rows img g w) ys bd σ'
            | (Raise e, σ') => (Raise e, σ')
            end) as ->.
  { cbn [for_in]. rewrite run_bind. unfold read_rows at 1. rewrite run_bind.
    by destruct (for_in (read_step img g y) (range w) [] σ) as [[bd|e] σ1]. }
  destruct (read_row_empty_or_fails y (range w)) as [->|[e ->]]; [|right; by exists e].
  exact IH.
Qed.
End read_fails.

Lemma chars_of_binary_nil σ : SteganoMode.chars_of_binary [] σ = (Ok [], σ).
Proof. reflexivity. Qed.

(** X3: decode returns the empty string and changes nothing, no exception
    reaching the caller, on every image its mode cannot read: for ψ an
    image whose mode is not RGBA, for φ and τ an image whose pixels do not
    have three bands (L, LA, RGBA, CMYK, ...). *)
Theorem decode_wrong_format_is_empty m σ img im :
  images σ !! img = Some im →
  image_ok im = true →
  cannot_read m (im_mode im) →
  SteganoMode.decode m img σ = (Ok [], σ).
Proof.
  intros Hσ Hok Hm. pose proof (image_ok_shape _ Hok) as Hsh.
  destruct m; cbn [SteganoMode.decode cannot_read] in *.
  - unfold SteganoMode._decode_psi. rewrite run_bind, (run_get_image _ _ _ Hσ).
    by rewrite decide_True.
  - unfold SteganoMode._decode_phi. rewrite run_bind, (run_get_image _ _ _ Hσ).
    destruct (im_size im) as [w h]. unfold try_except. rewrite run_bind.
    rewrite (for_in_ext _ (read_rows img phi_read w)) by (intros; apply phi_rows_ext).
    destruct (read_rows_empty_or_fails img im phi_read σ Hσ) with (w := w) (ys := range h)
      as [->|[e ->]]; [|done|done].
    intros p Hp. destruct (unpack3_wrong p (wrong_bands im p Hsh Hm Hp)) as [e He].
    exists e. unfold phi_read. by rewrite He.
  - unfold SteganoMode._decode_tau. rewrite run_bind, (run_get_image _ _ _ Hσ).
    destruct (im_size im) as [w h]. unfold try_except. rewrite run_bind.
    rewrite (for_in_ext _ (read_rows img tau_read w)) by (intros; apply tau_rows_ext).
    destruct (read_rows_empty_or_fails img im tau_read σ Hσ) with (w := w) (ys := range h)
      as [->|[e ->]]; [|done|done].
    intros p Hp. destruct (unpack3_wrong p (wrong_bands im p Hsh Hm Hp)) as [e He].
    exists e. unfold tau_read. by rewrite He.
Qed.

Lemma length_bits_of w n : length (bits_of w n) = w.
Proof. unfold bits_of. by rewrite length_fmap, length_reverse, length_seq. Qed.

Lemma length_digits n : (8 ≤ length (digits n))%nat.
Proof. unfold digits. rewrite length_bits_of. lia. Qed.

Lemma binary_of_nonempty s : s ≠ [] → binary_of s ≠ [].
Proof.
  destruct s as [|c s]; [done|]. intros _ E. apply (f_equal length) in E.
  rewrite binary_of_bits, length_fmap, payload_bits_cons, length_app in E.
  pose proof (length_digits (ord c)). cbn in E. lia.
Qed.

Section write_fails.
Context (img : ref) (im : Image) (upd : pixel → ascii → Result pixel) (σ : World).
Hypothesis Hσ : images σ !! img = Some im.
Hypothesis Hupd : ∀ p bit, p ∈ im_data im → ∃ e, upd p bit = Raise e.

Lemma write_step_fails cap target i bit :
  i < cap → ∃ e, write_step img cap target upd (i, bit) () σ = (Raise e, σ).
Proof.
  intros Hi. unfold write_step. rewrite geb_false by done.
  rewrite run_bind, run_lift. destruct (target i) as [xy|e]; [|by eexists].
  rewrite run_bind.
  destruct (getpixel_elem img xy σ im Hσ) as [(p & -> & Hp)|(e & ->)];
    [|by eexists].
  destruct (Hupd p bit Hp) as [e He]. rewrite run_bind, run_lift, He. by eexists.
Qed.

Lemma write_loop_wrong cap target cs :
  (cs = [] ∨ cap ≤ 0 →
     for_in (write_step img cap target upd) (enumerate cs) () σ = (Ok (), σ))
  ∧ (cs ≠ [] → 0 < cap →
     ∃ e, for_in (write_step img cap target upd) (enumerate cs) () σ = (Raise e, σ)).
Proof.
  destruct cs as [|c cs]; [by split|]. split.
  - intros [|Hcap]; [done|]. cbn [enumerate enumerate_from for_in].
    rewrite run_bind. unfold write_step at 1. by rewrite geb_true by lia.
  - intros _ Hcap. cbn [enumerate enumerate_from for_in]. rewrite run_bind.
    destruct (write_step_fails cap target 0 c Hcap) as [e ->]. by eexists.
Qed.
End write_fails.

Lemma wrong_format_loop m img im σ cap target s :
  images σ !! img = Some im → shape_ok im = true → bands (im_mode im) ≠ 3%nat →
  m ≠ PSI →
  (∃ b, try_except
          (for_in (write_step img cap target (mode_upd m)) (enumerate (binary_of s)) ();;
           mret true) (λ _, mret false) σ = (Ok b, σ))
  ∧ (s ≠ [] → 0 < cap →
     try_except
       (for_in (write_step img cap target (mode_upd m)) (enumerate (binary_of s)) ();;
        mret true) (λ _, mret false) σ = (Ok false, σ)).
Proof.
  intros Hσ Hok Hm Hpsi.
  assert (Hupd : ∀ p bit, p ∈ im_data im → ∃ e, mode_upd m p bit = Raise e).
  { intros p bit Hp. destruct (unpack3_wrong p (wrong_bands im p Hok Hm Hp)) as [e He].
    exists e. destruct m; [done|..]; cbn [mode_upd]; unfold phi_upd, tau_upd;
      by rewrite He. }
  destruct (write_loop_wrong img im (mode_upd m) σ Hσ Hupd cap target (binary_of s))
    as [H1 H2].
  split.
  - unfold try_except. rewrite run_bind.
    destruct (decide (binary_of s = [] ∨ cap ≤ 0)) as [Hc|Hc].
    + rewrite (H1 Hc). by eexists.
    + destruct H2 as [e ->]; [tauto|lia|]. by eexists.
  - intros Hs Hcap. unfold try_except. rewrite run_bind.
    destruct H2 as [e ->]; [by apply binary_of_nonempty|done|done].
Qed.

(** X4: φ and τ encode on an image whose pixels do not have three bands (L,
    LA, RGBA, CMYK, ...) never write a pixel and never raise: the image and
    the rest of the world are as before, and when there is a payload and
    the image has a pixel the result is False. *)
Theorem encode_wrong_format_fails m σ img im s :
  m ≠ PSI →
  images σ !! img = Some im →
  image_ok im = true →
  bands (im_mode im) ≠ 3%nat →
  (∀ positions, ∃ b, SteganoMode.encode m img s positions σ = (Ok b, σ))
  ∧ (s ≠ [] → 0 < (im_size im).1 * (im_size im).2 →
     ∀ positions, SteganoMode.encode m img s positions σ = (Ok false, σ)).
Proof.
  intros Hpsi Hσ Hok Hm. pose proof (image_ok_shape _ Hok) as Hsh.
  assert (∀ positions, ∃ cap target,
            (cap = (im_size im).1 * (im_size im).2 ∨ 0 < cap)
            ∧ SteganoMode.encode m img s positions σ
              = try_except
                  (for_in (write_step img cap target (mode_upd m))
                     (enumerate (binary_of s)) ();; mret true)
                  (λ _, mret false) σ) as Hshape.
  { intros positions. destruct m; [done|..]; cbn [SteganoMode.encode mode_upd].
    - unfold SteganoMode._encode_phi. destruct positions as [[|pos0 pos']|].
      + exists ((im_size im).1 * (im_size im).2), (raster_target (im_size im).1).
        split; [by left|]. unfold try_except. rewrite !run_bind.
        rewrite (run_get_image _ _ _ Hσ). destruct (im_size im) as [w h]. cbn [fst snd].
        by rewrite (for_in_ext _ (write_step img (w * h) (raster_target w) phi_upd))
          by (intros; apply phi_body_ext).
      + exists (len (pos0 :: pos')), (list_target (pos0 :: pos')).
        split; [right; unfold len; cbn [length]; lia|]. unfold try_except.
        rewrite !run_bind.
        by rewrite (for_in_ext _ (write_step img (len (pos0 :: pos'))
                                    (list_target (pos0 :: pos')) phi_upd))
          by (intros; apply phi_list_body_ext).
      + exists ((im_size im).1 * (im_size im).2), (raster_target (im_size im).1).
        split; [by left|]. unfold try_except. rewrite !run_bind.
        rewrite (run_get_image _ _ _ Hσ). destruct (im_size im) as [w h]. cbn [fst snd].
        by rewrite (for_in_ext _ (write_step img (w * h) (raster_target w) phi_upd))
          by (intros; apply phi_body_ext).
    - unfold SteganoMode._encode_tau.
      exists ((im_size im).1 * (im_size im).2), (raster_target (im_size im).1).
      split; [by left|]. rewrite run_bind, (run_get_image _ _ _ Hσ).
      destruct (im_size im) as [w h]. cbn [fst snd]. unfold try_except. rewrite !run_bind.
      by rewrite (for_in_ext _ (write_step img (w * h) (raster_target w) tau_upd))
        by (intros; apply tau_body_ext). }
  split.
  - intros positions. destruct (Hshape positions) as (cap & target & _ & ->).
    exact (proj1 (wrong_format_loop m img im σ cap target s Hσ Hsh Hm Hpsi)).
  - intros Hs Hpix positions. destruct (Hshape positions) as (cap & target & Hcap & ->).
    apply (proj2 (wrong_format_loop m img im σ cap target s Hσ Hsh Hm Hpsi)); [done|].
    by destruct Hcap as [->|].
Qed.

Section write_stops.
Context (img : ref) (mode : ImageMode) (size : Z * Z).
Context (target : Z → Result (Z * Z)) (upd : pixel → ascii → Result pixel).
Context (f : pixel → bool → pixel).
Hypothesis upd_ok : ∀ p b, length p = bands mode →
  upd p (bitchar b) = Ok (f p b) ∧ length (f p b) = bands mode.

(** The loop meets, after [ks] good targets, one outside the image. *)
Lemma write_loop_stops cap : ∀ (ks : list nat) (bits : list bool) (i0 : Z)
    (data : list pixel) (σ : World) xy,
  images σ !! img = Some (mkImage mode size data) →
  Forall (λ p, length p = bands mode) data →
  (∀ (j : nat) k, ks !! j = Some k →
     (k < length data)%nat ∧
     ∃ xy, target (i0 + Z.of_nat j) = Ok xy ∧ pixel_index size xy = Some k) →
  (length ks < length bits)%nat →
  i0 + len ks < cap →
  target (i0 + len ks) = Ok xy → pixel_index size xy = None →
  for_in (write_step img cap target upd)
    (enumerate_from i0 (bitchar <$> bits)) () σ
  = (Raise IndexError,
     with_data σ img (mkImage mode size data) (write_all f data ks bits)).
Proof.
  induction ks as [|k ks IH]; intros bits i0 data σ xy Hσ Hdata Hks Hlen Hcap Hxy Hout.
  - destruct bits as [|b bits]; [cbn in Hlen; lia|].
    cbn [fmap list_fmap enumerate_from for_in write_all].
    unfold len in *. cbn [length] in *. rewrite Z.add_0_r in *.
    rewrite run_bind. unfold write_step at 1.
    rewrite geb_false by lia. rewrite run_bind, run_lift, Hxy.
    rewrite run_bind. unfold getpixel. rewrite run_bind, (run_get_image _ _ _ Hσ).
    cbn [im_size]. rewrite Hout.
    pose proof (with_data_id _ _ _ Hσ) as E; cbn in E; by rewrite E.
  - destruct bits as [|b bits]; [cbn in Hlen; lia|].
    cbn [fmap list_fmap enumerate_from for_in write_all].
    destruct (Hks 0%nat k eq_refl) as [Hk (xy0 & Hxy0 & Hidx)].
    rewrite Z.add_0_r in Hxy0.
    destruct (lookup_lt_is_Some_2 data k Hk) as [p Hp].
    assert (Hlp : length p = bands mode).
    { eapply Forall_lookup_1 in Hdata; eauto. }
    destruct (upd_ok p b Hlp) as [Hupd Hlp'].
    unfold len in *. cbn [length] in *.
    rewrite run_bind. unfold write_step at 1.
    rewrite geb_false by lia.
    rewrite run_bind, run_lift, Hxy0.
    rewrite run_bind, (run_getpixel _ _ _ _ _ _ Hσ Hidx Hp).
    rewrite run_bind, run_lift, Hupd.
    rewrite run_bind, (run_putpixel _ _ _ _ _ _ Hσ Hidx Hlp').
    rewrite run_ret. cbn [im_data im_mode im_size].
    set (data' := <[k := f p b]> data).
    set (σ' := with_data _ _ _ _).
    assert (Hσ' : images σ' !! img = Some (mkImage mode size data')).
    { subst σ'. by rewrite (with_data_lookup _ _ _ _ Hσ). }
    rewrite (IH bits (i0 + 1) data' σ' xy Hσ').
    + f_equal. subst σ'. rewrite with_data_twice by done. f_equal.
      subst data'. f_equal. rewrite list_insert_alter.
      apply list_eq; intros j. destruct (decide (j = k)) as [->|].
      * rewrite !list_lookup_alter_eq, Hp. done.
      * by rewrite !list_lookup_alter_ne.
    + subst data'. apply Forall_insert; auto.
    + intros j k' Hj. destruct (Hks (S j) k' Hj) as [Hk' (xy' & Hxy' & Hidx')].
      split; [subst data'; by rewrite length_insert|].
      exists xy'. split; [|done]. rewrite <- Hxy'. f_equal. lia.
    + lia.
    + unfold len. lia.
    + rewrite <- Hxy. f_equal. unfold len. lia.
    + done.
Qed.
End write_stops.

Lemma encode_phi_with_positions img s positions σ :
  positions ≠ [] →
  SteganoMode._encode_phi img s (Some positions) σ
  = try_except
      (for_in (write_step img (len positions) (list_target positions) phi_upd)
         (enumerate (binary_of s)) ();; mret true)
      (λ _, mret false) σ.
Proof.
  destruct positions as [|pos0 pos']; [done|]. intros _.
  unfold SteganoMode._encode_phi, try_except. rewrite !run_bind.
  by rewrite (for_in_ext _ (write_step img (len (pos0 :: pos'))
                              (list_target (pos0 :: pos')) phi_upd))
    by (intros; apply phi_list_body_ext).
Qed.

(** X5: φ encode with explicit positions does not roll back. When the
    positions start with in-range ones and then name a pixel outside the
    image, and the payload has a bit for that position, encode returns False
    and the bits written for the positions before it stay in the image. *)
Theorem encode_phi_keeps_partial_write σ img im s good bad rest ks :
  images σ !! img = Some im →
  image_ok im = true →
  im_mode im = RGB →
  position_indices (im_size im) good = Some ks →
  pixel_index (im_size im) bad = None →
  (length good < length (binary_of s))%nat →
  ∃ data',
    SteganoMode.encode PHI img s (Some (good ++ bad :: rest)) σ
    = (Ok false, with_data σ img im data')
    ∧ data' = write_all phi_write (im_data im) ks (payload_bits s)
    ∧ (∀ k : nat, k ∉ ks → data' !! k = im_data im !! k)
    ∧ (NoDup ks → ∀ (j k : nat) b p,
         ks !! j = Some k → payload_bits s !! j = Some b →
         im_data im !! k = Some p → data' !! k = Some (phi_write p b)).
Proof.
  intros Hσ Hok Hmode Hks Hbad Hlen.
  pose proof (shape_ok_inv _ (image_ok_shape _ Hok)) as (Hw & Hh & Hl & Hshape).
  destruct im as [mode [w h] data]. cbn [im_mode im_size im_data fst snd] in *.
  subst mode. eexists. split; [|split; [reflexivity|split]].
  - cbn [SteganoMode.encode].
    rewrite encode_phi_with_positions by (by destruct good).
    set (positions := good ++ bad :: rest).
    unfold position_indices in Hks. apply mapM_Some in Hks.
    pose proof (Forall2_length _ _ _ Hks) as Hgk.
    rewrite binary_of_bits, length_fmap in Hlen. rewrite binary_of_bits.
    unfold try_except. rewrite run_bind. unfold enumerate.
    rewrite (write_loop_stops img RGB (w, h) (list_target positions) phi_upd
               phi_write phi_upd_ok (len positions) ks (payload_bits s) 0 data σ bad
               Hσ Hshape); [done|..].
    + intros j k Hj. rewrite Z.add_0_l.
      destruct (Forall2_lookup_r _ _ _ _ _ Hks Hj) as (xy & Hxy & Hidx).
      split; [rewrite Hl; by eapply pixel_index_lt|].
      exists xy. split; [|done]. unfold list_target. rewrite Nat2Z.id.
      subst positions. by rewrite (lookup_app_l_Some _ _ _ _ Hxy).
    + lia.
    + subst positions. unfold len. rewrite length_app. cbn [length]. lia.
    + unfold list_target, len. rewrite Z.add_0_l, Nat2Z.id. subst positions.
      by rewrite <- Hgk, list_lookup_middle.
    + done.
  - intros k Hk. apply write_all_untouched. intros Hin. apply Hk.
    by apply elem_of_take in Hin as (i & Hi & _); eapply list_elem_of_lookup_2.
  - intros; by eapply write_all_written.
Qed.

End wrong_formats.

Section wrong_formats_examples.

(** Examples run with the converters spelled out in [pil_converter]. *)
#[local] Existing Instance plain_pillow.

Lemma decode_wrong_format_is_empty_witness :
  let σ := mkWorld [mkImage CMYK (2, 1) [[1; 2; 3; 4]; [5; 6; 7; 8]]] ∅ [] in
  SteganoMode.decode PHI 0%nat σ = (Ok [], σ).
Proof.
  intros σ.
  apply (decode_wrong_format_is_empty PHI σ 0%nat
           (mkImage CMYK (2, 1) [[1; 2; 3; 4]; [5; 6; 7; 8]])).
  - reflexivity.
  - reflexivity.
  - discriminate.
Defined.

Lemma encode_wrong_format_fails_witness :
  let σ := mkWorld [mkImage L (2, 1) [[7]; [9]]] ∅ [] in
  (∀ positions, ∃ b, SteganoMode.encode TAU 0%nat [65%N] positions σ = (Ok b, σ))
  ∧ ([65%N] ≠ [] → 0 < 2 * 1 →
     ∀ positions, SteganoMode.encode TAU 0%nat [65%N] positions σ = (Ok false, σ)).
Proof.
  intros σ.
  apply (encode_wrong_format_fails TAU σ 0%nat (mkImage L (2, 1) [[7]; [9]]) [65%N]).
  - discriminate.
  - reflexivity.
  - reflexivity.
  - discriminate.
Defined.

Lemma encode_phi_keeps_partial_write_witness :
  ∃ data',
    SteganoMode.encode PHI 0%nat [255%N] (Some ([(1, 0)] ++ (2, 0) :: [(0, 0)]))
      (mkWorld [pair21] ∅ [])
    = (Ok false, with_data (mkWorld [pair21] ∅ []) 0%nat pair21 data')
    ∧ data' = [[0; 0; 0]; [1; 0; 0]].
Proof.
  destruct (encode_phi_keeps_partial_write (mkWorld [pair21] ∅ []) 0%nat pair21 [255%N]
              [(1, 0)] (2, 0) [(0, 0)] [1%nat]
              eq_refl eq_refl eq_refl eq_refl eq_refl ltac:(vm_compute; lia))
    as (d & H1 & H2 & _).
  exists d. split; [done|]. subst d. reflexivity.
Defined.

End wrong_formats_examples.

(** ** How the modes compose *)

Section composition.

(** PIL's remaining converters are arbitrary. *)
Context {pil : Pillow}.

(** X6: on an RGBA image ψ decoding reads bit 0 of alpha from each of the
    first [min 512 (width × height)] pixels in raster order and returns one
    character per complete group of eight bits, most significant bit first;
    fewer than eight pixels give the empty string and 512 or more give
    exactly 64 characters. The image is not changed. *)
Theorem decode_psi_reads_alpha σ img im :
  images σ !! img = Some im →
  image_ok im = true →
  im_mode im = RGBA →
  let bits := alpha_lsb <$> take 512 (im_data im) in
  ∃ t, SteganoMode.decode PSI img σ = (Ok t, σ)
    ∧ length t = (Nat.min 512 (length (im_data im)) / 8)%nat
    ∧ (∀ j : nat, (j < length t)%nat →
         t !! j = Some (Z.to_N (bits_value (take 8 (drop (8 * j) bits)))))
    ∧ ((im_size im).1 * (im_size im).2 < 8 → t = [])
    ∧ (512 ≤ (im_size im).1 * (im_size im).2 → length t = 64%nat).
Proof.
  intros Hσ Hok Hmode bits.
  pose proof (image_ok_shape _ Hok) as Hsh.
  pose proof (shape_ok_inv _ Hsh) as (Hw & Hh & Hl & Hshape).
  rewrite (decode_spec PSI σ img im Hσ Hsh Hmode). cbn [pixel_read]. fold bits.
  assert (Hbits : length bits = Nat.min 512 (length (im_data im)))
    by (subst bits; by rewrite length_fmap, length_take).
  exists (bytes_of bits). rewrite length_bytes_of, Hbits.
  split; [done|]. split; [done|]. split; [|split].
  - intros j Hj. unfold bytes_of at 1. rewrite list_lookup_fmap.
    by rewrite lookup_seq_lt by (by rewrite Hbits).
  - intros Hcap. apply length_zero_iff_nil. rewrite length_bytes_of, Hbits.
    apply Nat.div_small. lia.
  - intros Hcap. by rewrite Nat.min_l by lia.
Qed.

Lemma lsb_twice a b1 b2 :
  Z.lor (Z.land (Z.lor (Z.land a (Z.lnot 1)) (Z.b2z b1)) (Z.lnot 1)) (Z.b2z b2)
  = Z.lor (Z.land a (Z.lnot 1)) (Z.b2z b2).
Proof.
  apply Z.bits_inj'. intros j Hj.
  rewrite (write_lsb_spec _ b2 j Hj), (write_lsb_spec a b2 j Hj).
  destruct (j =? 0) eqn:E; [done|]. by rewrite (write_lsb_spec a b1 j Hj), E.
Qed.

Lemma bit1_twice r b1 b2 :
  Z.lor (Z.land (Z.lor (Z.land r (Z.lnot 3)) (Z.shiftl (Z.b2z b1) 1)) (Z.lnot 3))
    (Z.shiftl (Z.b2z b2) 1)
  = Z.lor (Z.land r (Z.lnot 3)) (Z.shiftl (Z.b2z b2) 1).
Proof.
  apply Z.bits_inj'. intros j Hj.
  rewrite (write_bit1_spec _ b2 j Hj), (write_bit1_spec r b2 j Hj).
  destruct (j =? 1) eqn:E1; [done|]. destruct (j =? 0) eqn:E0; [done|].
  by rewrite (write_bit1_spec r b1 j Hj), E1, E0.
Qed.

Lemma pixel_write_twice m p b1 b2 :
  pixel_write m (pixel_write m p b1) b2 = pixel_write m p b2.
Proof.
  destruct m; cbn [pixel_write].
  - destruct p as [|r [|g [|b [|a [|]]]]]; try done.
    cbn [psi_write]. by rewrite lsb_twice.
  - destruct p as [|r [|g [|b [|]]]]; try done.
    cbn [phi_write]. by rewrite lsb_twice.
  - destruct p as [|r [|g [|b [|]]]]; try done.
    cbn [tau_write]. by rewrite bit1_twice, lsb_twice.
Qed.

Lemma overlay_twice f : ∀ data b1 b2,
  (∀ p x y, f (f p x) y = f p y) →
  (length b1 ≤ length b2)%nat →
  overlay f (overlay f data b1) b2 = overlay f data b2.
Proof.
  intros data b1 b2 Hf. revert b1 b2.
  induction data as [|p data IH]; intros b1 b2 Hl; [by destruct b1|].
  destruct b1 as [|x b1]; [done|].
  destruct b2 as [|y b2]; [cbn in Hl; lia|].
  cbn [overlay]. rewrite Hf, IH; [done|cbn in Hl; lia].
Qed.

(** X7: with the default raster placement, on an image in the mode's pixel
    format, a second encode whose binary string is at least as long as the
    first one's replaces the first payload entirely: the image is the one
    the second encode alone would have produced. In particular encoding the
    same payload twice changes nothing more. *)
Theorem encode_overwrites_earlier_payload m σ img im s1 s2 :
  images σ !! img = Some im →
  image_ok im = true →
  im_mode im = required_mode m →
  (length (binary_of s1) ≤ length (binary_of s2))%nat →
  (SteganoMode.encode m img s1 None;; SteganoMode.encode m img s2 None) σ
  = SteganoMode.encode m img s2 None σ
  ∧ (SteganoMode.encode m img s2 None;; SteganoMode.encode m img s2 None) σ
    = SteganoMode.encode m img s2 None σ.
Proof.
  intros Hσ Hok Hm Hlen. pose proof (image_ok_shape _ Hok) as Hsh.
  rewrite !binary_of_bits, !length_fmap in Hlen.
  assert (∀ s, (length (payload_bits s) ≤ length (payload_bits s2))%nat →
            (SteganoMode.encode m img s None;; SteganoMode.encode m img s2 None) σ
            = SteganoMode.encode m img s2 None σ) as H.
  { intros s Hs.
    rewrite run_bind, (encode_spec m σ img im s None Hσ Hsh Hm) by by left.
    set (σ1 := with_data _ _ _ _).
    rewrite (encode_spec m σ1 img (mkImage (im_mode im) (im_size im)
               (overlay (pixel_write m) (im_data im) (payload_bits s))) s2 None);
      [|by apply with_data_lookup|by apply shape_ok_overlay; destruct im|done|by left].
    rewrite (encode_spec m σ img im s2 None Hσ Hsh Hm) by by left.
    cbn [im_data]. subst σ1. rewrite with_data_twice by done.
    by rewrite overlay_twice by (done || apply pixel_write_twice). }
  split; [by apply H|by apply H].
Qed.

Lemma testbit_1_div2 r : Z.testbit r 1 = Z.testbit (r `div` 2) 0.
Proof.
  change 2 with (2 ^ 1). rewrite <- Z.shiftr_div_pow2 by lia.
  by rewrite Z.shiftr_spec by lia.
Qed.

Lemma low_bits_phi_red_bit1 p p' : low_bits_only PHI p p' → red_bit1 p' = red_bit1 p.
Proof.
  cbn. destruct p as [|r [|g [|b [|]]]]; try by intros ->.
  destruct p' as [|r' [|g' [|b' [|]]]]; try by intros [= <-].
  intros (H & _ & _). cbn [red_bit1]. by rewrite !testbit_1_div2, H.
Qed.

Lemma encode_phi_total img s positions σ :
  ∃ b σ', SteganoMode._encode_phi img s positions σ = (Ok b, σ').
Proof.
  unfold SteganoMode._encode_phi. cbv zeta. apply try_except_total.
  intros; by eexists _, _.
Qed.

(** X8: a φ payload is invisible to the τ decoder. On an RGB image, whatever
    φ encode does (any payload, any positions, success or failure), decoding
    under τ afterwards returns exactly what it returned before. *)
Theorem phi_encode_invisible_to_tau σ img im s positions :
  images σ !! img = Some im →
  image_ok im = true →
  im_mode im = RGB →
  ∃ b σ',
    SteganoMode.encode PHI img s positions σ = (Ok b, σ')
    ∧ SteganoMode.decode TAU img σ' = ((SteganoMode.decode TAU img σ).1, σ').
Proof.
  intros Hσ Hok Hmode. pose proof (image_ok_shape _ Hok) as Hsh.
  destruct (encode_phi_total img s positions σ) as (b & σ' & Henc).
  exists b, σ'. split; [done|].
  destruct (encode_related PHI σ img im s positions _ _ Hσ Hsh Henc)
    as (data' & Hσ' & Hall).
  pose proof (low_bits_image_ok PHI im data' Hok Hall) as Hok'.
  rewrite (decode_spec TAU σ' img _ Hσ' (image_ok_shape _ Hok') Hmode).
  rewrite (decode_spec TAU σ img im Hσ Hsh Hmode). cbn [fst im_data pixel_read].
  do 3 f_equal. rewrite !fmap_take. f_equal.
  apply list_eq. intros i. rewrite !list_lookup_fmap.
  destruct (data' !! i) as [p'|] eqn:Hp'.
  - destruct (Forall2_lookup_r _ _ _ _ _ Hall Hp') as (p & -> & HR).
    cbn. f_equal. by apply low_bits_phi_red_bit1.
  - apply lookup_ge_None in Hp'. rewrite <- (Forall2_length _ _ _ Hall) in Hp'.
    by rewrite (proj2 (lookup_ge_None _ _) Hp').
Qed.

Lemma red_lsb_tau_write p b : length p = 3%nat → red_lsb (tau_write p b) = false.
Proof.
  destruct p as [|r [|g [|bl [|]]]]; try done. intros _.
  cbn [tau_write red_lsb]. exact (write_bit1_spec r b 0 ltac:(lia)).
Qed.

Lemma read_phi_after_tau : ∀ bits (n : nat) data,
  Forall (λ p, length p = 3%nat) data →
  (length bits ≤ n)%nat → (length bits ≤ length data)%nat →
  red_lsb <$> take n (overlay tau_write data bits)
  = replicate (length bits) false
    ++ (red_lsb <$> take (n - length bits) (drop (length bits) data)).
Proof.
  induction bits as [|b bits IH]; intros n data Hd Hn Hl.
  - rewrite overlay_nil. cbn. by rewrite Nat.sub_0_r.
  - destruct data as [|p data]; [cbn in Hl; lia|].
    destruct n as [|n]; [cbn in Hn; lia|].
    apply Forall_cons in Hd as [Hp Hd]. cbn in Hn, Hl.
    cbn [overlay take fmap list_fmap length drop app Nat.sub replicate].
    rewrite red_lsb_tau_write by done. f_equal.
    apply IH; [done|lia..].
Qed.

Lemma bytes_of_zeros k rest :
  bytes_of (replicate (8 * k) false ++ rest) = replicate k 0%N ++ bytes_of rest.
Proof.
  induction k as [|k IH]; [done|].
  replace (8 * S k)%nat with (8 + 8 * k)%nat by lia.
  rewrite replicate_add, <- app_assoc, bytes_of_app8 by done.
  by rewrite IH.
Qed.

(** X9: a τ payload erases a φ payload. On an RGB image of at least 512
    pixels, after τ encode of at most 64 one-byte characters, decoding under
    φ returns 64 characters of which the first [len(payload)] are NUL:
    τ clears bit 0 of red in every pixel it writes. *)
Theorem tau_encode_erases_phi σ img im s :
  images σ !! img = Some im →
  image_ok im = true →
  im_mode im = RGB →
  512 ≤ (im_size im).1 * (im_size im).2 →
  (length s ≤ 64)%nat →
  byte_str s = true →
  ∃ t σ',
    (SteganoMode.encode TAU img s None;; SteganoMode.decode PHI img) σ = (Ok t, σ')
    ∧ length t = 64%nat
    ∧ take (length s) t = replicate (length s) 0%N.
Proof.
  intros Hσ Hok Hm Hcap Hlen Hs.
  pose proof (image_ok_shape _ Hok) as Hsh.
  pose proof (shape_ok_inv _ Hsh) as (Hw & Hh & Hl & Hshape).
  rewrite run_bind, (encode_spec TAU σ img im s None Hσ Hsh Hm) by by left.
  set (data' := overlay _ _ _). set (σ' := with_data _ _ _ _).
  assert (Hσ' : images σ' !! img = Some (mkImage (im_mode im) (im_size im) data'))
    by by apply with_data_lookup.
  rewrite (decode_spec PHI σ' img _ Hσ');
    [|by apply (shape_ok_overlay TAU); destruct im|done].
  cbn [im_data pixel_read pixel_write]. subst data'.
  pose proof (length_payload_bits s Hs) as Hbits.
  rewrite Hm in Hshape. cbn [bands] in Hshape.
  assert (Hdata : (512 ≤ length (im_data im))%nat) by (rewrite Hl; lia).
  rewrite (read_phi_after_tau _ 512 _ Hshape) by (rewrite Hbits; lia).
  rewrite Hbits, bytes_of_zeros.
  set (rest := red_lsb <$> _).
  assert (Hrest : length (bytes_of rest) = (64 - length s)%nat).
  { rewrite length_bytes_of. subst rest.
    rewrite length_fmap, length_take, length_drop.
    replace ((512 - 8 * length s) `min` (length (im_data im) - 8 * length s))%nat
      with (8 * (64 - length s))%nat by lia.
    rewrite Nat.mul_comm. apply Nat.div_mul. lia. }
  eexists _, _. split; [done|]. split.
  - rewrite length_app, length_replicate. lia.
  - by rewrite take_app_length' by (by rewrite length_replicate).
Qed.

End composition.

Section composition_examples.

(** Examples run with the converters spelled out in [pil_converter]. *)
#[local] Existing Instance plain_pillow.

Lemma decode_psi_reads_alpha_witness :
  SteganoMode.decode PSI 0%nat (mkWorld [alpha21] ∅ []) = (Ok [], mkWorld [alpha21] ∅ []).
Proof.
  destruct (decode_psi_reads_alpha (mkWorld [alpha21] ∅ []) 0%nat alpha21
              eq_refl eq_refl eq_refl) as (t & H1 & _ & _ & H2 & _).
  rewrite H1, H2; [done|]. cbn. lia.
Defined.

Lemma encode_overwrites_earlier_payload_witness :
  (SteganoMode.encode TAU 0%nat [65%N] None;; SteganoMode.encode TAU 0%nat [90%N] None)
    zeros512
  = SteganoMode.encode TAU 0%nat [90%N] None zeros512
  ∧ (SteganoMode.encode TAU 0%nat [90%N] None;; SteganoMode.encode TAU 0%nat [90%N] None)
      zeros512
    = SteganoMode.encode TAU 0%nat [90%N] None zeros512.
Proof.
  apply (encode_overwrites_earlier_payload TAU zeros512 0%nat
           (mkImage RGB (512, 1) (replicate 512 [0; 0; 0])) [65%N] [90%N]).
  - reflexivity.
  - vm_compute. reflexivity.
  - reflexivity.
  - vm_compute. lia.
Defined.

Lemma phi_encode_invisible_to_tau_witness :
  ∃ b σ',
    SteganoMode.encode PHI 0%nat [255%N] (Some [(0, 0); (7, 7)]) red3 = (Ok b, σ')
    ∧ SteganoMode.decode TAU 0%nat σ' = ((SteganoMode.decode TAU 0%nat red3).1, σ').
Proof.
  apply (phi_encode_invisible_to_tau red3 0%nat (mkImage RGB (1, 1) [[3; 0; 0]])
           [255%N] (Some [(0, 0); (7, 7)])); reflexivity.
Defined.

Lemma tau_encode_erases_phi_witness :
  ∃ t σ',
    (SteganoMode.encode TAU 0%nat [255%N; 255%N] None;; SteganoMode.decode PHI 0%nat)
      (mkWorld [mkImage RGB (512, 1) (replicate 512 [255; 255; 255])] ∅ []) = (Ok t, σ')
    ∧ length t = 64%nat
    ∧ take 2 t = [0%N; 0%N].
Proof.
  apply (tau_encode_erases_phi
           (mkWorld [mkImage RGB (512, 1) (replicate 512 [255; 255; 255])] ∅ []) 0%nat
           (mkImage RGB (512, 1) (replicate 512 [255; 255; 255])) [255%N; 255%N]).
  - reflexivity.
  - vm_compute. reflexivity.
  - reflexivity.
  - cbn. lia.
  - cbn. lia.
  - reflexivity.
Defined.

End composition_examples.

(** ** More on the checksum *)

Section checksum_fails.
Context (img : ref) (im : Image) (σ : World).
Hypothesis Hσ : images σ !! img = Some im.
Hypothesis Hok : shape_ok im = true.
Hypothesis Hmode : bands (im_mode im) ≠ 3%nat.

Lemma checksum_column_wrong x ys c :
  (ys = [] →
     for_in (λ (y : Z) (checksum : Z),
       p ← getpixel img (x, y);
       '(r, g, b) ← lift (unpack3 p);
       checksum ← lift (checksum_step checksum r g b);
       mret (Continue, checksum)) ys c σ = (Ok c, σ))
  ∧ (ys ≠ [] →
     ∃ e, for_in (λ (y : Z) (checksum : Z),
       p ← getpixel img (x, y);
       '(r, g, b) ← lift (unpack3 p);
       checksum ← lift (checksum_step checksum r g b);
       mret (Continue, checksum)) ys c σ = (Raise e, σ)).
Proof.
  destruct ys as [|y ys]; [by split|]. split; [done|]. intros _.
  cbn [for_in]. rewrite run_bind, run_bind.
  destruct (getpixel_elem img (x, y) σ im Hσ) as [(p & -> & Hp)|(e & ->)];
    [|by eexists].
  destruct (unpack3_wrong p (wrong_bands im p Hok Hmode Hp)) as [e He].
  rewrite run_bind, run_lift, He. by eexists.
Qed.

Lemma checksum_columns_wrong ys : ∀ xs c,
  (xs = [] ∨ ys = [] →
     for_in (λ (x : Z) (checksum : Z),
       checksum ← for_in (λ (y : Z) (checksum : Z),
         p ← getpixel img (x, y);
         '(r, g, b) ← lift (unpack3 p);
         checksum ← lift (checksum_step checksum r g b);
         mret (Continue, checksum)) ys checksum;
       mret (Continue, checksum)) xs c σ = (Ok c, σ))
  ∧ (xs ≠ [] → ys ≠ [] →
     ∃ e, for_in (λ (x : Z) (checksum : Z),
       checksum ← for_in (λ (y : Z) (checksum : Z),
         p ← getpixel img (x, y);
         '(r, g, b) ← lift (unpack3 p);
         checksum ← lift (checksum_step checksum r g b);
         mret (Continue, checksum)) ys checksum;
       mret (Continue, checksum)) xs c σ = (Raise e, σ)).
Proof.
  induction xs as [|x xs IH]; intros c; [by split|]. split.
  - intros [|Hys]; [done|]. cbn [for_in]. rewrite run_bind, run_bind.
    rewrite (proj1 (checksum_column_wrong x ys c) Hys). rewrite run_ret.
    apply (proj1 (IH c)). by right.
  - intros _ Hys. cbn [for_in]. rewrite run_bind, run_bind.
    destruct (proj2 (checksum_column_wrong x ys c) Hys) as [e ->]. by eexists.
Qed.
End checksum_fails.

Lemma range2_nil a b : range2 a b = [] ↔ b ≤ a.
Proof.
  unfold range2, seqZ. split.
  - intros E. apply (f_equal length) in E. rewrite length_fmap, length_seq in E.
    cbn in E. lia.
  - intros H. by replace (Z.to_nat (b - a)) with 0%nat by lia.
Qed.

(** X10: on an image whose pixels do not have three bands (L, LA, RGBA,
    CMYK, ...) calculate_checksum never raises and changes nothing: it
    returns the failure value -1 when the clamped region holds a pixel, and
    0 when the clamped region is empty. *)
Theorem calculate_checksum_wrong_format σ img im region :
  images σ !! img = Some im →
  image_ok im = true →
  bands (im_mode im) ≠ 3%nat →
  ∃ x1 y1 x2 y2,
    clamp_region (im_size im) region = (x1, y1, x2, y2)
    ∧ calculate_checksum img region σ
      = (Ok (if (x1 <? x2) && (y1 <? y2) then -1 else 0), σ).
Proof.
  intros Hσ Hok Hmode. pose proof (image_ok_shape _ Hok) as Hsh.
  destruct region as [[[a b] c] d]. destruct (im_size im) as [w h] eqn:Hsz.
  unfold clamp_region.
  set (x1 := Z.max 0 (Z.min a (w - 1))). set (x2 := Z.max x1 (Z.min c w)).
  set (y1 := Z.max 0 (Z.min b (h - 1))). set (y2 := Z.max y1 (Z.min d h)).
  exists x1, y1, x2, y2. split; [done|].
  unfold calculate_checksum. rewrite run_bind, (run_get_image _ _ _ Hσ), Hsz.
  fold x1 y1. fold x2 y2. unfold try_except.
  destruct (checksum_columns_wrong img im σ Hσ Hsh Hmode (range2 y1 y2) (range2 x1 x2) 0)
    as [H1 H2].
  destruct ((x1 <? x2) && (y1 <? y2)) eqn:E.
  - apply andb_true_iff in E as [Ex Ey]. apply Z.ltb_lt in Ex, Ey.
    destruct H2 as [e ->]; [rewrite range2_nil; lia..|done].
  - rewrite H1; [done|]. apply andb_false_iff in E as [E|E]; apply Z.ltb_ge in E;
      [left|right]; by apply range2_nil.
Qed.

(** X11: embed_checksum with a negative checksum writes nothing and reports
    nothing: the printed form starts with a minus sign, which is no binary
    digit. So the -1 that calculate_checksum returns on failure is embedded
    as a silent no-op. *)
Theorem embed_negative_checksum_is_noop σ img c :
  c < 0 → embed_checksum img c σ = (Ok (), σ).
Proof.
  intros Hc. unfold embed_checksum, format_08b.
  rewrite (proj2 (Z.ltb_lt c 0)) by done.
  cbn [enumerate enumerate_from for_in]. unfold try_except.
  change (py_mod 0 50) with (Ok 0). change (py_floordiv 0 50) with (Ok 0).
  repeat first [rewrite run_bind | rewrite run_lift | progress cbv beta iota].
  pose proof (getpixel_state img (0, 0) σ) as Hst.
  destruct (getpixel img (0, 0) σ) as [[p|e] σ1]; cbn in Hst; subst σ1; [|done].
  repeat first [rewrite run_bind | rewrite run_lift | progress cbv beta iota].
  destruct (unpack3 p) as [[[r g] b]|e]; [|done].
  by repeat first [rewrite run_bind | rewrite run_lift | progress cbv beta iota].
Qed.

Section extract_loop.
Context (img : ref) (σ : World).
Local Abbreviation extract_body :=
  (λ (i : Z) (binary_checksum : list ascii),
     x ← lift (py_mod i 50);
     y ← lift (py_floordiv i 50);
     p ← getpixel img (x, y);
     '(r, _, _) ← lift (unpack3 p);
     mret (Continue, binary_checksum ++ str_bit (Z.land r 1))).

Lemma extract_step i acc :
  extract_body i acc σ
  = match getpixel img (i `mod` 50, i `div` 50) σ with
    | (Ok [r; g; b], _) => (Ok (Continue, acc ++ str_bit (Z.land r 1)), σ)
    | (Ok [_], _) => (Raise TypeError, σ)
    | (Ok _, _) => (Raise ValueError, σ)
    | (Raise e, _) => (Raise e, σ)
    end.
Proof.
  cbv beta.
  change (py_mod i 50) with (Ok (i `mod` 50)).
  change (py_floordiv i 50) with (Ok (i `div` 50)).
  repeat first [rewrite run_bind | rewrite run_lift | progress cbv beta iota].
  pose proof (getpixel_state img (i `mod` 50, i `div` 50) σ) as Hst.
  destruct (getpixel img (i `mod` 50, i `div` 50) σ) as [[p|e] σ1];
    cbn in Hst; subst σ1; [|done].
  rewrite run_bind, run_lift.
  by destruct p as [|r [|g [|b [|]]]].
Qed.

Lemma extract_loop_inv l : ∀ acc,
  (for_in extract_body l acc σ).2 = σ
  ∧ ∀ bc, (for_in extract_body l acc σ).1 = Ok bc →
      ∀ i, i ∈ l → ∃ r g b,
        getpixel img (i `mod` 50, i `div` 50) σ = (Ok [r; g; b], σ).
Proof.
  induction l as [|i l IH]; intros acc.
  { split; [done|]. intros bc _ i Hi. by apply elem_of_nil in Hi. }
  cbn [for_in]. rewrite run_bind, extract_step.
  pose proof (getpixel_state img (i `mod` 50, i `div` 50) σ) as Hst.
  destruct (getpixel img (i `mod` 50, i `div` 50) σ) as [[p|e] σ1] eqn:E;
    cbn in Hst; subst σ1; [|by (cbn; split)].
  destruct p as [|r [|g [|b [|]]]]; try by (cbn; split).
  cbv iota.
  destruct (IH (acc ++ str_bit (Z.land r 1))) as [H1 H2]. split; [done|].
  intros bc Hbc j Hj. apply elem_of_cons in Hj as [->|Hj]; [by exists r, g, b|].
  by eapply H2.
Qed.
End extract_loop.

(** X12: extract_checksum never raises and changes nothing. On an RGB
    image at least 8 pixels wide and 1 high it returns a value between 0
    and 255, the eight red low bits of the first eight pixels read most
    significant first. On an image whose pixels do not have three bands,
    or that is less than 8 wide or 1 high, it returns the failure value
    -1. *)
Theorem extract_checksum_needs_header σ img im :
  images σ !! img = Some im →
  image_ok im = true →
  ∃ v, extract_checksum img σ = (Ok v, σ)
    ∧ (im_mode im = RGB → 8 ≤ (im_size im).1 → 1 ≤ (im_size im).2 →
       v = bits_value (red_lsb <$> take 8 (im_data im)) ∧ 0 ≤ v ≤ 255)
    ∧ (bands (im_mode im) ≠ 3%nat ∨ (im_size im).1 < 8 ∨ (im_size im).2 < 1 →
       v = -1).
Proof.
  intros Hσ Hok. pose proof (image_ok_shape _ Hok) as Hsh.
  pose proof (shape_ok_inv _ Hsh) as (Hw & Hh & Hl & Hshape).
  destruct im as [mode [w h] data]. cbn [im_mode im_size im_data fst snd] in *.
  destruct (decide (mode = RGB ∧ 8 ≤ w ∧ 1 ≤ h)) as [(-> & H8 & H1)|Hbad].
  - rewrite (extract_checksum_spec σ img w h data Hσ Hsh H8 H1).
    eexists. split; [done|]. split; [|intros [?|?]; [done|lia]].
    intros _ _ _. split; [done|].
    assert (8 ≤ w * h) by nia.
    pose proof (bits_value_bound (red_lsb <$> take 8 data)) as Hb.
    unfold len in Hb. rewrite length_fmap, length_take in Hb.
    replace (8 `min` length data)%nat with 8%nat in Hb by lia.
    change (2 ^ Z.of_nat 8) with 256 in Hb. lia.
  - unfold extract_checksum, try_except. rewrite run_bind.
    destruct (extract_loop_inv img σ (range 8) []) as [Hst Hinv].
    destruct (for_in _ (range 8) [] σ) as [[bc|e] σ1] eqn:E;
      cbn [fst snd] in Hst, Hinv; subst σ1;
      [|exists (-1); split; [done|]; split; [intros; exfalso; by apply Hbad|done]].
    specialize (Hinv bc eq_refl).
    assert (∀ i, 0 ≤ i < 8 → ∃ k r g b,
              pixel_index (w, h) (i, 0) = Some k ∧ data !! k = Some [r; g; b]) as Hpx.
    { intros i Hi. destruct (Hinv i) as (r & g & b & Hget).
      { apply elem_of_seqZ. lia. }
      rewrite Z.mod_small, Z.div_small in Hget by lia.
      apply getpixel_inv in Hget as (_ & im' & k & Him & Hk & Hp).
      rewrite Hσ in Him. injection Him as <-. by exists k, r, g, b. }
    assert (bands mode = 3%nat ∧ 8 ≤ w ∧ 1 ≤ h) as (Hb3 & H8 & H1).
    { destruct (Hpx 0 ltac:(lia)) as (k0 & r0 & g0 & b0 & Hk0 & Hp0).
      split; [|split].
      + by rewrite <- (Forall_lookup_1 _ _ _ _ Hshape Hp0).
      + destruct (decide (8 ≤ w)) as [|Hn]; [done|].
        destruct (Hpx w ltac:(lia)) as (k & r & g & b & Hk & _).
        unfold pixel_index in Hk.
        rewrite (proj2 (Z.ltb_ge w 0)), (proj2 (Z.ltb_ge w w)) in Hk by lia.
        by rewrite andb_false_r in Hk.
      + unfold pixel_index in Hk0. cbn [Z.ltb Z.compare] in Hk0.
        destruct (0 <? h) eqn:E0; [apply Z.ltb_lt in E0; lia|].
        by rewrite !andb_false_r in Hk0. }
    rewrite run_lift.
    destruct (int_base2 bc) as [v|e]; eexists; (split; [done|]);
      (split; [intros; exfalso; by apply Hbad|intros [?|[?|?]]; [done|lia..]]).
Qed.

Lemma header_target_row w h i :
  0 ≤ i < 50 → 1 ≤ h →
  header_target i = Ok (i, 0)
  ∧ pixel_index (w, h) (i, 0) = if i <? w then Some (Z.to_nat i) else None.
Proof.
  intros Hi Hh. unfold header_target, py_mod, py_floordiv. cbn.
  rewrite Z.mod_small, Z.div_small by lia. split; [done|].
  unfold pixel_index. rewrite (proj2 (Z.ltb_ge i 0)) by lia. cbn [Z.ltb Z.compare].
  rewrite (proj2 (Z.leb_le 0 i)), (proj2 (Z.ltb_lt 0 h)) by lia.
  destruct (i <? w); [|done]. cbn. f_equal; lia.
Qed.

(** X13: the header needs eight columns. On an RGB image less than 8
    pixels wide (and at least 1 high) embed_checksum stores only the first
    [width] binary digits of the checksum, in the red low bits of the first
    row, and returns without reporting that the rest did not fit. *)
Theorem embed_checksum_narrow_image σ img im c :
  images σ !! img = Some im →
  image_ok im = true →
  im_mode im = RGB →
  (im_size im).1 < 8 → 1 ≤ (im_size im).2 →
  0 ≤ c ≤ 255 →
  embed_checksum img c σ
  = (Ok (), with_data σ img im
              (overlay phi_write (im_data im)
                 (take (Z.to_nat (im_size im).1) (bits_of 8 c)))).
Proof.
  destruct im as [mode [w h] data]. cbn [im_mode im_size im_data fst snd].
  intros Hσ Hok -> Hw Hh Hc.
  pose proof (shape_ok_inv _ (image_ok_shape _ Hok)) as (Hw0 & _ & Hlen & Hshape).
  cbn [im_size im_data im_mode fst snd] in *.
  destruct (format_08b_byte c Hc) as (Hfmt & Hl & _).
  unfold embed_checksum. rewrite Hfmt. unfold try_except.
  rewrite (for_in_ext _ (write_step img 8 header_target phi_upd)).
  2:{ intros a s σ0 Hin. apply header_body_ext. destruct a as [i bit].
      apply enumerate_from_bound in Hin. unfold len in Hin.
      rewrite length_fmap, Hl in Hin. cbn [fst]. lia. }
  assert (w ≤ w * h) by nia.
  unfold enumerate.
  rewrite (write_loop_stops img RGB (w, h) header_target phi_upd phi_write phi_upd_ok
             8 (seq 0 (Z.to_nat w)) (bits_of 8 c) 0 data σ (w, 0) Hσ Hshape).
  - cbv iota. rewrite run_ret. do 2 f_equal.
    rewrite (write_all_seq phi_write data [] _ (Z.to_nat w)) by (rewrite Hlen; lia).
    done.
  - intros j k Hj. apply lookup_seq in Hj as [-> Hj].
    rewrite Nat.add_0_l, Z.add_0_l. split; [lia|].
    destruct (header_target_row w h (Z.of_nat j)) as [H1 H2]; [lia..|].
    eexists. split; [exact H1|]. rewrite H2, (proj2 (Z.ltb_lt _ _)) by lia.
    by rewrite Nat2Z.id.
  - rewrite length_seq, Hl. lia.
  - unfold len. rewrite length_seq. lia.
  - unfold len. rewrite length_seq, Z.add_0_l, Z2Nat.id by lia.
    by destruct (header_target_row w h w) as [H1 _]; [lia..|].
  - destruct (header_target_row w h w) as [_ H2]; [lia..|].
    by rewrite H2, Z.ltb_irrefl.
Qed.


(** X14: the checksum always fits its header. On an RGB image at least 8
    pixels wide and 1 high, for every region, computing the checksum,
    embedding it and extracting it again returns the computed value, which
    lies between 0 and 255. *)
Theorem checksum_self_check σ img im region :
  images σ !! img = Some im →
  image_ok im = true →
  im_mode im = RGB →
  8 ≤ (im_size im).1 → 1 ≤ (im_size im).2 →
  ∃ c σ',
    calculate_checksum img region σ = (Ok c, σ)
    ∧ 0 ≤ c ≤ 255
    ∧ (c ← calculate_checksum img region;
       embed_checksum img c;;
       extract_checksum img) σ = (Ok c, σ').
Proof.
  destruct im as [mode [w h] data]. cbn [im_mode im_size im_data fst snd].
  intros Hσ Hok -> Hw Hh.
  pose proof (image_ok_shape _ Hok) as Hsh.
  pose proof (shape_ok_inv _ Hsh) as (_ & _ & Hlen & Hshape).
  cbn [im_size im_data im_mode fst snd] in *.
  pose proof (calculate_checksum_spec σ img _ region Hσ Hok eq_refl) as Hcalc.
  set (c := fold_checksum _ _ 0) in Hcalc.
  assert (Hc : 0 ≤ c ≤ 255).
  { pose proof (fold_checksum_bound w h data
                  (column_major (clamp_region (w, h) region)) 0 ltac:(lia)). subst c.
    cbn [im_size] in *. lia. }
  exists c. eexists. split; [done|]. split; [done|].
  rewrite run_bind, Hcalc.
  rewrite run_bind, (embed_checksum_spec σ img w h data c Hσ Hsh Hw Hh Hc).
  rewrite (extract_checksum_spec _ img w h (overlay phi_write data (bits_of 8 c)));
    [|by apply with_data_lookup|by apply (shape_ok_overlay PHI)|done..].
  destruct (format_08b_byte c Hc) as (_ & Hl & Hv).
  assert (8 ≤ w * h) by nia.
  rewrite (read_overlay PHI _ 8 _ Hshape) by lia.
  by rewrite Hl, Nat.sub_diag, take_0, app_nil_r, Hv.
Qed.



Lemma calculate_checksum_wrong_format_witness :
  ∃ x1 y1 x2 y2,
    clamp_region (2, 1) (0, 0, 5, 5) = (x1, y1, x2, y2)
    ∧ calculate_checksum 0%nat (0, 0, 5, 5) (mkWorld [alpha21] ∅ [])
      = (Ok (if (x1 <? x2) && (y1 <? y2) then -1 else 0), mkWorld [alpha21] ∅ []).
Proof.
  apply (calculate_checksum_wrong_format (mkWorld [alpha21] ∅ []) 0%nat alpha21 (0, 0, 5, 5)).
  - reflexivity.
  - reflexivity.
  - discriminate.
Defined.

Lemma embed_negative_checksum_is_noop_witness :
  embed_checksum 0%nat (-1) (mkWorld [strip8] ∅ []) = (Ok (), mkWorld [strip8] ∅ []).
Proof. apply embed_negative_checksum_is_noop. lia. Defined.

Lemma extract_checksum_needs_header_witness :
  ∃ v, extract_checksum 0%nat (mkWorld [pair21] ∅ []) = (Ok v, mkWorld [pair21] ∅ [])
    ∧ v = -1.
Proof.
  destruct (extract_checksum_needs_header (mkWorld [pair21] ∅ []) 0%nat pair21
              eq_refl eq_refl) as (v & H1 & _ & H2).
  exists v. split; [done|]. apply H2. right. left. cbn. lia.
Defined.

Lemma embed_checksum_narrow_image_witness :
  embed_checksum 0%nat 255 (mkWorld [pair21] ∅ [])
  = (Ok (), mkWorld [mkImage RGB (2, 1) [[1; 0; 0]; [1; 0; 0]]] ∅ []).
Proof.
  rewrite (embed_checksum_narrow_image (mkWorld [pair21] ∅ []) 0%nat pair21 255);
    first [reflexivity | cbn; lia].
Defined.

Lemma checksum_self_check_witness :
  ∃ c σ',
    calculate_checksum 0%nat (0, 0, 8, 1) (mkWorld [strip8] ∅ [])
    = (Ok c, mkWorld [strip8] ∅ [])
    ∧ 0 ≤ c ≤ 255
    ∧ (c ← calculate_checksum 0%nat (0, 0, 8, 1);
       embed_checksum 0%nat c;;
       extract_checksum 0%nat) (mkWorld [strip8] ∅ []) = (Ok c, σ').
Proof.
  apply (checksum_self_check (mkWorld [strip8] ∅ []) 0%nat strip8 (0, 0, 8, 1));
    first [reflexivity | cbn; lia].
Defined.


(** ** Error codes and the salted hash *)

Section hashes.

(** PIL's remaining converters are arbitrary. *)
Context {pil : Pillow}.

(** X16: get_error_code tells the exception classes apart: two errors have
    the same code exactly when they are of the same class, every code lies
    between 1000 and 1007, and 1000 is the code of the base class
    QuantumStegoError alone. The message plays no part. *)
Theorem error_codes_identify_classes :
  (∀ e1 e2, exceptions.get_error_code e1 = exceptions.get_error_code e2
            ↔ exceptions.type e1 = exceptions.type e2)
  ∧ (∀ cls message,
       1000 ≤ exceptions.get_error_code (exceptions.new cls message) ≤ 1007
       ∧ (exceptions.get_error_code (exceptions.new cls message) = 1000
          ↔ cls = exceptions.QuantumStegoError)).
Proof.
  split.
  - intros [c1 t1 m1] [c2 t2 m2]. unfold exceptions.get_error_code. cbn.
    split; [|by intros ->].
    destruct c1, c2; intros Hc; first [reflexivity | vm_compute in Hc; discriminate Hc].
  - intros cls message. unfold exceptions.get_error_code. cbn.
    destruct cls;
      (split; [split; vm_compute; discriminate|]); split; intros Hc;
      first [reflexivity | vm_compute in Hc; discriminate Hc].
Qed.

Lemma utf8_char_encodable c :
  encodable c = true → ∃ b, utf8_char (ord c) = Ok b.
Proof.
  unfold encodable, utf8_char, ord. intros H.
  destruct (Z.of_N c <? 128); [by eexists|].
  destruct (Z.of_N c <? 2048); [by eexists|].
  destruct ((55296 <=? Z.of_N c) && (Z.of_N c <=? 57343)); [done|].
  destruct (Z.of_N c <? 65536); by eexists.
Qed.

Lemma utf8_char_surrogate c :
  encodable c = false → utf8_char (ord c) = Raise ValueError.
Proof.
  unfold encodable, utf8_char, ord. intros H. apply negb_false_iff in H.
  rewrite H. apply andb_true_iff in H as [H1 H2]. apply Z.leb_le in H1, H2.
  by rewrite (proj2 (Z.ltb_ge _ 128)), (proj2 (Z.ltb_ge _ 2048)) by lia.
Qed.

Lemma str_encode_encodable s :
  forallb encodable s = true → ∃ b, str_encode s = Ok b.
Proof.
  intros H. unfold str_encode.
  assert (∃ chunks, mapM (λ c, utf8_char (ord c)) s = Ok chunks) as [chunks ->];
    [|by eexists].
  induction s as [|c s IH]; [by eexists|].
  cbn [forallb] in H. apply andb_true_iff in H as [Hc Hs].
  destruct (utf8_char_encodable c Hc) as [b Hb]. destruct (IH Hs) as [chunks Hch].
  cbn. rewrite Hb. cbn. rewrite Hch. by eexists.
Qed.

Lemma str_encode_surrogate s :
  forallb encodable s = false → str_encode s = Raise ValueError.
Proof.
  intros H. unfold str_encode.
  assert (mapM (λ c, utf8_char (ord c)) s = Raise ValueError) as ->; [|done].
  induction s as [|c s IH]; [done|].
  cbn [forallb] in H. cbn.
  destruct (encodable c) eqn:Hc.
  - destruct (utf8_char_encodable c Hc) as [b ->]. cbn. by rewrite (IH H).
  - by rewrite (utf8_char_surrogate c Hc).
Qed.

Lemma length_bytes_hex b : length (bytes_hex b) = (2 * length b)%nat.
Proof.
  unfold bytes_hex. induction b as [|v b IH]; [done|].
  cbn. rewrite IH. lia.
Qed.

Lemma hex_digit_is_hex d : 0 ≤ d < 16 → is_hex (hex_digit d) = true.
Proof.
  intros Hd. unfold is_hex, hex_digit.
  destruct (Z.ltb_spec d 10).
  - apply orb_true_iff. left. apply andb_true_iff. split; apply N.leb_le; lia.
  - apply orb_true_iff. right. apply andb_true_iff. split; apply N.leb_le; lia.
Qed.

Lemma bytes_hex_is_hex b :
  Forall (λ v, 0 ≤ v < 256) b → forallb is_hex (bytes_hex b) = true.
Proof.
  unfold bytes_hex. induction 1 as [|v b Hv Hb IH]; [done|].
  cbn. rewrite !hex_digit_is_hex; [by cbn|..].
  - apply Z.mod_pos_bound. lia.
  - split; [apply Z.div_pos; lia|apply Z.div_lt_upper_bound; lia].
Qed.

Lemma forallb_take {A} (f : A → bool) n l :
  forallb f l = true → forallb f (take n l) = true.
Proof.
  revert n. induction l as [|a l IH]; intros [|n] H; try done.
  cbn in *. apply andb_true_iff in H as [-> H]. by apply IH.
Qed.

Lemma is_hex_byte_str s : forallb is_hex s = true → byte_str s = true.
Proof.
  unfold byte_str. induction s as [|c s IH]; [done|]. cbn.
  intros [Hc Hs]%andb_true_iff. rewrite (IH Hs), andb_true_r.
  unfold is_hex in Hc. apply N.ltb_lt.
  apply orb_true_iff in Hc as [Hc|Hc]; apply andb_true_iff in Hc as [_ Hc];
    apply N.leb_le in Hc; lia.
Qed.

Section pq_hash_facts.
Context (sha3_512 : list Z → list Z) (float_str : float → list Z).
Hypothesis sha3_512_length : ∀ b, length (sha3_512 b) = 64%nat.
Hypothesis sha3_512_bytes : ∀ b, Forall (λ v, 0 ≤ v < 256) (sha3_512 b).

Lemma generate_pq_hash_spec os_urandom data length :
  forallb encodable data = true →
  ∃ digest,
    generate_pq_hash sha3_512 float_str os_urandom data length
    = Ok (slice_to (bytes_hex (sha3_512 digest)) (default 64 length)).
Proof.
  intros Hd. unfold generate_pq_hash.
  destruct (str_encode_encodable data Hd) as [b ->]. cbn [mbind Result_bind].
  by eexists.
Qed.

(** X17: generate_pq_hash returns text for every string UTF-8 can encode,
    and raises ValueError (UnicodeEncodeError) for one with a surrogate.
    The text consists of lower-case hexadecimal digits only, and for a
    requested length between 0 and 128 it has exactly that many
    characters: 64 by default. A length above 128 gives 128. *)
Theorem generate_pq_hash_is_hex os_urandom data length :
  (forallb encodable data = true →
   ∃ h, generate_pq_hash sha3_512 float_str os_urandom data length = Ok h
     ∧ forallb is_hex h = true
     ∧ (0 ≤ default 64 length →
        len h = Z.min (default 64 length) 128))
  ∧ (forallb encodable data = false →
     generate_pq_hash sha3_512 float_str os_urandom data length = Raise ValueError).
Proof.
  split.
  - intros Hd. destruct (generate_pq_hash_spec os_urandom data length Hd) as [dg ->].
    eexists. split; [done|]. split.
    + unfold slice_to. apply forallb_take, bytes_hex_is_hex, sha3_512_bytes.
    + intros Hl. unfold slice_to, len.
      rewrite (proj2 (Z.ltb_ge _ 0)) by done.
      rewrite length_take, length_bytes_hex, sha3_512_length. lia.
  - intros Hd. unfold generate_pq_hash.
    by rewrite (str_encode_surrogate data Hd).
Qed.
End pq_hash_facts.

Lemma toy_digest_length b : length (toy_digest b) = 64%nat.
Proof. unfold toy_digest. by rewrite length_fmap, length_seqZ. Qed.

Lemma toy_digest_bytes b : Forall (λ v, 0 ≤ v < 256) (toy_digest b).
Proof.
  unfold toy_digest. apply Forall_fmap, Forall_forall. intros i _. cbn.
  apply Z.mod_pos_bound. lia.
Qed.

Lemma roundtrip_full m σ img im s :
  images σ !! img = Some im →
  image_ok im = true →
  im_mode im = required_mode m →
  512 ≤ (im_size im).1 * (im_size im).2 →
  length s = 64%nat →
  byte_str s = true →
  ∃ σ', (SteganoMode.encode m img s None;; SteganoMode.decode m img) σ = (Ok s, σ').
Proof.
  intros Hσ Hok Hm Hcap Hlen Hs.
  pose proof (image_ok_shape _ Hok) as Hsh.
  pose proof (shape_ok_inv _ Hsh) as (Hw & Hh & Hl & Hshape).
  rewrite run_bind, (encode_spec m σ img im s None Hσ Hsh Hm) by by left.
  set (data' := overlay _ _ _). set (σ' := with_data _ _ _ _).
  assert (Hσ' : images σ' !! img = Some (mkImage (im_mode im) (im_size im) data'))
    by by apply with_data_lookup.
  rewrite (decode_spec m σ' img _ Hσ'); [|by apply shape_ok_overlay; destruct im|done].
  cbn [im_data]. subst data'.
  pose proof (length_payload_bits s Hs) as Hbits.
  rewrite Hm in Hshape.
  assert (Hdata : (512 ≤ length (im_data im))%nat) by (rewrite Hl; lia).
  rewrite (read_overlay m _ 512 _ Hshape) by (rewrite Hbits; lia).
  rewrite bytes_of_payload by done.
  rewrite Hbits, Hlen. change (512 - 8 * 64)%nat with 0%nat. rewrite take_0.
  exists σ'. by rewrite app_nil_r.
Qed.

Section pq_hash_roundtrip.
Context (sha3_512 : list Z → list Z) (float_str : float → list Z).
Hypothesis sha3_512_length : ∀ b, length (sha3_512 b) = 64%nat.
Hypothesis sha3_512_bytes : ∀ b, Forall (λ v, 0 ≤ v < 256) (sha3_512 b).

(** X18: a hash of the default length is a payload the modes carry
    exactly. For every hash generate_pq_hash returns with its default
    length, every mode, and every image in the mode's pixel format with at
    least 512 pixels, decoding what encode wrote returns the hash itself:
    its 64 hexadecimal digits fill the 512 bits the decoders read. *)
Theorem default_hash_round_trips os_urandom data h m σ img im :
  generate_pq_hash sha3_512 float_str os_urandom data None = Ok h →
  images σ !! img = Some im →
  image_ok im = true →
  im_mode im = required_mode m →
  512 ≤ (im_size im).1 * (im_size im).2 →
  ∃ σ', (SteganoMode.encode m img h None;; SteganoMode.decode m img) σ = (Ok h, σ').
Proof.
  intros Hh Hσ Hok Hm Hcap.
  destruct (forallb encodable data) eqn:Hd.
  2:{ unfold generate_pq_hash in Hh. by rewrite (str_encode_surrogate data Hd) in Hh. }
  destruct (generate_pq_hash_spec sha3_512 float_str os_urandom data None Hd)
    as [dg Hspec].
  rewrite Hspec in Hh. injection Hh as <-. cbn [default].
  apply (roundtrip_full m σ img im); try done.
  - unfold slice_to. cbn [Z.ltb Z.compare]. rewrite length_take, length_bytes_hex.
    rewrite sha3_512_length. reflexivity.
  - apply is_hex_byte_str. unfold slice_to.
    apply forallb_take, bytes_hex_is_hex, sha3_512_bytes.
Qed.
End pq_hash_roundtrip.

End hashes.

Section hashes_examples.

(** Examples run with the converters spelled out in [pil_converter]. *)
#[local] Existing Instance plain_pillow.

Lemma generate_pq_hash_is_hex_witness :
  ∃ h, generate_pq_hash toy_digest (λ _, [46]) [1; 2; 3; 4; 5; 6; 7; 8]
         [105%N; 109%N; 103%N] None = Ok h
    ∧ forallb is_hex h = true
    ∧ len h = 64.
Proof.
  destruct (generate_pq_hash_is_hex toy_digest (λ _, [46]) toy_digest_length
              toy_digest_bytes [1; 2; 3; 4; 5; 6; 7; 8] [105%N; 109%N; 103%N] None)
    as [H _].
  destruct (H eq_refl) as (h & H1 & H2 & H3).
  exists h. split; [done|]. split; [done|]. apply H3. cbn. lia.
Defined.

Lemma default_hash_round_trips_witness :
  ∃ h σ',
    generate_pq_hash toy_digest (λ _, [46]) [1; 2; 3; 4; 5; 6; 7; 8]
      [105%N; 109%N; 103%N] None = Ok h
    ∧ (SteganoMode.encode TAU 0%nat h None;; SteganoMode.decode TAU 0%nat) zeros512
      = (Ok h, σ').
Proof.
  destruct (generate_pq_hash toy_digest (λ _, [46]) [1; 2; 3; 4; 5; 6; 7; 8]
              [105%N; 109%N; 103%N] None) as [h|e] eqn:Hh; [|by vm_compute in Hh].
  destruct (default_hash_round_trips toy_digest (λ _, [46]) toy_digest_length
              toy_digest_bytes [1; 2; 3; 4; 5; 6; 7; 8] [105%N; 109%N; 103%N] h TAU
              zeros512 0%nat (mkImage RGB (512, 1) (replicate 512 [0; 0; 0])) Hh
              eq_refl eq_refl eq_refl ltac:(cbn; lia)) as [σ' H].
  by exists h, σ'.
Defined.

End hashes_examples.

(** ** The entropy pool *)

Lemma ST_run_bind {Σ A B} (f : A → ST Σ B) (m : ST Σ A) s :
  ST_bind f m s = match m s with
                  | (Ok a, s') => f a s'
                  | (Raise e, s') => (Raise e, s')
                  end.
Proof. reflexivity. Qed.

Section entropy.
Context {ndarray : Type}.
Local Abbreviation State := (@QuantumFeatures.State ndarray).
Local Abbreviation get_quantum_entropy := (@QuantumFeatures.get_quantum_entropy ndarray).

Lemma replenish_spec (s : State) :
  QuantumFeatures._replenish_entropy_pool s
  = (Ok (), QuantumFeatures.mkState (QuantumFeatures.np_random s)
              (QuantumFeatures.np_drawn s + 1024)
              (QuantumFeatures.entropy_pool s ++ fresh_entropy s)
              (QuantumFeatures.last_quantum_state s)).
Proof. reflexivity. Qed.

Lemma get_quantum_entropy_run size (s : State) :
  get_quantum_entropy size s
  = let size := default 1 size in
    let s1 := if len (QuantumFeatures.entropy_pool s) <? size
              then QuantumFeatures.mkState (QuantumFeatures.np_random s)
                     (QuantumFeatures.np_drawn s + 1024)
                     (QuantumFeatures.entropy_pool s ++ fresh_entropy s)
                     (QuantumFeatures.last_quantum_state s)
              else s in
    (Ok (slice_to (QuantumFeatures.entropy_pool s1) size),
     QuantumFeatures.mkState (QuantumFeatures.np_random s1)
       (QuantumFeatures.np_drawn s1)
       (slice_from (QuantumFeatures.entropy_pool s1) size)
       (QuantumFeatures.last_quantum_state s1)).
Proof.
  unfold QuantumFeatures.get_quantum_entropy. cbv zeta.
  unfold mbind, QuantumFeatures.State_bind. rewrite ST_run_bind.
  unfold ST_get at 1. cbv iota beta. rewrite ST_run_bind.
  destruct (len (QuantumFeatures.entropy_pool s) <? default 1 size); reflexivity.
Qed.

(** X19: get_quantum_entropy never loses or repeats a value. For a
    non-negative size it returns the first [size] values of the pool,
    after one replenishment by 1024 fresh values when the pool was shorter
    than [size], and leaves the rest in the pool. It returns exactly
    [size] values when [size] is at most the pool plus 1024, and otherwise
    only what there is, emptying the pool: a request can be served short. *)
Theorem get_quantum_entropy_hands_out_prefix size (s : State) :
  0 ≤ size →
  let pool := QuantumFeatures.entropy_pool s in
  let avail := if len pool <? size then pool ++ fresh_entropy s else pool in
  ∃ values s',
    get_quantum_entropy (Some size) s = (Ok values, s')
    ∧ values ++ QuantumFeatures.entropy_pool s' = avail
    ∧ len values = Z.min size (len avail)
    ∧ (size ≤ len pool + 1024 → len values = size)
    ∧ (len pool + 1024 < size →
       len values = len pool + 1024 ∧ QuantumFeatures.entropy_pool s' = [])
    ∧ (size ≤ len pool → QuantumFeatures.np_drawn s' = QuantumFeatures.np_drawn s)
    ∧ QuantumFeatures.last_quantum_state s' = QuantumFeatures.last_quantum_state s.
Proof.
  intros Hsize pool avail. rewrite get_quantum_entropy_run.
  change (default 1 (Some size)) with size. cbv zeta.
  assert (Hfresh : length (fresh_entropy s) = 1024%nat).
  { unfold fresh_entropy, QuantumFeatures.phi_modulate.
    by rewrite !length_fmap, length_seq. }
  subst avail pool. unfold len.
  destruct (Z.ltb_spec (Z.of_nat (length (QuantumFeatures.entropy_pool s))) size)
    as [Hlt|Hge];
    cbn [QuantumFeatures.entropy_pool QuantumFeatures.np_drawn
         QuantumFeatures.np_random QuantumFeatures.last_quantum_state];
    eexists _, _; (split; [reflexivity|]);
    unfold slice_to, slice_from; rewrite (proj2 (Z.ltb_ge size 0)) by done;
    cbn [QuantumFeatures.entropy_pool QuantumFeatures.np_drawn
         QuantumFeatures.last_quantum_state];
    (split; [apply take_drop|]); rewrite length_take, ?length_app, ?Hfresh.
  - split; [lia|]. split; [lia|]. split.
    + intros Hbig. split; [lia|]. apply drop_ge. rewrite length_app, Hfresh. lia.
    + split; [lia|done].
  - split; [lia|]. split; [lia|]. split; [lia|]. by split.
Qed.
End entropy.

Section superposition.
Context {ndarray : Type}.
Context (superpose : ndarray → list float → Result ndarray).
Local Abbreviation State := (@QuantumFeatures.State ndarray).

Lemma fresh_entropy_lookup (s : State) (j : nat) :
  (j < 1024)%nat →
  fresh_entropy s !! j
  = Some (float_mod1 (QuantumFeatures.np_random s (QuantumFeatures.np_drawn s + j)%nat
                      * phi)%float).
Proof.
  intros Hj. unfold fresh_entropy, QuantumFeatures.phi_modulate.
  by rewrite !list_lookup_fmap, lookup_seq_lt.
Qed.

Lemma entropy_next (s : State) :
  ∃ s', QuantumFeatures.get_quantum_entropy None s = (Ok [entropy_stream s 0], s')
    ∧ (∀ i, entropy_stream s' i = entropy_stream s (S i))
    ∧ QuantumFeatures.last_quantum_state s' = QuantumFeatures.last_quantum_state s.
Proof.
  rewrite get_quantum_entropy_run. change (default 1 None) with 1. cbv zeta.
  unfold len, entropy_stream.
  destruct (QuantumFeatures.entropy_pool s) as [|v rest] eqn:Hpool.
  - change (Z.of_nat (length (@nil float)) <? 1) with true. cbv iota.
    cbn [QuantumFeatures.entropy_pool QuantumFeatures.np_drawn
         QuantumFeatures.np_random QuantumFeatures.last_quantum_state app].
    unfold slice_to, slice_from. change (1 <? 0) with false. cbv iota.
    change (Z.to_nat 1) with 1%nat.
    pose proof (fresh_entropy_lookup s 0 ltac:(lia)) as H0.
    destruct (fresh_entropy s) as [|f0 fr] eqn:Hfr; [done|]. cbn in H0.
    injection H0 as H0. cbn [take drop lookup list_lookup length Nat.sub].
    rewrite H0, Nat.add_0_r.
    eexists. split; [reflexivity|]. split; [|done]. intros i.
    cbn [QuantumFeatures.entropy_pool QuantumFeatures.np_drawn
         QuantumFeatures.np_random]. rewrite drop_0.
    destruct (decide (i < 1023)%nat) as [Hi|Hi].
    + pose proof (fresh_entropy_lookup s (S i) ltac:(lia)) as Hs.
      rewrite Hfr in Hs. change ((f0 :: fr) !! S i) with (fr !! i) in Hs.
      rewrite Hs. do 3 f_equal.
    + assert (length fr = 1023%nat) as Hl.
      { assert (length (fresh_entropy s) = 1024%nat) as E
          by (unfold fresh_entropy, QuantumFeatures.phi_modulate;
              by rewrite !length_fmap, length_seq).
        rewrite Hfr in E. cbn in E. lia. }
      rewrite (proj2 (lookup_ge_None fr i)) by lia. rewrite Hl. do 3 f_equal. lia.
  - replace (Z.of_nat (length (v :: rest)) <? 1) with false
      by (symmetry; apply Z.ltb_ge; cbn [length]; lia).
    cbv iota. rewrite Hpool.
    unfold slice_to, slice_from. change (1 <? 0) with false. cbv iota.
    change (Z.to_nat 1) with 1%nat. cbn [take drop lookup list_lookup].
    eexists. split; [reflexivity|]. split; [|done]. intros i.
    cbn [QuantumFeatures.entropy_pool QuantumFeatures.np_drawn
         QuantumFeatures.np_random length Nat.sub].
    done.
Qed.

Local Abbreviation loop_body data :=
  (λ (i : Z) (states : list ndarray),
     QuantumFeatures.State_bind _ _
       (λ phase, QuantumFeatures.State_bind _ _
          (λ state, QuantumFeatures.State_ret _ (states ++ [state]))
          (ST_lift (superpose data phase)))
       (QuantumFeatures.get_quantum_entropy None)).

Lemma superposition_loop_ok data (l : list Z) : ∀ (s : State) states,
  (∀ j : nat, (j < length l)%nat → ∃ a, superpose data [entropy_stream s j] = Ok a) →
  ∃ new s',
    ST_for (loop_body data) l states s = (Ok (states ++ new), s')
    ∧ length new = length l
    ∧ (∀ j : nat, (j < length l)%nat →
         ∃ a, new !! j = Some a ∧ superpose data [entropy_stream s j] = Ok a)
    ∧ (∀ i, entropy_stream s' i = entropy_stream s (length l + i))
    ∧ QuantumFeatures.last_quantum_state s' = QuantumFeatures.last_quantum_state s.
Proof.
  induction l as [|i l IH]; intros s states Hall.
  { exists [], s. rewrite app_nil_r. repeat split; try done.
    intros j Hj. cbn in Hj. lia. }
  cbn [ST_for]. rewrite ST_run_bind.
  unfold QuantumFeatures.State_bind at 1. rewrite ST_run_bind.
  destruct (entropy_next s) as (s1 & -> & Hshift & Hlqs).
  unfold QuantumFeatures.State_bind at 1. rewrite ST_run_bind. unfold ST_lift at 1.
  destruct (Hall 0%nat ltac:(cbn; lia)) as [a Ha]. rewrite Ha.
  unfold QuantumFeatures.State_ret at 1, ST_ret at 1.
  destruct (IH s1 (states ++ [a])) as (new & s' & Hrun & Hlen & Hnew & Hstream & Hl).
  { intros j Hj. rewrite Hshift. apply Hall. cbn. lia. }
  exists (a :: new), s'. split; [by rewrite Hrun, <- app_assoc|].
  split; [cbn; lia|]. split; [|split].
  - intros [|j] Hj; [by exists a|]. cbn in Hj.
    destruct (Hnew j ltac:(lia)) as (b & Hb & Hsb). exists b. split; [done|].
    by rewrite <- Hshift.
  - intros k. rewrite Hstream, Hshift. f_equal; cbn; lia.
  - congruence.
Qed.

Lemma superposition_loop_fails data (l : list Z) : ∀ (s : State) states (j : nat) e,
  (j < length l)%nat → superpose data [entropy_stream s j] = Raise e →
  ∃ e' s', ST_for (loop_body data) l states s = (Raise e', s').
Proof.
  induction l as [|i l IH]; intros s states j e Hj He; [cbn in Hj; lia|].
  cbn [ST_for]. rewrite ST_run_bind.
  unfold QuantumFeatures.State_bind at 1. rewrite ST_run_bind.
  destruct (entropy_next s) as (s1 & -> & Hshift & Hlqs).
  unfold QuantumFeatures.State_bind at 1. rewrite ST_run_bind. unfold ST_lift at 1.
  destruct (superpose data [entropy_stream s 0]) as [a|e0] eqn:H0; [|by eexists _, _].
  unfold QuantumFeatures.State_ret at 1, ST_ret at 1.
  destruct j as [|j]; [congruence|].
  apply (IH s1 (states ++ [a]) j e); [cbn in Hj; lia|]. by rewrite Hshift.
Qed.

(** X20: get_superposition_state never runs out of entropy and uses each
    value once, in order. State [j] is built from value [j] of the entropy
    stream (the pool, then the generator's outputs φ-modulated, 1024 drawn
    whenever the pool is empty); when every state can be built it returns
    exactly [num_states] of them and the stream has advanced by that many,
    and when one cannot it raises QuantumStateError, whatever the cause. *)
Theorem superposition_uses_stream_in_order data num_states (s : State) :
  0 ≤ num_states →
  ((∀ j : nat, Z.of_nat j < num_states →
      ∃ a, superpose data [entropy_stream s j] = Ok a) →
   ∃ states s',
     QuantumFeatures.get_superposition_state superpose data (Some num_states) s
     = (Ok states, s')
     ∧ len states = num_states
     ∧ (∀ j : nat, Z.of_nat j < num_states →
          ∃ a, states !! j = Some a ∧ superpose data [entropy_stream s j] = Ok a)
     ∧ (∀ i, entropy_stream s' i = entropy_stream s (Z.to_nat num_states + i)))
  ∧ (∀ (j : nat) e, Z.of_nat j < num_states →
       superpose data [entropy_stream s j] = Raise e →
       ∃ s', QuantumFeatures.get_superposition_state superpose data
               (Some num_states) s = (Raise QuantumStateError, s')).
Proof.
  intros Hn. unfold QuantumFeatures.get_superposition_state.
  change (default 2 (Some num_states)) with num_states. cbv zeta.
  unfold mbind, mret.
  assert (Hlen : length (range num_states) = Z.to_nat num_states).
  { unfold range, range2. rewrite length_seqZ. lia. }
  split.
  - intros Hall.
    destruct (superposition_loop_ok data (range num_states) s [])
      as (new & s' & Hrun & Hl & Hnew & Hstream & _).
    { intros j Hj. apply Hall. lia. }
    exists new, s'. unfold ST_try. rewrite Hrun. cbn [app].
    split; [done|]. split; [unfold len; lia|]. split.
    + intros j Hj. apply Hnew. lia.
    + intros i. by rewrite Hstream, Hlen.
  - intros j e Hj He.
    destruct (superposition_loop_fails data (range num_states) s [] j e)
      as (e' & s' & Hrun); [lia|done|].
    exists s'. unfold ST_try. by rewrite Hrun.
Qed.
End superposition.

Lemma get_quantum_entropy_hands_out_prefix_witness :
  ∃ values s',
    QuantumFeatures.get_quantum_entropy (Some 2) pool3 = (Ok values, s')
    ∧ values ++ QuantumFeatures.entropy_pool s' = [0.125%float; 0.5%float; 0.75%float]
    ∧ len values = 2.
Proof.
  destruct (get_quantum_entropy_hands_out_prefix 2 pool3 ltac:(lia))
    as (values & s' & H1 & H2 & H3 & _).
  by exists values, s'.
Defined.

Lemma superposition_uses_stream_in_order_witness :
  ∃ states s',
    QuantumFeatures.get_superposition_state (λ data phase, Ok (data ++ phase)) []
      (Some 5)
      (QuantumFeatures.mkState (λ _, 0.25%float) 0 [0.125%float; 0.5%float] None)
    = (Ok states, s')
    ∧ len states = 5.
Proof.
  destruct (superposition_uses_stream_in_order (ndarray := list float)
              (λ data phase, Ok (data ++ phase)) [] 5
              (QuantumFeatures.mkState (λ _, 0.25%float) 0 [0.125%float; 0.5%float] None)
              ltac:(lia)) as [H _].
  destruct H as (states & s' & H1 & H2 & _); [by eexists|].
  by exists states, s'.
Defined.

(** ** The metadata recorder *)

Lemma str_lt_irrefl a : str_lt a a = false.
Proof. induction a as [|x a IH]; [done|]. cbn. by rewrite N.ltb_irrefl. Qed.

Lemma str_lt_flip a : ∀ b, a ≠ b → str_lt a b = negb (str_lt b a).
Proof.
  induction a as [|x a IH]; intros [|y b] Hne; try done.
  cbn. destruct (N.ltb_spec x y) as [Hxy|Hxy].
  - by rewrite (proj2 (N.ltb_ge y x)) by lia.
  - destruct (N.ltb_spec y x) as [Hyx|Hyx]; [done|].
    assert (x = y) as -> by lia. apply IH. congruence.
Qed.

Lemma str_lt_trans a : ∀ b c, str_lt a b = true → str_lt b c = true → str_lt a c = true.
Proof.
  induction a as [|x a IH]; intros [|y b] [|z c]; try done.
  cbn. destruct (N.ltb_spec x y) as [Hxy|Hxy].
  - intros _. destruct (N.ltb_spec y z) as [Hyz|Hyz].
    + intros _. by rewrite (proj2 (N.ltb_lt x z)) by lia.
    + destruct (N.ltb_spec z y) as [Hzy|Hzy]; [done|]. intros _.
      by rewrite (proj2 (N.ltb_lt x z)) by lia.
  - destruct (N.ltb_spec y x) as [Hyx|Hyx]; [done|]. assert (x = y) as -> by lia.
    intros Hab. destruct (N.ltb_spec y z) as [Hyz|Hyz]; [done|].
    destruct (N.ltb_spec z y) as [Hzy|Hzy]; [done|]. by apply IH.
Qed.

(** X21: _classify_transition orders the hashes. It answers "stable"
    exactly for equal hashes; for different ones it answers "progressive"
    one way round exactly when it answers "regressive" the other way round;
    and "progressive" is transitive. There is no fourth answer. *)
Theorem classify_transition_is_an_order :
  (∀ a b, QuantumMetadata._classify_transition a b = "stable"%string ↔ a = b)
  ∧ (∀ a b, QuantumMetadata._classify_transition a b = "progressive"%string
            ↔ QuantumMetadata._classify_transition b a = "regressive"%string)
  ∧ (∀ a b c,
       QuantumMetadata._classify_transition a b = "progressive"%string →
       QuantumMetadata._classify_transition b c = "progressive"%string →
       QuantumMetadata._classify_transition a c = "progressive"%string)
  ∧ (∀ a b, QuantumMetadata._classify_transition a b
            ∈ ["stable"; "progressive"; "regressive"]%string).
Proof.
  unfold QuantumMetadata._classify_transition. split; [|split; [|split]].
  - intros a b. split.
    + destruct (decide (a = b)); [done|]. by destruct (str_lt a b).
    + intros ->. by rewrite decide_True.
  - intros a b. split.
    + destruct (decide (a = b)) as [->|Hne]; [done|].
      rewrite decide_False by congruence. rewrite (str_lt_flip a b Hne).
      by destruct (str_lt b a).
    + destruct (decide (b = a)) as [->|Hne]; [done|].
      rewrite decide_False by congruence. rewrite (str_lt_flip a b) by congruence.
      by destruct (str_lt b a).
  - intros a b c Hab Hbc.
    destruct (decide (a = b)) as [|Hab']; [done|].
    destruct (decide (b = c)) as [|Hbc']; [done|].
    destruct (str_lt a b) eqn:E1; [|done]. destruct (str_lt b c) eqn:E2; [|done].
    pose proof (str_lt_trans a b c E1 E2) as E3.
    destruct (decide (a = c)) as [->|]; [by rewrite str_lt_irrefl in E3|].
    by rewrite E3.
  - intros a b. destruct (decide (a = b)); [set_solver|].
    destruct (str_lt a b); set_solver.
Qed.

Section metadata.
Context {ndarray : Type}.
Context (isoformat : nat → string) (tobytes : ndarray → list Z)
        (sha3_512_hexdigest : list Z → list N)
        (corrcoef_phi : ndarray → Result float)
        (np_mean np_std np_max np_min : list float → float).

#[local] Existing Instance QuantumMetadata.State_ret.
#[local] Existing Instance QuantumMetadata.State_bind.

Local Abbreviation record_quantum_state :=
  (QuantumMetadata.record_quantum_state isoformat tobytes sha3_512_hexdigest
     corrcoef_phi).

Lemma record_quantum_state_run state s :
  record_quantum_state state s
  = (Raise NameError,
     QuantumMetadata.mkState (S (QuantumMetadata.clock s))
       (QuantumMetadata.creation_time s) (QuantumMetadata.quantum_states s)
       (QuantumMetadata.phi_modulation_history s)
       (QuantumMetadata.state_transitions s)).
Proof. reflexivity. Qed.

Lemma record_attempts_keep_attributes (l : list ndarray) : ∀ s,
  ∃ s', ST_for (λ state (_ : unit), ST_try (record_quantum_state state)
                                      (λ _, ST_ret ())) l () s = (Ok (), s')
    ∧ QuantumMetadata.quantum_states s' = QuantumMetadata.quantum_states s
    ∧ QuantumMetadata.phi_modulation_history s'
      = QuantumMetadata.phi_modulation_history s
    ∧ QuantumMetadata.state_transitions s' = QuantumMetadata.state_transitions s.
Proof.
  induction l as [|state l IH]; intros s; [by exists s|].
  cbn [ST_for]. rewrite ST_run_bind. unfold ST_try at 1.
  rewrite record_quantum_state_run. unfold ST_ret at 1.
  destruct (IH (QuantumMetadata.mkState (S (QuantumMetadata.clock s))
       (QuantumMetadata.creation_time s) (QuantumMetadata.quantum_states s)
       (QuantumMetadata.phi_modulation_history s)
       (QuantumMetadata.state_transitions s))) as (s' & -> & H1 & H2 & H3).
  by exists s'.
Qed.

(** X22: QuantumMetadata.record_quantum_state cannot record anything. The
    module uses hashlib without importing it, so hashing the state raises
    NameError before the entry is appended: every call raises NameError
    and leaves the three histories as they were. Hence on an object fresh
    from its constructor, after any number of attempts, the state history
    and the transition history are empty and the φ-modulation statistics
    are the four zeros. *)
Theorem record_quantum_state_always_raises :
  (∀ state s, ∃ s',
     record_quantum_state state s = (Raise NameError, s')
     ∧ QuantumMetadata.quantum_states s' = QuantumMetadata.quantum_states s
     ∧ QuantumMetadata.phi_modulation_history s'
       = QuantumMetadata.phi_modulation_history s
     ∧ QuantumMetadata.state_transitions s' = QuantumMetadata.state_transitions s)
  ∧ (∀ (attempts : list ndarray) s, ∃ s',
       (QuantumMetadata.__init__ isoformat;;
        ST_for (λ state (_ : unit), ST_try (record_quantum_state state)
                                      (λ _, ST_ret ())) attempts ();;
        history ← QuantumMetadata.get_state_history;
        transitions ← QuantumMetadata.get_transition_history;
        stats ← QuantumMetadata.get_phi_modulation_stats np_mean np_std np_max np_min;
        mret (history, transitions, stats)) s
       = (Ok ([], [], QuantumMetadata.mkStats 0 0 0 0), s')).
Proof.
  split.
  - intros state s. rewrite record_quantum_state_run. by eexists.
  - intros attempts s. unfold mbind, QuantumMetadata.State_bind.
    rewrite ST_run_bind.
    set (s0 := QuantumMetadata.mkState (S (QuantumMetadata.clock s))
                 (isoformat (QuantumMetadata.clock s)) [] [] []).
    change (QuantumMetadata.__init__ isoformat s) with (Ok (), s0).
    cbv iota. rewrite ST_run_bind.
    destruct (record_attempts_keep_attributes attempts s0) as (s' & -> & H1 & H2 & H3).
    cbv iota. exists s'. unfold QuantumMetadata.get_state_history,
      QuantumMetadata.get_transition_history, QuantumMetadata.get_phi_modulation_stats.
    unfold mbind, mret, QuantumMetadata.State_bind, QuantumMetadata.State_ret.
    unfold ST_bind, ST_get, ST_ret. cbv beta iota.
    rewrite H1, H2, H3. reflexivity.
Qed.
End metadata.

(** ** Files, the log and the codec *)

Section codec_files_and_log.

(** PIL's remaining converters are arbitrary. *)
Context {pil : Pillow}.








Section codec_files.
Context {ndarray : Type}.
Context (validate_content : string → Result bool)
        (apply_quantum_transform : list (list Z) → Result ndarray)
        (np_uint8 : ndarray → list (list Z))
        (get_superposition_state : list (list Z) → Result (list ndarray))
        (record_quantum_state : ndarray → Result unit)
        (temporal_analyzer : bool)
        (analyze_pattern : ndarray → Result unit)
        (validate_pattern : list (list Z) → Result bool)
        (generate_pq_hash : string → Result (list N))
        (save_check : string → Image → Result unit).

Local Abbreviation encode_body :=
  (QuantumSteganography.encode_body apply_quantum_transform np_uint8
     get_superposition_state record_quantum_state temporal_analyzer
     analyze_pattern generate_pq_hash save_check).
Local Abbreviation encode :=
  (QuantumSteganography.encode validate_content apply_quantum_transform np_uint8
     get_superposition_state record_quantum_state temporal_analyzer
     analyze_pattern generate_pq_hash save_check).
Local Abbreviation decode_body :=
  (QuantumSteganography.decode_body apply_quantum_transform np_uint8
     record_quantum_state temporal_analyzer validate_pattern generate_pq_hash).
Local Abbreviation decode :=
  (QuantumSteganography.decode apply_quantum_transform np_uint8
     record_quantum_state temporal_analyzer validate_pattern generate_pq_hash).




End codec_files.

Section failing_recorder.
Context {ndarray : Type}.
Context (validate_content : string → Result bool)
        (apply_quantum_transform : list (list Z) → Result ndarray)
        (np_uint8 : ndarray → list (list Z))
        (get_superposition_state : list (list Z) → Result (list ndarray))
        (record_quantum_state : ndarray → Result unit)
        (temporal_analyzer : bool)
        (analyze_pattern : ndarray → Result unit)
        (validate_pattern : list (list Z) → Result bool)
        (generate_pq_hash : string → Result (list N))
        (save_check : string → Image → Result unit).
Hypothesis record_raises : ∀ a, ∃ e, record_quantum_state a = Raise e.



End failing_recorder.

Section codec_with_metadata.
Context {ndarray : Type}.
Context (validate_content : string → Result bool)
        (apply_quantum_transform : list (list Z) → Result ndarray)
        (np_uint8 : ndarray → list (list Z))
        (get_superposition_state : list (list Z) → Result (list ndarray))
        (temporal_analyzer : bool)
        (analyze_pattern : ndarray → Result unit)
        (validate_pattern : list (list Z) → Result bool)
        (generate_pq_hash : string → Result (list N))
        (save_check : string → Image → Result unit).
Context (isoformat : nat → string) (tobytes : ndarray → list Z)
        (sha3_512_hexdigest : list Z → list N)
        (corrcoef_phi : ndarray → Result float).

End codec_with_metadata.

End codec_files_and_log.

(** ** What a round trip returns *)

Section round_trips.

(** PIL's remaining converters are arbitrary. *)
Context {pil : Pillow}.

Lemma overlay_app f : ∀ data b1 b2,
  (length b1 ≤ length data)%nat →
  overlay f data (b1 ++ b2)
  = overlay f (take (length b1) data) b1 ++ overlay f (drop (length b1) data) b2.
Proof.
  induction data as [|p data IH]; intros b1 b2 Hl.
  - destruct b1; [by destruct b2|cbn in Hl; lia].
  - destruct b1 as [|x b1]; [done|]. cbn in Hl. cbn. f_equal. apply IH. lia.
Qed.

Lemma payload_bits_app s1 s2 : payload_bits (s1 ++ s2) = payload_bits s1 ++ payload_bits s2.
Proof.
  induction s1 as [|c s1 IH]; [done|].
  cbn [app]. by rewrite !payload_bits_cons, IH, app_assoc.
Qed.

Lemma byte_str_app s1 s2 : byte_str (s1 ++ s2) = byte_str s1 && byte_str s2.
Proof. unfold byte_str. apply forallb_app. Qed.

(** X26: what a round trip returns in general. On an image in the mode's
    pixel format, for a payload of one-byte characters, decoding what the
    default encode wrote returns [min 512 (width × height) / 8] characters,
    and they begin with the payload's first [k] characters, [k] being that
    number or the payload's length if smaller. So a payload longer than 64
    characters comes back cut to 64, and one that does not fit the image
    comes back cut to what fits; encode returns True in each case. *)
Theorem roundtrip_returns_what_fits m σ img im s :
  images σ !! img = Some im →
  image_ok im = true →
  im_mode im = required_mode m →
  byte_str s = true →
  ∃ t σ',
    SteganoMode.encode m img s None σ = (Ok true, σ')
    ∧ SteganoMode.decode m img σ' = (Ok t, σ')
    ∧ length t = (Nat.min 512 (length (im_data im)) / 8)%nat
    ∧ take (Nat.min (length s) (length t)) t = take (Nat.min (length s) (length t)) s.
Proof.
  intros Hσ Hok Hm Hs.
  pose proof (image_ok_shape _ Hok) as Hsh.
  pose proof (shape_ok_inv _ Hsh) as (Hw & Hh & Hl & Hshape).
  rewrite (encode_spec m σ img im s None Hσ Hsh Hm) by by left.
  set (σ' := with_data _ _ _ _).
  cut (∃ t, SteganoMode.decode m img σ' = (Ok t, σ')
         ∧ length t = (Nat.min 512 (length (im_data im)) / 8)%nat
         ∧ take (Nat.min (length s) (length t)) t
           = take (Nat.min (length s) (length t)) s).
  { intros (t & ? & ?). by exists t, σ'. }
  assert (Hσ' : images σ' !! img
                = Some (mkImage (im_mode im) (im_size im)
                          (overlay (pixel_write m) (im_data im) (payload_bits s))))
    by by apply with_data_lookup.
  rewrite (decode_spec m σ' img _ Hσ'); [|by apply shape_ok_overlay; destruct im|done].
  cbn [im_data]. eexists. split; [reflexivity|].
  set (data := im_data im) in *. set (n := Nat.min 512 (length data)).
  assert (Hlt : length (bytes_of (pixel_read m <$>
                          take 512 (overlay (pixel_write m) data (payload_bits s))))
                = (n / 8)%nat).
  { by rewrite length_bytes_of, length_fmap, length_take, length_overlay. }
  split; [done|]. rewrite Hlt.
  set (k := Nat.min (length s) (n / 8)).
  pose proof (Nat.div_mod_eq n 8) as Hdm.
  pose proof (Nat.mod_upper_bound n 8 ltac:(lia)) as Hmod.
  assert (Hk8 : (8 * k ≤ n)%nat) by lia.
  rewrite <- (take_drop k s) at 1. rewrite payload_bits_app.
  rewrite <- (take_drop k s), byte_str_app in Hs. apply andb_true_iff in Hs as [Hs1 Hs2].
  pose proof (length_payload_bits _ Hs1) as Hb1.
  rewrite length_take in Hb1. replace (k `min` length s)%nat with k in Hb1 by lia.
  rewrite overlay_app by (rewrite Hb1; lia). rewrite Hb1.
  rewrite take_app_ge by (rewrite length_overlay, length_take; lia).
  rewrite length_overlay, length_take.
  replace (8 * k `min` length data)%nat with (8 * k)%nat by lia.
  rewrite fmap_app.
  rewrite Hm in Hshape.
  rewrite <- (take_ge (overlay (pixel_write m) (take (8 * k) data)
                         (payload_bits (take k s))) (8 * k))
    by (rewrite length_overlay, length_take; lia).
  rewrite (read_overlay m _ (8 * k) _ (Forall_take _ _ _ Hshape))
    by (rewrite ?length_take, Hb1; lia).
  rewrite Hb1, Nat.sub_diag, take_0, app_nil_r.
  rewrite bytes_of_payload by done.
  rewrite take_app_le by (rewrite length_take; lia).
  by rewrite take_take, Nat.min_id.
Qed.

(** X27: ψ on an image that is not RGBA loses the payload without saying
    so. When PIL has a converter from the image's mode to RGBA (it has for
    L and RGB), encode returns True, having written to the converted copy,
    the image is as before, and decode on it then returns the empty
    string. When PIL has none (mode La), encode raises ValueError and
    nothing is changed. *)
Theorem psi_roundtrip_on_other_format_is_empty σ img im s :
  images σ !! img = Some im →
  image_ok im = true →
  im_mode im ≠ RGBA →
  match pil_converter (im_mode im) RGBA with
  | Some _ =>
      ∃ σ',
        SteganoMode.encode PSI img s None σ = (Ok true, σ')
        ∧ images σ' !! img = Some im
        ∧ SteganoMode.decode PSI img σ' = (Ok [], σ')
  | None => SteganoMode.encode PSI img s None σ = (Raise ValueError, σ)
  end.
Proof.
  intros Hσ Hok Hm. cbn [SteganoMode.encode].
  destruct (pil_converter (im_mode im) RGBA) as [f|] eqn:Hf;
    [|by apply (encode_psi_no_converter σ img im)].
  rewrite (encode_psi_on_copy σ img im f s Hσ (image_ok_shape _ Hok) Hm Hf).
  eexists. split; [done|].
  assert (images (mkWorld (images σ ++
              [mkImage RGBA (im_size im)
                 (overlay psi_write (f <$> im_data im) (payload_bits s))])
            (files σ) (log σ)) !! img = Some im) as H
    by (cbn; by apply lookup_app_l_Some).
  split; [done|].
  unfold SteganoMode.decode, SteganoMode._decode_psi.
  rewrite run_bind, (run_get_image _ _ _ H). by rewrite decide_True.
Qed.

End round_trips.

Section round_trips_examples.

(** Examples run with the converters spelled out in [pil_converter]. *)
#[local] Existing Instance plain_pillow.

Lemma roundtrip_returns_what_fits_witness :
  ∃ t σ',
    SteganoMode.encode PHI 0%nat [65%N; 66%N] None (mkWorld [strip8] ∅ []) = (Ok true, σ')
    ∧ SteganoMode.decode PHI 0%nat σ' = (Ok t, σ')
    ∧ length t = 1%nat
    ∧ take 1 t = [65%N].
Proof.
  destruct (roundtrip_returns_what_fits PHI (mkWorld [strip8] ∅ []) 0%nat strip8
              [65%N; 66%N] eq_refl eq_refl eq_refl eq_refl)
    as (t & σ' & H0 & H1 & H2 & H3).
  exists t, σ'. split; [exact H0|]. split; [exact H1|]. split; [exact H2|].
  rewrite H2 in H3. exact H3.
Defined.

Lemma psi_roundtrip_on_other_format_is_empty_witness :
  ∃ σ',
    SteganoMode.encode PSI 0%nat [65%N] None (mkWorld [strip8] ∅ []) = (Ok true, σ')
    ∧ images σ' !! 0%nat = Some strip8
    ∧ SteganoMode.decode PSI 0%nat σ' = (Ok [], σ').
Proof.
  apply (psi_roundtrip_on_other_format_is_empty (mkWorld [strip8] ∅ []) 0%nat strip8 [65%N]);
    first [reflexivity | discriminate].
Defined.

End round_trips_examples.

(** ** The ψ payload and the codec *)

Section psi_payload.

(** PIL's remaining converters are arbitrary. *)
Context {pil : Pillow}.

Section psi_codec.
Context {ndarray : Type}.
Context (validate_content : string → Result bool)
        (apply_quantum_transform : list (list Z) → Result ndarray)
        (np_uint8 : ndarray → list (list Z))
        (get_superposition_state : list (list Z) → Result (list ndarray))
        (temporal_analyzer : bool)
        (analyze_pattern : ndarray → Result unit)
        (generate_pq_hash : string → Result (list N))
        (save_check : string → Image → Result unit).
Context (isoformat : nat → string) (tobytes : ndarray → list Z)
        (sha3_512_hexdigest : list Z → list N)
        (corrcoef_phi : ndarray → Result float).

End psi_codec.

End psi_payload.

Section psi_payload_examples.

(** Examples run with the converters spelled out in [pil_converter]. *)
#[local] Existing Instance plain_pillow.



End psi_payload_examples.

(** ** Images of other modes *)

Section other_modes.

(** PIL's remaining converters are arbitrary. *)
Context {pil : Pillow}.

Section blind.
Context (mode : ImageMode) (img : ref).
Local Abbreviation blind := (mode_blind mode img).

Lemma blind_ret {A} (a : A) : blind (mret a).
Proof. by intros σ r σ' Hc [= <- <-]. Qed.

Lemma blind_raise {A} e : blind (raise e : M A).
Proof. by intros σ r σ' Hc [= <- <-]. Qed.

Lemma blind_lift {A} (x : Result A) : blind (lift x).
Proof. by intros σ r σ' Hc [= <- <-]. Qed.

Lemma blind_bind {A B} (m : M A) (f : A → M B) :
  blind m → (∀ a, blind (f a)) → blind (m ≫= f).
Proof.
  intros Hm Hf σ r σ' Hc Hrun. rewrite run_bind in Hrun. rewrite run_bind.
  destruct (m σ) as [[a|e] σ1] eqn:E; destruct (Hm _ _ _ Hc E) as [-> Hc1].
  - by apply Hf.
  - by injection Hrun as <- <-.
Qed.

Lemma blind_try {A} (body : M A) handler :
  blind body → (∀ e, blind (handler e)) → blind (try_except body handler).
Proof.
  intros Hm Hf σ r σ' Hc Hrun. unfold try_except in *.
  destruct (body σ) as [[a|e] σ1] eqn:E; destruct (Hm _ _ _ Hc E) as [-> Hc1].
  - by injection Hrun as <- <-.
  - by apply Hf.
Qed.

Lemma blind_for_in {A S} (body : A → S → M (ctl * S)) l :
  (∀ a s, blind (body a s)) → ∀ s, blind (for_in body l s).
Proof.
  intros Hb. induction l as [|a l IH]; intros s; [apply blind_ret|].
  cbn [for_in]. apply blind_bind; [apply Hb|].
  intros [[] s']; [apply IH|apply blind_ret].
Qed.

Lemma retag_lookup σ :
  images (retag mode img σ) !! img
  = (λ im, mkImage mode (im_size im) (im_data im)) <$> images σ !! img.
Proof. apply list_lookup_alter_eq. Qed.

(** Reading the image object and using its size only. *)
Lemma blind_size {A} (f : Image → M A) :
  (∀ im1 im2, im_size im1 = im_size im2 → f im1 = f im2) →
  (∀ im, blind (f im)) → blind (get_image img ≫= f).
Proof.
  intros Hsz Hf σ r σ' Hc Hrun. rewrite run_bind in Hrun. rewrite run_bind.
  unfold get_image in *. rewrite retag_lookup.
  destruct (images σ !! img) as [im|] eqn:E; cbn [fmap option_fmap option_map].
  - rewrite (Hsz _ im) by done. by apply Hf.
  - by injection Hrun as <- <-.
Qed.

Lemma blind_getpixel xy : blind (getpixel img xy).
Proof.
  intros σ r σ' Hc Hrun. unfold getpixel in *. rewrite run_bind in *.
  unfold get_image in *. rewrite retag_lookup.
  destruct (images σ !! img) as [im|] eqn:E; cbn [fmap option_fmap option_map];
    [|by injection Hrun as <- <-].
  cbn [im_size im_data].
  destruct (pixel_index (im_size im) xy) as [k|]; [|by injection Hrun as <- <-].
  destruct (im_data im !! k); by injection Hrun as <- <-.
Qed.

Lemma blind_putpixel xy v : blind (putpixel img xy v).
Proof.
  intros σ r σ' Hc Hrun. unfold putpixel in *. rewrite run_bind in *.
  unfold get_image in *. rewrite retag_lookup.
  destruct (images σ !! img) as [im|] eqn:E; cbn [fmap option_fmap option_map];
    [|by injection Hrun as <- <-].
  cbn [im_size im_data im_mode]. rewrite <- (Hc im E).
  destruct (pixel_index (im_size im) xy) as [k|]; [|by injection Hrun as <- <-].
  destruct (length v =? bands (im_mode im))%nat; [|by injection Hrun as <- <-].
  unfold set_image in *. injection Hrun as <- <-. split.
  - f_equal. unfold retag. cbn [images files log]. f_equal.
    apply list_eq. intros j. destruct (decide (j = img)) as [->|Hj].
    + rewrite list_lookup_alter_eq.
      destruct (decide (img < length (images σ))%nat) as [Hl|Hl].
      * rewrite !list_lookup_insert_eq by (by rewrite ?length_alter). done.
      * apply lookup_lt_Some in E. lia.
    + rewrite list_lookup_alter_ne, !list_lookup_insert_ne by done.
      by rewrite list_lookup_alter_ne.
  - intros im'. cbn [images].
    rewrite list_lookup_insert_eq by (by apply lookup_lt_Some in E).
    intros [= <-]. cbn [im_mode]. by apply Hc.
Qed.
End blind.

Lemma blind_chars_of_binary mode img bd :
  mode_blind mode img (SteganoMode.chars_of_binary bd).
Proof.
  unfold SteganoMode.chars_of_binary. apply blind_for_in. intros i chars.
  cbv zeta. destruct (_ =? 8); [|apply blind_ret].
  apply blind_bind; [apply blind_lift|]. intros v.
  apply blind_bind; [apply blind_lift|]. intros c. apply blind_ret.
Qed.

Ltac blind_step :=
  first
    [ apply blind_ret | apply blind_raise | apply blind_lift
    | apply blind_getpixel | apply blind_putpixel | apply blind_chars_of_binary
    | apply blind_try; [|intros ?]
    | apply blind_for_in; intros ? ?
    | apply blind_bind; [|intros ?]
    | match goal with |- mode_blind _ _ (if ?c then _ else _) => destruct c end
    | match goal with |- mode_blind _ _ (let '(_, _) := ?p in _) => destruct p end
    | match goal with |- mode_blind _ _ (match ?p with _ => _ end) => destruct p end
    | match goal with
      | |- mode_blind _ _ ((match ?p with _ => _ end) _) => destruct p; cbv beta
      end ].

Ltac blind_image :=
  apply blind_size;
  [ intros [? [? ?] ?] [? [? ?] ?]; cbn [im_size]; by intros [= -> ->]
  | intros [? [? ?] ?]; cbn [im_size] ].

Lemma blind_encode mode img m s positions :
  m ≠ PSI → mode_blind mode img (SteganoMode.encode m img s positions).
Proof.
  intros Hm. destruct m; [done|..]; cbn [SteganoMode.encode].
  - unfold SteganoMode._encode_phi. apply blind_try; [|intros; apply blind_ret].
    apply blind_bind; [|intros; apply blind_ret].
    destruct positions as [[|pos0 pos']|]; [blind_image| |blind_image];
      repeat blind_step.
  - unfold SteganoMode._encode_tau. blind_image. repeat blind_step.
Qed.

Lemma blind_decode mode img m :
  m ≠ PSI → mode_blind mode img (SteganoMode.decode m img).
Proof.
  intros Hm. destruct m; [done|..]; cbn [SteganoMode.decode].
  - unfold SteganoMode._decode_phi. blind_image. repeat blind_step.
  - unfold SteganoMode._decode_tau. blind_image. repeat blind_step.
Qed.

Lemma blind_calculate_checksum mode img region :
  mode_blind mode img (calculate_checksum img region).
Proof.
  unfold calculate_checksum. destruct region as [[[x1 y1] x2] y2].
  blind_image. repeat blind_step.
Qed.

Lemma blind_embed_checksum mode img c : mode_blind mode img (embed_checksum img c).
Proof. unfold embed_checksum. repeat blind_step. Qed.

Lemma blind_extract_checksum mode img : mode_blind mode img (extract_checksum img).
Proof. unfold extract_checksum. repeat blind_step. Qed.

(** X28: the φ and τ coders and the three checksum functions never look at
    the image's mode, only at its size and its pixels. Given the image
    with another mode of as many bands, they return the same result and
    leave the same pixels: a three-band image of mode YCbCr, LAB or HSV is
    written and read exactly as the RGB image with the same band values,
    its first band taken for red. *)
Theorem mode_name_is_never_checked mode σ img im :
  images σ !! img = Some im →
  bands mode = bands (im_mode im) →
  let same_run {A} (m : M A) :=
    m (retag mode img σ) = ((m σ).1, retag mode img (m σ).2) in
  (∀ m s positions, m ≠ PSI → same_run (SteganoMode.encode m img s positions))
  ∧ (∀ m, m ≠ PSI → same_run (SteganoMode.decode m img))
  ∧ (∀ region, same_run (calculate_checksum img region))
  ∧ (∀ c, same_run (embed_checksum img c))
  ∧ same_run (extract_checksum img).
Proof.
  intros Hσ Hb same_run.
  assert (Hc : same_bands mode img σ) by (intros im'; rewrite Hσ; by intros [= <-]).
  assert (Hrun : ∀ A (m : M A), mode_blind mode img m → same_run A m).
  { intros A m Hm. unfold same_run. destruct (m σ) as [r σ'] eqn:E.
    by destruct (Hm σ r σ' Hc E). }
  repeat split; intros; apply Hrun;
    auto using blind_encode, blind_decode, blind_calculate_checksum,
      blind_embed_checksum, blind_extract_checksum.
Qed.

End other_modes.

Section other_modes_examples.

(** Examples run with the converters spelled out in [pil_converter]. *)
#[local] Existing Instance plain_pillow.

Lemma mode_name_is_never_checked_witness :
  SteganoMode.encode PHI 0%nat [128%N] None (mkWorld [hsv21] ∅ [])
  = (Ok true, mkWorld [mkImage HSV (2, 1) [[11; 20; 30]; [40; 50; 60]]] ∅ [])
  ∧ calculate_checksum 0%nat (0, 0, 2, 1) (mkWorld [hsv21] ∅ [])
    = ((calculate_checksum 0%nat (0, 0, 2, 1)
          (mkWorld [mkImage RGB (2, 1) [[10; 20; 30]; [41; 50; 60]]] ∅ [])).1,
       mkWorld [hsv21] ∅ []).
Proof.
  destruct (mode_name_is_never_checked HSV
              (mkWorld [mkImage RGB (2, 1) [[10; 20; 30]; [41; 50; 60]]] ∅ []) 0%nat
              (mkImage RGB (2, 1) [[10; 20; 30]; [41; 50; 60]]) eq_refl eq_refl)
    as (Henc & _ & Hsum & _).
  split.
  - exact (Henc PHI [128%N] None ltac:(discriminate)).
  - exact (Hsum (0, 0, 2, 1)).
Defined.

End other_modes_examples.
